(** * Conversion of a pnpm lockfile into an npm package lock

    A shallow embedding of [src/lib/compass/processPnpmLockfile.ts] and
    of the properties its specification states about it.

    Modelling conventions.
    - JavaScript strings are [string]s of 8-bit code units.  The regular
      expressions of the source only tell apart ASCII characters and the
      line terminators; of the latter, line feed and carriage return are
      representable here.
    - A JavaScript object used as a dictionary is an association list
      holding its own enumerable properties in the order in which
      [Object.entries] enumerates them (see [JsObject]).  The objects of
      the document are plain objects, as are those that the conversion
      creates with [{}]: a read under a computed key also sees the
      members of [Object.prototype], and an assignment to [__proto__]
      replaces the prototype instead of creating a property.
    - An optional field [f?: T] is an [option T]; [None] is "absent".
    - Code that throws returns in the error monad [result]. *)

From Stdlib Require Import String Ascii List Bool NArith ZArith Lia.
Import ListNotations.

Open Scope string_scope.

(* ================================================================== *)
(** * Exceptions *)

(** A thrown value.  [JsError code message] is an [Error] object, whose
    [code] property is present for errors of the file system.
    [JsTypeError p] is the [TypeError] the runtime raises when property
    [p] is read from, written to or looked up with [in] in
    [undefined]. *)
Inductive Exn : Type :=
| JsError (code : option string) (message : string)
| JsTypeError (property : string).

Inductive result (A : Type) : Type :=
| Ok (a : A)
| Throw (e : Exn).

Arguments Ok {A} a.
Arguments Throw {A} e.

Definition bind {A B : Type} (m : result A) (k : A -> result B) : result B :=
  match m with
  | Ok a => k a
  | Throw e => Throw e
  end.

Notation "x <- m ;; k" := (bind m (fun x => k))
  (at level 61, m at next level, right associativity).
Notation "' p <- m ;; k" := (bind m (fun x => let 'p := x in k))
  (at level 61, p pattern, m at next level, right associativity).

(** [new Error(message)], thrown. *)
Definition throwError {A : Type} (message : string) : result A :=
  Throw (JsError None message).

(* ================================================================== *)
(** * Strings *)

Module Str.

Definition is_slash (c : ascii) : bool := Ascii.eqb c "/".
Definition is_underscore (c : ascii) : bool := Ascii.eqb c "_".

(** Line terminators, which [.] does not match. *)
Definition is_line_terminator (c : ascii) : bool :=
  Ascii.eqb c "010" || Ascii.eqb c "013".

(** [\d] *)
Definition is_digit (c : ascii) : bool :=
  let n := nat_of_ascii c in (48 <=? n)%nat && (n <=? 57)%nat.

(** [[0-9a-f]] *)
Definition is_hex (c : ascii) : bool :=
  let n := nat_of_ascii c in
  is_digit c || ((97 <=? n)%nat && (n <=? 102)%nat).

Fixpoint all (p : ascii -> bool) (s : string) : bool :=
  match s with
  | EmptyString => true
  | String c s' => p c && all p s'
  end.

Definition none (p : ascii -> bool) (s : string) : bool :=
  all (fun c => negb (p c)) s.

Definition nonempty (s : string) : bool :=
  match s with
  | EmptyString => false
  | String _ _ => true
  end.

(** [s.startsWith(p)] *)
Fixpoint startsWith (s p : string) {struct p} : bool :=
  match p, s with
  | EmptyString, _ => true
  | String a p', String b s' => Ascii.eqb a b && startsWith s' p'
  | String _ _, EmptyString => false
  end.

(** What remains of [s] after the literal prefix [p]. *)
Fixpoint strip (p s : string) : option string :=
  match p, s with
  | EmptyString, _ => Some s
  | String a p', String b s' => if Ascii.eqb a b then strip p' s' else None
  | String _ _, EmptyString => None
  end.

(** [s.indexOf(c)] for a one-character needle: the position of the
    first occurrence, or [-1]. *)
Fixpoint indexOf_from (c : ascii) (s : string) (i : Z) : Z :=
  match s with
  | EmptyString => (-1)%Z
  | String a s' => if Ascii.eqb a c then i else indexOf_from c s' (i + 1)%Z
  end.

Definition indexOf (s : string) (c : ascii) : Z := indexOf_from c s 0.

Fixpoint drop (n : nat) (s : string) : string :=
  match n, s with
  | O, _ => s
  | S n', String _ s' => drop n' s'
  | S _, EmptyString => EmptyString
  end.

Fixpoint take (n : nat) (s : string) : string :=
  match n, s with
  | S n', String c s' => String c (take n' s')
  | _, _ => EmptyString
  end.

(** [s.substr(start, len)] and [s.substr(start)], for [start >= 0]. *)
Definition substr (s : string) (start len : Z) : string :=
  take (Z.to_nat len) (drop (Z.to_nat start) s).

Definition substr_from (s : string) (start : Z) : string :=
  drop (Z.to_nat start) s.

(** The text before the first ["/"] and the text after it: how a
    [[^/]*] or [[^/]+] that is followed by [\/] has to match. *)
Fixpoint split_slash (s : string) : option (string * string) :=
  match s with
  | EmptyString => None
  | String c s' =>
      if is_slash c then Some (EmptyString, s')
      else match split_slash s' with
           | Some (a, b) => Some (String c a, b)
           | None => None
           end
  end.

(** [needle] occurs in [s]. *)
Definition includes (s needle : string) : Prop :=
  exists before after, s = before ++ needle ++ after.

End Str.

(* ================================================================== *)
(** * Package descriptors *)

Inductive PnpmPackageDescType : Type :=
| Version
| Github
| Uri.

Definition PnpmPackageDescType_eqb (a b : PnpmPackageDescType) : bool :=
  match a, b with
  | Version, Version | Github, Github | Uri, Uri => true
  | _, _ => false
  end.

Record PnpmPackageDesc : Type := mkDesc {
  pd_type : PnpmPackageDescType;
  pd_fullName : string;
  pd_name : string;
  pd_version : string;
  pd_extra : option string
}.

(** The pattern of [getGithubPackageDesc]. *)
Definition github_re : string :=
  "^github.com\/([^/]+\/([^/]+))\/([0-9a-f]{40})$".

(** [github_re.exec(uri)]: the groups 1, 2 and 3 of the match.  The dot
    of the pattern is not escaped and stands for any character but a line
    terminator.  Each [[^/]+] is followed by a slash, so it takes the
    text up to the next slash; the last group must reach the end of the
    input. *)
Definition exec_github_re (uri : string) : option (string * string * string) :=
  match Str.strip "github" uri with
  | Some (String c r) =>
      if Str.is_line_terminator c then None
      else
        match Str.strip "com/" r with
        | Some r1 =>
            match Str.split_slash r1 with
            | Some (owner, r2) =>
                match Str.split_slash r2 with
                | Some (repo, commit) =>
                    if Str.nonempty owner && Str.nonempty repo
                       && (String.length commit =? 40)%nat
                       && Str.all Str.is_hex commit
                    then Some (owner ++ "/" ++ repo, repo, commit)
                    else None
                | None => None
                end
            | None => None
            end
        | None => None
        end
  | _ => None
  end.

Definition getGithubPackageDesc (uri : string) : result PnpmPackageDesc :=
  match exec_github_re uri with
  | None => throwError ("Error parsing github URI " ++ uri)
  | Some (result1, result2, result3) =>
      let versionUri := "github:" ++ result1 ++ "#" ++ result3 in
      let name := result2 in
      Ok {| pd_type := Github;
            pd_fullName := uri;
            pd_name := name;
            pd_version := versionUri;
            pd_extra := None |}
  end.

(** The pattern of [getPathPackageDesc]. *)
Definition path_re : string :=
  "^[^/]*\/((?:@[^/]+\/)?[^/]+)\/(.*)$".

(** The tail of [path_re] from the last [[^/]+] on: a non-empty
    slash-free name, a slash, and a rest without line terminators that
    reaches the end of the input. *)
Definition exec_name_version (r : string) : option (string * string) :=
  match Str.split_slash r with
  | Some (name, version) =>
      if Str.nonempty name && Str.none Str.is_line_terminator version
      then Some (name, version)
      else None
  | None => None
  end.

(** [path_re.exec(fullName)]: the groups 1 and 2 of the match.  The
    leading slash-free run stops at the first slash.  The optional scope
    (an at sign, a non-empty slash-free run, a slash) is greedy: the
    matcher first tries to take it and falls back to the pattern without
    it only if the rest then fails. *)
Definition exec_path_re (fullName : string) : option (string * string) :=
  match Str.split_slash fullName with
  | None => None
  | Some (_, r) =>
      let scoped :=
        match r with
        | String c r1 =>
            if Ascii.eqb c "@" then
              match Str.split_slash r1 with
              | Some (scope, r2) =>
                  if Str.nonempty scope then
                    match exec_name_version r2 with
                    | Some (pkg, version) =>
                        Some ("@" ++ scope ++ "/" ++ pkg, version)
                    | None => None
                    end
                  else None
              | None => None
              end
            else None
        | EmptyString => None
        end in
      match scoped with
      | Some m => Some m
      | None => exec_name_version r
      end
  end.

Definition getPathPackageDesc (fullName : string) : result PnpmPackageDesc :=
  if negb (Str.startsWith fullName "github.com/") then
    match exec_path_re fullName with
    | None => throwError ("Error parsing package name " ++ fullName)
    | Some (result1, result2) =>
        let type := if Str.startsWith fullName "/" then Version else Uri in
        let name := result1 in
        let version := result2 in
        let firstUnderscore := Str.indexOf version "_" in
        let '(versionNumber, extra) :=
          if negb (firstUnderscore =? -1)%Z then
            (Str.substr version 0 firstUnderscore,
             Some (Str.substr_from version (firstUnderscore + 1)))
          else (version, None) in
        Ok {| pd_type := type;
              pd_fullName := fullName;
              pd_name := name;
              pd_version := versionNumber;
              pd_extra := extra |}
    end
  else getGithubPackageDesc fullName.

(** [/^\d/.test(version)] *)
Definition starts_with_digit (version : string) : bool :=
  match version with
  | String c _ => Str.is_digit c
  | EmptyString => false
  end.

(** A package in the 'dependencies' section of the lockfile. *)
Definition getDependencyPackageDesc (name version : string)
  : result PnpmPackageDesc :=
  if starts_with_digit version
  then getPathPackageDesc ("" ++ "/" ++ name ++ "/" ++ version)
  else getPathPackageDesc version.

(* ================================================================== *)
(** * JavaScript objects as dictionaries *)

(** An object is the list of its own properties in enumeration order:
    first the keys that are array indices (canonical decimal numerals
    below [2^32 - 1]) in ascending numeric order, then the other keys in
    the order in which they were created.  Assigning to an existing key
    keeps its place. *)
Module JsObject.

Definition t (V : Type) : Type := list (string * V).

Fixpoint digits_value (s : string) (acc : N) : option N :=
  match s with
  | EmptyString => Some acc
  | String c s' =>
      if Str.is_digit c
      then digits_value s' (acc * 10 + (N_of_ascii c - 48))%N
      else None
  end.

Definition array_index (k : string) : option N :=
  match k with
  | EmptyString => None
  | String c s' =>
      if Ascii.eqb c "0" && Str.nonempty s' then None
      else match digits_value k 0 with
           | Some n => if (n <? 4294967295)%N then Some n else None
           | None => None
           end
  end.

Section Operations.
Context {V : Type}.

Definition empty : t V := [].

(** [o[k]], own properties only. *)
Fixpoint get (o : t V) (k : string) : option V :=
  match o with
  | [] => None
  | (k', v) :: o' => if String.eqb k k' then Some v else get o' k
  end.

(** [k in o], own properties only. *)
Definition has (o : t V) (k : string) : bool :=
  match get o k with
  | Some _ => true
  | None => false
  end.

Fixpoint replace (o : t V) (k : string) (v : V) : t V :=
  match o with
  | [] => []
  | (k', v') :: o' =>
      if String.eqb k k' then (k', v) :: o' else (k', v') :: replace o' k v
  end.

Fixpoint insert_index (o : t V) (n : N) (k : string) (v : V) : t V :=
  match o with
  | [] => [(k, v)]
  | (k', v') :: o' =>
      match array_index k' with
      | Some n' =>
          if (n' <? n)%N then (k', v') :: insert_index o' n k v
          else (k, v) :: o
      | None => (k, v) :: o
      end
  end.

(** [o[k] = v] *)
Definition set (o : t V) (k : string) (v : V) : t V :=
  if has o k then replace o k v
  else match array_index k with
       | Some n => insert_index o n k v
       | None => (o ++ [(k, v)])%list
       end.

(** [delete o[k]] *)
Fixpoint delete (o : t V) (k : string) : t V :=
  match o with
  | [] => []
  | (k', v) :: o' =>
      if String.eqb k k' then delete o' k else (k', v) :: delete o' k
  end.

(** [Object.entries(o)] *)
Definition entries (o : t V) : list (string * V) := o.

Definition keys (o : t V) : list string := map fst o.

End Operations.

(** The properties of [Object.prototype], which every plain object
    inherits: eleven methods and the accessor [__proto__]. *)
Definition prototype_members : list string :=
  ["constructor"; "__defineGetter__"; "__defineSetter__"; "hasOwnProperty";
   "__lookupGetter__"; "__lookupSetter__"; "isPrototypeOf";
   "propertyIsEnumerable"; "toString"; "valueOf"; "__proto__";
   "toLocaleString"].

Definition inherited (k : string) : bool :=
  existsb (String.eqb k) prototype_members.

(** What [o[k]] denotes when it is not [undefined]: the value of an own
    property, or the member [k] of [Object.prototype] (a function, or
    [Object.prototype] itself for [__proto__]). *)
Inductive value (V : Type) : Type :=
| own (v : V)
| member (k : string).

Arguments own {V} v.
Arguments member {V} k.

(** [o[k]] on a plain object. *)
Definition read {V : Type} (o : t V) (k : string) : option (value V) :=
  match get o k with
  | Some v => Some (own v)
  | None => if inherited k then Some (member k) else None
  end.

(** [o[k] = v] on a plain object [o]: an assignment to [__proto__] that
    finds no own property of that name calls the setter that [o]
    inherits, which replaces the prototype of [o] when [v] is an object
    and does nothing otherwise; either way it creates no property. *)
Definition assign {V : Type} (o : t V) (k : string) (v : V) : t V :=
  if String.eqb k "__proto__" && negb (has o k) then o else set o k v.

End JsObject.

(* ================================================================== *)
(** * The two lockfile formats *)

Definition ResolvedDependencies : Type := JsObject.t string.

(** The snapshot types are declared in the package [@pnpm/lockfile-file];
    the records below keep the fields that the conversion reads. *)
Record LockfileResolution : Type := mkResolution {
  res_integrity : option string
}.

Record PackageSnapshot : Type := mkSnapshot {
  snap_name : option string;
  snap_resolution : LockfileResolution;
  snap_dependencies : option ResolvedDependencies;
  snap_dev : option bool
}.

Definition PackageSnapshots : Type := JsObject.t PackageSnapshot.

(** [lockfileVersion] of the pnpm lockfile is never read and is left out. *)
Record PnpmPackageLock : Type := mkPnpmPackageLock {
  lf_dependencies : option ResolvedDependencies;
  lf_devDependencies : option ResolvedDependencies;
  lf_optionalDependencies : option ResolvedDependencies;
  lf_packages : PackageSnapshots;
  lf_specifiers : ResolvedDependencies
}.

Definition NpmLockedPackageRequiresMap : Type := JsObject.t string.

Record NpmLockedPackageSubDependency : Type := mkSubDependency {
  sub_version : string;
  sub_resolved : option string;
  sub_integrity : option string
}.

Definition NpmLockedPackageSubDependencyMap : Type :=
  JsObject.t NpmLockedPackageSubDependency.

(** [version] is declared optional, but every record is built by
    [getPackage], which sets it; it is a plain string here.  [from] is
    declared a string, but [getPackage] stores what it reads from the
    specifiers under a name of the document, which may be a member of
    [Object.prototype]. *)
Record NpmLockedPackageDependency : Type := mkDependency {
  dep_version : string;
  dep_resolved : option string;
  dep_from : option (JsObject.value string);
  dep_integrity : option string;
  dep_dev : option bool;
  dep_requires : option NpmLockedPackageRequiresMap;
  dep_dependencies : option NpmLockedPackageSubDependencyMap
}.

Definition NpmLockedPackageDependencyMap : Type :=
  JsObject.t NpmLockedPackageDependency.

(** The root map [deps] of the conversion is created by [{}] and written
    under names that the document chooses.  It is the list of its own
    properties together with its prototype: [None] stands for
    [Object.prototype], and [Some pkg] for the record [pkg] that an
    assignment to [deps["__proto__"]] has put in its place.  Where a
    root map is used as an object or as a list, its own properties are
    meant. *)
Record RootMap : Type := mkRootMap {
  rm_own : NpmLockedPackageDependencyMap;
  rm_proto : option NpmLockedPackageDependency
}.

Coercion rm_own : RootMap >-> NpmLockedPackageDependencyMap.
Identity Coercion dependency_map_object :
  NpmLockedPackageDependencyMap >-> JsObject.t.
Identity Coercion object_entries : JsObject.t >-> list.

Record NpmPackageLock : Type := mkNpmPackageLock {
  npl_requires : option bool;
  npl_lockfileVersion : Z;
  npl_dependencies : RootMap
}.

(** Field assignments [dep.f = x]. *)
Definition set_from (d : NpmLockedPackageDependency)
    (x : JsObject.value string) :=
  mkDependency (dep_version d) (dep_resolved d) (Some x) (dep_integrity d)
    (dep_dev d) (dep_requires d) (dep_dependencies d).

Definition set_integrity (d : NpmLockedPackageDependency) (x : string) :=
  mkDependency (dep_version d) (dep_resolved d) (dep_from d) (Some x)
    (dep_dev d) (dep_requires d) (dep_dependencies d).

Definition set_requires (d : NpmLockedPackageDependency)
    (x : NpmLockedPackageRequiresMap) :=
  mkDependency (dep_version d) (dep_resolved d) (dep_from d) (dep_integrity d)
    (dep_dev d) (Some x) (dep_dependencies d).

Definition set_dev (d : NpmLockedPackageDependency) (x : bool) :=
  mkDependency (dep_version d) (dep_resolved d) (dep_from d) (dep_integrity d)
    (Some x) (dep_requires d) (dep_dependencies d).

Definition set_dependencies (d : NpmLockedPackageDependency)
    (x : NpmLockedPackageSubDependencyMap) :=
  mkDependency (dep_version d) (dep_resolved d) (dep_from d) (dep_integrity d)
    (dep_dev d) (dep_requires d) (Some x).

Definition set_packages (l : PnpmPackageLock) (p : PackageSnapshots) :=
  mkPnpmPackageLock (lf_dependencies l) (lf_devDependencies l)
    (lf_optionalDependencies l) p (lf_specifiers l).

(* ================================================================== *)
(** * The package resolver *)

(** [getPackage] returns the record and, since it may delete the snapshot,
    the lockfile as it is afterwards.  [packages] is declared as always
    present, so that the optional chaining of [lockfile.packages?.[...]]
    is a plain lookup.  When the full key names no snapshot but a member
    of [Object.prototype], the lookup is not [undefined]; that member
    has no [resolution], and the test for ["integrity"] in it raises a
    [TypeError] before anything is returned or deleted.
    [dep.requires] is the very object
    [snapshot.dependencies]; the conversion resolves a snapshot at most
    once and never reads a snapshot's dependencies again, so that the
    later writes to [requires] are seen through the record only. *)
Definition getPackage (lockfile : PnpmPackageLock)
    (packageDesc : PnpmPackageDesc) (remove : bool)
  : result (NpmLockedPackageDependency * PnpmPackageLock) :=
  match JsObject.read (lf_packages lockfile) (pd_fullName packageDesc) with
  | None =>
      throwError ("Failed to lookup " ++ pd_fullName packageDesc
                  ++ " in packages")
  | Some (JsObject.member _) => Throw (JsTypeError "integrity")
  | Some (JsObject.own snapshot) =>
      let dep := mkDependency (pd_version packageDesc)
                   None None None None None None in
      let dep :=
        match pd_type packageDesc, snap_name snapshot with
        | Github, Some name =>
            match JsObject.read (lf_specifiers lockfile) name with
            | Some specifier => set_from dep specifier
            | None => dep
            end
        | _, _ => dep
        end in
      let dep :=
        match res_integrity (snap_resolution snapshot) with
        | Some integrity => set_integrity dep integrity
        | None => dep
        end in
      let dep :=
        match snap_dependencies snapshot with
        | Some dependencies => set_requires dep dependencies
        | None => dep
        end in
      let dep :=
        match snap_dev snapshot with
        | Some true => set_dev dep true
        | _ => dep
        end in
      let lockfile :=
        if remove
        then set_packages lockfile
               (JsObject.delete (lf_packages lockfile) (pd_fullName packageDesc))
        else lockfile in
      Ok (dep, lockfile)
  end.

Definition getSubDependencyFromDependency (dep : NpmLockedPackageDependency)
  : NpmLockedPackageSubDependency :=
  let subDep := mkSubDependency (dep_version dep) None None in
  let subDep :=
    match dep_resolved dep with
    | Some resolved =>
        mkSubDependency (sub_version subDep) (Some resolved)
          (sub_integrity subDep)
    | None => subDep
    end in
  let subDep :=
    match dep_integrity dep with
    | Some integrity =>
        mkSubDependency (sub_version subDep) (sub_resolved subDep)
          (Some integrity)
    | None => subDep
    end in
  subDep.

(* ================================================================== *)
(** * The graph reshaper *)

(** The names of the dependency buckets of a pnpm lockfile. *)
Inductive DependenciesField : Type :=
| optionalDependencies
| dependencies
| devDependencies.

(** [lockfile[depType]] *)
Definition lockfile_field (lockfile : PnpmPackageLock)
    (depType : DependenciesField) : option ResolvedDependencies :=
  match depType with
  | optionalDependencies => lf_optionalDependencies lockfile
  | dependencies => lf_dependencies lockfile
  | devDependencies => lf_devDependencies lockfile
  end.

(** ** Reads and writes of the root map *)

(** What [deps[name]] denotes when it is not [undefined]: a record (an
    own property, or the record that took the place of the prototype),
    the 'requires' of the record that took the place of the prototype,
    or another value: a string, a boolean, a map of nested records, a
    function or [Object.prototype], none of which has a string under
    [version]. *)
Inductive RootValue : Type :=
| a_record (dep : NpmLockedPackageDependency)
| a_requires (requires : NpmLockedPackageRequiresMap)
| another.

(** [pkg[name]], own properties only: the fields that the record has. *)
Definition record_field (pkg : NpmLockedPackageDependency) (name : string)
  : option RootValue :=
  if String.eqb name "version" then Some another
  else if String.eqb name "resolved"
  then option_map (fun _ => another) (dep_resolved pkg)
  else if String.eqb name "from"
  then option_map (fun _ => another) (dep_from pkg)
  else if String.eqb name "integrity"
  then option_map (fun _ => another) (dep_integrity pkg)
  else if String.eqb name "dev"
  then option_map (fun _ => another) (dep_dev pkg)
  else if String.eqb name "requires"
  then option_map a_requires (dep_requires pkg)
  else if String.eqb name "dependencies"
  then option_map (fun _ => another) (dep_dependencies pkg)
  else None.

(** [deps[name]]: an own property, or what the chain of prototypes
    shows.  The accessor [__proto__] gives the prototype of [deps]. *)
Definition read_root (deps : RootMap) (name : string) : option RootValue :=
  match JsObject.get (rm_own deps) name with
  | Some dep => Some (a_record dep)
  | None =>
      match rm_proto deps with
      | Some pkg =>
          if String.eqb name "__proto__" then Some (a_record pkg)
          else
            match record_field pkg name with
            | Some v => Some v
            | None => if JsObject.inherited name then Some another else None
            end
      | None => if JsObject.inherited name then Some another else None
      end
  end.

(** [v.version], when it is a string. *)
Definition version_of (v : RootValue) : option string :=
  match v with
  | a_record dep => Some (dep_version dep)
  | a_requires requires => JsObject.get requires "version"
  | another => None
  end.

(** [deps[name] = pkg]: an assignment to [__proto__] replaces the
    prototype; every other name becomes, or stays, an own property. *)
Definition assign_root (deps : RootMap) (name : string)
    (pkg : NpmLockedPackageDependency) : RootMap :=
  if String.eqb name "__proto__" && negb (JsObject.has (rm_own deps) name)
  then mkRootMap (rm_own deps) (Some pkg)
  else mkRootMap (JsObject.set (rm_own deps) name pkg) (rm_proto deps).

(** The root map in which the record of the own property [key] has
    become [val]. *)
Definition update_root (deps : RootMap) (key : string)
    (val : NpmLockedPackageDependency) : RootMap :=
  mkRootMap (JsObject.set (rm_own deps) key val) (rm_proto deps).

Definition empty_root : RootMap := mkRootMap JsObject.empty None.

(** A [for ... of] loop whose body may throw. *)
Fixpoint foldM {S A : Type} (body : S -> A -> result S) (l : list A) (s : S)
  : result S :=
  match l with
  | [] => Ok s
  | a :: l' => s' <- body s a ;; foldM body l' s'
  end.

Section ProcessLockfile.

(** The constant [DEPENDENCIES_FIELDS] is imported from [@pnpm/types];
    the conversion is stated for any value of it. *)
Variable DEPENDENCIES_FIELDS : list DependenciesField.

(** ** Phase 1: direct dependencies *)

Definition phase1_entry
    (st : RootMap * PnpmPackageLock)
    (entry : string * string)
  : result (RootMap * PnpmPackageLock) :=
  let '(deps, lockfile) := st in
  let '(name, version) := entry in
  packageDesc <- getDependencyPackageDesc name version ;;
  '(pkg, lockfile) <- getPackage lockfile packageDesc true ;;
  Ok (assign_root deps (pd_name packageDesc) pkg, lockfile).

Definition phase1_bucket
    (st : RootMap * PnpmPackageLock)
    (depType : DependenciesField)
  : result (RootMap * PnpmPackageLock) :=
  match lockfile_field (snd st) depType with
  | Some depsMap => foldM phase1_entry (JsObject.entries depsMap) st
  | None => Ok st
  end.

Definition phase1 (lockfile : PnpmPackageLock)
  : result (RootMap * PnpmPackageLock) :=
  foldM phase1_bucket DEPENDENCIES_FIELDS (empty_root, lockfile).

(** ** Phase 2: the remaining packages *)

(** The staging map [subdeps] is created by [{}] as well, but it is
    written and read under full keys only, which a parser has accepted:
    they hold a slash, and so are neither [__proto__] nor another member
    of [Object.prototype].  It is the object of its own properties. *)
Definition phase2_entry (lockfile : PnpmPackageLock)
    (st : RootMap * NpmLockedPackageDependencyMap)
    (entry : string * PackageSnapshot)
  : result (RootMap * NpmLockedPackageDependencyMap) :=
  let '(deps, subdeps) := st in
  let '(key, _) := entry in
  packageDesc <- getPathPackageDesc key ;;
  '(pkg, _) <- getPackage lockfile packageDesc false ;;
  match read_root deps (pd_name packageDesc) with
  | Some _ => Ok (deps, JsObject.set subdeps (pd_fullName packageDesc) pkg)
  | None => Ok (assign_root deps (pd_name packageDesc) pkg, subdeps)
  end.

Definition phase2 (lockfile : PnpmPackageLock) (deps : RootMap)
  : result (RootMap * NpmLockedPackageDependencyMap) :=
  foldM (phase2_entry lockfile) (JsObject.entries (lf_packages lockfile))
    (deps, JsObject.empty).

(** ** Phase 3: the 'requires' of the root dependencies *)

(** The record [val] of the root [key] is mutated while its 'requires'
    are walked, and it is the record that [deps[key]] denotes.  Below,
    [val] is threaded through the loop and [deps] is the root map as it
    was when the walk of [key] began; the root map of the moment is
    [update_root deps key val].  A record is written during its own
    walk only, so that the [val] that [Object.entries(deps)] listed
    before the loop is the record as it is when its walk begins; the
    entries of 'requires' are listed before they are walked, and the
    writes to 'requires' change values, not keys. *)

(** [dep.version !== packageDesc.version], for a [dep] that is not
    [undefined]. *)
Definition version_differs (dep : RootValue) (version : string) : bool :=
  match version_of dep with
  | Some v => negb (String.eqb v version)
  | None => true
  end.

(** Nest a staged package, or check the version of a root.  The map
    [val.dependencies] is created by [{}]; it is only written, so that
    the prototype that an assignment to [__proto__] gives it is never
    looked at. *)
Definition phase3_lookup (deps : RootMap)
    (subdeps : NpmLockedPackageDependencyMap)
    (key : string) (val : NpmLockedPackageDependency)
    (name : string) (packageDesc : PnpmPackageDesc)
  : result NpmLockedPackageDependency :=
  match JsObject.get subdeps (pd_fullName packageDesc) with
  | Some dep =>
      let dependencies :=
        match dep_dependencies val with
        | Some d => d
        | None => JsObject.empty
        end in
      Ok (set_dependencies val
            (JsObject.assign dependencies name
               (getSubDependencyFromDependency dep)))
  | None =>
      match read_root deps name with
      | None => Throw (JsTypeError "version")
      | Some dep =>
          if version_differs dep (pd_version packageDesc)
          then throwError ("Failed to lookup " ++ pd_fullName packageDesc
                           ++ " in dependencies; used by " ++ key)
          else Ok val
      end
  end.

(** [packageDesc.extra !== undefined ||
     packageDesc.type === PnpmPackageDescType.Uri] *)
Definition has_extraneous_info (packageDesc : PnpmPackageDesc) : bool :=
  match pd_extra packageDesc with Some _ => true | None => false end
  || PnpmPackageDescType_eqb (pd_type packageDesc) Uri.

(** Remove any extraneous info from the name in 'requires'. *)
Definition phase3_strip (val : NpmLockedPackageDependency)
    (name : string) (packageDesc : PnpmPackageDesc)
  : result NpmLockedPackageDependency :=
  if has_extraneous_info packageDesc
  then
    match dep_requires val with
    | Some requires =>
        Ok (set_requires val
              (JsObject.assign requires name (pd_version packageDesc)))
    | None => Throw (JsTypeError name)
    end
  else Ok val.

Definition phase3_require (deps : RootMap)
    (subdeps : NpmLockedPackageDependencyMap)
    (key : string) (val : NpmLockedPackageDependency)
    (entry : string * string)
  : result NpmLockedPackageDependency :=
  let '(name, version) := entry in
  packageDesc <- getDependencyPackageDesc name version ;;
  val <- phase3_lookup (update_root deps key val) subdeps key val
           name packageDesc ;;
  phase3_strip val name packageDesc.

Definition phase3_root (subdeps : NpmLockedPackageDependencyMap)
    (deps : RootMap)
    (entry : string * NpmLockedPackageDependency)
  : result RootMap :=
  let '(key, val) := entry in
  match dep_requires val with
  | Some requires =>
      val <- foldM (phase3_require deps subdeps key)
               (JsObject.entries requires) val ;;
      Ok (update_root deps key val)
  | None => Ok deps
  end.

Definition phase3 (subdeps : NpmLockedPackageDependencyMap)
    (deps : RootMap) : result RootMap :=
  foldM (phase3_root subdeps) (JsObject.entries deps) deps.

Definition processLockfile (lockfile : PnpmPackageLock)
  : result NpmPackageLock :=
  '(deps, lockfile) <- phase1 lockfile ;;
  '(deps, subdeps) <- phase2 lockfile deps ;;
  deps <- phase3 subdeps deps ;;
  Ok {| npl_requires := Some true;
        npl_lockfileVersion := 1;
        npl_dependencies := deps |}.

(** ** Loading *)

(** What [readYamlFile] does at a path is an effect of the environment:
    it returns the parsed document or throws. *)
Variable readYamlFile : string -> result PnpmPackageLock.

(** [err.code !== "ENOENT"] *)
Definition code_is_not (err : Exn) (code : string) : bool :=
  match err with
  | JsError (Some c) _ => negb (String.eqb c code)
  | _ => true
  end.

Definition readPnpmLockfile (lockfilePath : string)
  : result (option PnpmPackageLock) :=
  match readYamlFile lockfilePath with
  | Ok lockfile => Ok (Some lockfile)
  | Throw err =>
      if code_is_not err "ENOENT" then Throw err else Ok None
  end.

Definition processPnpmLockfile (lockfilePath : string)
  : result NpmPackageLock :=
  lockfile <- readPnpmLockfile lockfilePath ;;
  match lockfile with
  | None => throwError ("Failed to load pnpm lock file " ++ lockfilePath)
  | Some lockfile => processLockfile lockfile
  end.

End ProcessLockfile.

(** Modelled from the spec: the value of [DEPENDENCIES_FIELDS], which the
    source imports from [@pnpm/types]; the specification names the order
    runtime, development, optional. *)
Definition DEPENDENCIES_FIELDS_spec : list DependenciesField :=
  [dependencies; devDependencies; optionalDependencies].

(* ================================================================== *)
(** * Vocabulary of the specification *)

Module Grammar.
Import Str.

(** The name of a package: a non-empty slash-free name that is not
    introduced by an at sign, or a scoped name [@scope/pkg]. *)
Inductive package_name : string -> Prop :=
| plain_name (name : string) :
    nonempty name = true -> none is_slash name = true ->
    startsWith name "@" = false ->
    package_name name
| scoped_name (scope pkg : string) :
    nonempty scope = true -> none is_slash scope = true ->
    nonempty pkg = true -> none is_slash pkg = true ->
    package_name ("@" ++ scope ++ "/" ++ pkg).

(** [segment] split on its first underscore. *)
Definition split_first_underscore (segment version : string)
    (extra : option string) : Prop :=
  (none is_underscore segment = true /\ version = segment /\ extra = None)
  \/ (exists pre post,
        segment = pre ++ "_" ++ post /\ none is_underscore pre = true /\
        version = pre /\ extra = Some post).

(** A key of the version-control grammar. *)
Definition github_key (uri owner repo commit : string) : Prop :=
  uri = "github.com/" ++ owner ++ "/" ++ repo ++ "/" ++ commit /\
  nonempty owner = true /\ none is_slash owner = true /\
  nonempty repo = true /\ none is_slash repo = true /\
  String.length commit = 40%nat /\ all is_hex commit = true.

End Grammar.

(** A record without [resolved], at its top and in every record nested
    under it. *)
Definition no_resolved (val : NpmLockedPackageDependency) : Prop :=
  dep_resolved val = None /\
  forall subs, dep_dependencies val = Some subs ->
    Forall (fun e => sub_resolved (snd e) = None) subs.

(** Two records agree on what the resolver found for a package: all the
    fields but [requires] and [dependencies], which Phase 3 edits. *)
Definition same_resolution (a b : NpmLockedPackageDependency) : Prop :=
  dep_version a = dep_version b /\ dep_resolved a = dep_resolved b /\
  dep_from a = dep_from b /\ dep_integrity a = dep_integrity b /\
  dep_dev a = dep_dev b.

(** The entries of an optional object, none when it is absent. *)
Definition or_empty {V : Type} (o : option (JsObject.t V)) : JsObject.t V :=
  match o with
  | Some d => d
  | None => JsObject.empty
  end.

(** The entries of the buckets in the order in which Phase 1 walks
    them. *)
Definition bucket_entries (fields : list DependenciesField)
    (lockfile : PnpmPackageLock) : list (string * string) :=
  flat_map (fun depType => JsObject.entries (or_empty (lockfile_field lockfile depType)))
    fields.



(** The orders in which the three buckets can be walked. *)
Definition field_orders : list (list DependenciesField) :=
  [ [dependencies; devDependencies; optionalDependencies];
    [dependencies; optionalDependencies; devDependencies];
    [devDependencies; dependencies; optionalDependencies];
    [devDependencies; optionalDependencies; dependencies];
    [optionalDependencies; dependencies; devDependencies];
    [optionalDependencies; devDependencies; dependencies] ].

(* ================================================================== *)
(** * Example lockfiles *)

Module Examples.

Definition snapshot (integrity : string)
    (deps : option ResolvedDependencies) : PackageSnapshot :=
  mkSnapshot None (mkResolution (Some integrity)) deps None.

(** A scoped root, a package promoted in Phase 2 and a package nested
    under the root that requires it. *)
Definition nested : PnpmPackageLock :=
  mkPnpmPackageLock
    (Some [("@scope/pkg", "1.2.0"); ("foo", "1.0.0"); ("baz", "1.0.0")])
    None None
    [("/@scope/pkg/1.2.0", snapshot "sha-ABC" None);
     ("/foo/1.0.0", snapshot "sha-foo" (Some [("bar", "2.0.0")]));
     ("/bar/2.0.0", snapshot "sha-bar" None);
     ("/baz/1.0.0", snapshot "sha-baz" (Some [("foo", "1.1.0_x")]));
     ("/foo/1.1.0_x", snapshot "sha-foo11" None)]
    [].



(** A second version of a root that no root requires. *)
Definition unrequired : PnpmPackageLock :=
  mkPnpmPackageLock
    (Some [("b", "1.0.0")]) None None
    [("/b/1.0.0", snapshot "sha-b1" None);
     ("/b/2.0.0", snapshot "sha-b2" None)]
    [].


(** A root that requires a package under an alias. *)
Definition aliased_requires : PnpmPackageLock :=
  mkPnpmPackageLock
    (Some [("a", "1.0.0")]) None None
    [("/a/1.0.0", snapshot "sha-a" (Some [("b", "/c/1.0.0")]));
     ("/c/1.0.0", snapshot "sha-c" None)]
    [].

(** A root that requires a package that the lockfile does not have. *)
Definition dangling_requires : PnpmPackageLock :=
  mkPnpmPackageLock
    (Some [("a", "1.0.0")]) None None
    [("/a/1.0.0", snapshot "sha-a" (Some [("zzz", "9.9.9")]))]
    [].


(** A root that requires a root of a custom registry. *)
Definition from_registry : PnpmPackageLock :=
  mkPnpmPackageLock
    (Some [("a", "1.0.0"); ("b", "npm.example.com/b/1.0.0")]) None None
    [("/a/1.0.0",
      snapshot "sha-a" (Some [("b", "npm.example.com/b/1.0.0")]));
     ("npm.example.com/b/1.0.0", snapshot "sha-b" None)]
    [].

(** A package that no bucket lists and whose name is a member of
    [Object.prototype]. *)
Definition member_name : PnpmPackageLock :=
  mkPnpmPackageLock
    (Some [("a", "1.0.0")]) None None
    [("/a/1.0.0", snapshot "sha-a" None);
     ("/constructor/1.0.0", snapshot "sha-c" None)]
    [].

(** A root that requires a package of such a name, which the lockfile
    does not have. *)
Definition member_required : PnpmPackageLock :=
  mkPnpmPackageLock
    (Some [("a", "1.0.0")]) None None
    [("/a/1.0.0", snapshot "sha-a" (Some [("constructor", "1.0.0")]))]
    [].


(** A root that requires a staged package under the name
    [__proto__]. *)
Definition proto_required : PnpmPackageLock :=
  mkPnpmPackageLock
    (Some [("a", "1.0.0"); ("x", "1.0.0")]) None None
    [("/a/1.0.0", snapshot "sha-a" (Some [("__proto__", "/x/2.0.0")]));
     ("/x/1.0.0", snapshot "sha-x1" None);
     ("/x/2.0.0", snapshot "sha-x2" None)]
    [].

(** A packages map with a key that is the name of a member of
    [Object.prototype]; no parser accepts such a key. *)
Definition member_key : PnpmPackageLock :=
  mkPnpmPackageLock None None None
    [("constructor", snapshot "sha-c" None)]
    [].


(** Two snapshots, one marked [dev: true] and one [dev: false]. *)
Definition dev_flags : PnpmPackageLock :=
  mkPnpmPackageLock None None None
    [("/a/1.0.0", mkSnapshot None (mkResolution None) None (Some true));
     ("/b/1.0.0", mkSnapshot None (mkResolution None) None (Some false))]
    [].




Definition b_2_0_0 : PnpmPackageDesc :=
  mkDesc Version "/b/2.0.0" "b" "2.0.0" None.

(** A key of the version-control grammar. *)
Definition commit : string := "41da01727c87119bd523e69e22af2d04ab558ec9".

Definition github_uri : string := "github.com/LewisArdern/rules/" ++ commit.

(** The output of a conversion that succeeds. *)
Definition converted (fields : list DependenciesField)
    (lockfile : PnpmPackageLock) : NpmPackageLock :=
  match processLockfile fields lockfile with
  | Ok out => out
  | Throw _ => mkNpmPackageLock None 0 empty_root
  end.

(** A file system without the lockfile, and one that cannot read it. *)
Definition no_such_file (path : string) : result PnpmPackageLock :=
  Throw (JsError (Some "ENOENT")
           ("ENOENT: no such file or directory, open '" ++ path ++ "'")).

Definition unreadable_file (path : string) : result PnpmPackageLock :=
  Throw (JsError (Some "EACCES")
           ("EACCES: permission denied, open '" ++ path ++ "'")).

End Examples.

(* ================================================================== *)
(** * Invariants of the conversion *)

(** A lockfile from which snapshots have been deleted. *)
Definition sublock (lf lockfile : PnpmPackageLock) : Prop :=
  lf_specifiers lf = lf_specifiers lockfile /\
  (forall f, lockfile_field lf f = lockfile_field lockfile f) /\
  (forall k s, JsObject.get (lf_packages lf) k = Some s ->
               JsObject.get (lf_packages lockfile) k = Some s).

(** What holds of the state of Phase 1 all along. *)
Record phase1_state (lockfile : PnpmPackageLock)
    (l : list (string * string))
    (st : RootMap * PnpmPackageLock) : Prop := {
  p1_sublock : sublock (snd st) lockfile;
  p1_keys : NoDup (JsObject.keys (fst st));
  p1_no_resolved : Forall (fun e => no_resolved (snd e)) (fst st);
  p1_consumed :
    forall k, In k (JsObject.keys (lf_packages lockfile)) ->
              ~ In k (JsObject.keys (lf_packages (snd st))) ->
              exists name version d,
                In (name, version) l /\
                getDependencyPackageDesc name version = Ok d /\
                pd_fullName d = k
}.

(** What holds of the two maps of Phase 2 all along. *)
Definition phase2_state
    (st : RootMap * NpmLockedPackageDependencyMap)
  : Prop :=
  NoDup (JsObject.keys (fst st)) /\
  Forall (fun e => no_resolved (snd e)) (fst st) /\
  Forall (fun e => no_resolved (snd e)) (snd st).

(** The keys of a literal object are distinct. *)
Ltac distinct_keys :=
  repeat constructor; simpl;
  intros H; repeat (destruct H as [H | H]; [discriminate H|]); exact H.

(* ================================================================== *)
(** * More vocabulary *)

(** The keys that the path pattern accepts: a slash-free first segment, a
    name, plain or scoped, and a last segment without line
    terminators. *)
Inductive path_form : string -> Prop :=
| path_plain (registry name segment : string) :
    Str.none Str.is_slash registry = true ->
    Str.nonempty name = true -> Str.none Str.is_slash name = true ->
    Str.none Str.is_line_terminator segment = true ->
    path_form (registry ++ "/" ++ name ++ "/" ++ segment)
| path_scoped (registry scope pkg segment : string) :
    Str.none Str.is_slash registry = true ->
    Str.nonempty scope = true -> Str.none Str.is_slash scope = true ->
    Str.nonempty pkg = true -> Str.none Str.is_slash pkg = true ->
    Str.none Str.is_line_terminator segment = true ->
    path_form (registry ++ "/" ++ ("@" ++ scope ++ "/" ++ pkg) ++ "/" ++ segment).

(** The last segment of a key, from the version and the extra of its
    descriptor. *)
Definition join_version (version : string) (extra : option string) : string :=
  version ++ match extra with
             | Some e => "_" ++ e
             | None => ""
             end.

(** The number of characters of [s] that satisfy [p]. *)
Fixpoint count_chars (p : ascii -> bool) (s : string) : nat :=
  match s with
  | EmptyString => O
  | String c s' => ((if p c then 1 else 0) + count_chars p s')%nat
  end.

(** [pkg] is what the resolver returns for the descriptor of a key of
    the lockfile's snapshots, the descriptor that the path parser gives
    for that key; [name] is the name of that descriptor. *)
Definition resolved_from (lockfile : PnpmPackageLock) (name : string)
    (pkg : NpmLockedPackageDependency) : Prop :=
  exists key d,
    In key (JsObject.keys (lf_packages lockfile)) /\
    getPathPackageDesc key = Ok d /\
    pd_name d = name /\
    getPackage lockfile d false = Ok (pkg, lockfile).

(** The descriptor of an entry of a bucket or of a 'requires'. *)
Definition parses (entry : string * string) (d : PnpmPackageDesc) : Prop :=
  getDependencyPackageDesc (fst entry) (snd entry) = Ok d.

(** The version of the root [name], when there is one: the string that
    [deps[name].version] denotes. *)
Definition root_version (deps : RootMap) (name : string) : option string :=
  match read_root deps name with
  | Some dep => version_of dep
  | None => None
  end.


(** A 'requires' entry that Phase 3 can settle: it parses, and its
    package is staged or is the root of that name at that version. *)
Definition settled (deps : RootMap) (subdeps : NpmLockedPackageDependencyMap)
    (name version : string) : Prop :=
  exists d,
    getDependencyPackageDesc name version = Ok d /\
    (JsObject.has subdeps (pd_fullName d) = true \/
     root_version deps name = Some (pd_version d)).

(** Every entry of the 'requires' of every root of [l] is settled. *)
Definition requires_settled (deps : RootMap)
    (subdeps : NpmLockedPackageDependencyMap)
    (l : list (string * NpmLockedPackageDependency)) : Prop :=
  forall key val requires name version,
    In (key, val) l -> dep_requires val = Some requires ->
    In (name, version) (JsObject.entries requires) ->
    settled deps subdeps name version.

(* ================================================================== *)
(** * The action *)

(** The entry point of the GitHub action, [runAction], and the checks of
    its inputs.  It validates the token and the arguments, authenticates,
    converts the lockfile, writes the package lock and runs the scanner;
    what it does to the world is recorded as a trace of events. *)
Module Action.

(** ** Searching in strings *)

(** [s.indexOf(needle)]: the position of the first occurrence, or
    [-1]. *)
Fixpoint indexOf_from (needle s : string) (i : Z) : Z :=
  if Str.startsWith s needle then i
  else match s with
       | EmptyString => (-1)%Z
       | String _ s' => indexOf_from needle s' (i + 1)%Z
       end.

Definition indexOf (s needle : string) : Z := indexOf_from needle s 0.

(** [s.replace(pattern, "")] for a string pattern: the first occurrence
    of the pattern is removed. *)
Fixpoint remove_first (pattern s : string) : string :=
  match Str.strip pattern s with
  | Some rest => rest
  | None => match s with
            | EmptyString => EmptyString
            | String c s' => String c (remove_first pattern s')
            end
  end.

(** ** The checks of the inputs *)

Definition in_range (lo hi : nat) (c : ascii) : bool :=
  let n := nat_of_ascii c in (lo <=? n)%nat && (n <=? hi)%nat.

(** The class of [/[^a-f0-9-]/], not negated. *)
Definition token_char (c : ascii) : bool :=
  in_range 97 102 c || in_range 48 57 c || Ascii.eqb c "-".

(** The class of the pattern of [checkSnykArgs], not negated: letters,
    digits, the underscore, the equals sign, the dot, the double quote
    (character 34), the slash and the hyphen. *)
Definition args_char (c : ascii) : bool :=
  in_range 97 122 c || in_range 65 90 c || in_range 48 57 c
  || Ascii.eqb c "_" || Ascii.eqb c "=" || Ascii.eqb c "."
  || Ascii.eqb c "034" || Ascii.eqb c "/" || Ascii.eqb c "-".

(** [regex.exec(stringItem)] for a pattern that is one negated class:
    the first character outside the class. *)
Fixpoint exec_outside (class : ascii -> bool) (stringItem : string)
  : option ascii :=
  match stringItem with
  | EmptyString => None
  | String c s' => if class c then exec_outside class s' else Some c
  end.

Definition isStringAgainstRegexOK (stringItem : string)
    (class : ascii -> bool) : bool :=
  match exec_outside class stringItem with
  | Some _ => false
  | None => true
  end.

Definition checkSnykToken (snykToken : string) : result unit :=
  if negb (isStringAgainstRegexOK snykToken token_char)
  then throwError "Unauthorized characters in snyk token"
  else Ok tt.

Definition checkSnykArgs (snykArgs : string) : result unit :=
  if negb (isStringAgainstRegexOK snykArgs args_char)
  then throwError "Unauthorized characters in snyk args"
  else Ok tt.

(** ** Inputs, events and the world *)

(** What [core.getInput(name)] returns, when it returns, for the names
    that the action reads. *)
Record Inputs : Type := mkInputs {
  in_breakBuild : string;
  in_snykToken : string;
  in_snykOrganization : string;
  in_pnpmLockfilePath : string;
  in_debugMode : string;
  in_showDepsInfo : string;
  in_snykArguments : string;
  in_fullScan : string
}.

(** Whether the fields of [github.context.payload] that the action tests
    are truthy, when the payload can be read. *)
Record Payload : Type := mkPayload {
  pl_commits : bool;
  pl_head_commit : bool;
  pl_pull_request : bool
}.

(** A thrown value with, for the error of a child process, its
    [stdout]. *)
Record Thrown : Type := mkThrown {
  thrown_error : Exn;
  thrown_stdout : option string
}.

Inductive Event : Type :=
| Exec (command : string) (cwd : option string)
| ReadLockfile (path : string)
| WriteFile (filename json : string)
| ReadFile (path : string)
| GetDelta (input : string)
| Log (text : string)
| LogError (err : Thrown)
| SetFailed (message : string)
| SetFailedError (err : Thrown)
| SetExitCode (code : Z)
| Exit (code : Z).

(** How a computation ends: it returns, it throws, or the process
    exits. *)
Inductive Outcome (W A : Type) : Type :=
| Returned (a : A) (w : W) (trace : list Event)
| Threw (err : Thrown) (w : W) (trace : list Event)
| Exited (code : Z) (w : W) (trace : list Event).

Arguments Returned {W A} a w trace.
Arguments Threw {W A} err w trace.
Arguments Exited {W A} code w trace.

Definition trace_of {W A : Type} (o : Outcome W A) : list Event :=
  match o with
  | Returned _ _ t | Threw _ _ t | Exited _ _ t => t
  end.

(** What the action calls outside itself, as functions of the state of
    the world: child processes, the file system, the serializer and the
    delta of the scanner.  The toolkit of the action is reached through
    the default imports [core_1.default] and [github_1.default]; what a
    use of them throws, if it throws, is given by [getInput_throws] (for
    [core.getInput(name)]), [setFailed_throws] (for [core.setFailed])
    and [payload_throws] (for [github.context.payload]). *)
Record Environment (W : Type) : Type := mkEnvironment {
  execSync : W -> string -> option string -> W * (string + Thrown);
  readYamlFile : W -> string -> result PnpmPackageLock;
  JSON_stringify : NpmPackageLock -> string;
  writeFileAtomic : W -> string -> string -> W * option Thrown;
  readFileSync : W -> string -> string + Thrown;
  getDelta : W -> string -> W * (Z + Thrown);
  getInput_throws : W -> string -> option Thrown;
  setFailed_throws : W -> option Thrown;
  payload_throws : W -> option Thrown
}.

Arguments getInput_throws {W} _ _ _.
Arguments setFailed_throws {W} _ _.
Arguments payload_throws {W} _ _.
Arguments execSync {W} _ _ _ _.
Arguments readYamlFile {W} _ _ _.
Arguments JSON_stringify {W} _ _.
Arguments writeFileAtomic {W} _ _ _ _.
Arguments readFileSync {W} _ _ _.
Arguments getDelta {W} _ _ _.

Section Run.

Context {W : Type}.
Variable env : Environment W.
Variable DEPENDENCIES_FIELDS : list DependenciesField.

Definition M (A : Type) : Type := W -> list Event -> Outcome W A.

Definition ret {A : Type} (a : A) : M A := fun w t => Returned a w t.

Definition bindM {A B : Type} (m : M A) (k : A -> M B) : M B :=
  fun w t =>
    match m w t with
    | Returned a w' t' => k a w' t'
    | Threw err w' t' => Threw err w' t'
    | Exited code w' t' => Exited code w' t'
    end.

Definition emit (e : Event) : M unit :=
  fun w t => Returned tt w (t ++ [e])%list.

Definition throw {A : Type} (err : Thrown) : M A :=
  fun w t => Threw err w t.

(** [try { m } catch (err) { handler }] *)
Definition try_catch {A : Type} (m : M A) (handler : Thrown -> M A) : M A :=
  fun w t =>
    match m w t with
    | Threw err w' t' => handler err w' t'
    | o => o
    end.

(** A call that returns or throws without touching the world. *)
Definition lift {A : Type} (r : result A) : M A :=
  match r with
  | Ok a => ret a
  | Throw e => throw (mkThrown e None)
  end.

Definition log (text : string) : M unit := emit (Log text).

(** [process.exit(code)] *)
Definition exit {A : Type} (code : Z) : M A :=
  fun w t => Exited code w (t ++ [Exit code])%list.

(** [execSync(command, { cwd })], and its output as a string. *)
Definition exec (command : string) (cwd : option string) : M string :=
  fun w t =>
    match execSync env w command cwd with
    | (w', inl out) => Returned out w' (t ++ [Exec command cwd])%list
    | (w', inr err) => Threw err w' (t ++ [Exec command cwd])%list
    end.

(** [fs.readFileSync(path).toString()] *)
Definition readFile (path : string) : M string :=
  fun w t =>
    match readFileSync env w path with
    | inl content => Returned content w (t ++ [ReadFile path])%list
    | inr err => Threw err w (t ++ [ReadFile path])%list
    end.

(** [await getDelta(input)] *)
Definition delta (input : string) : M Z :=
  fun w t =>
    match getDelta env w input with
    | (w', inl result) => Returned result w' (t ++ [GetDelta input])%list
    | (w', inr err) => Threw err w' (t ++ [GetDelta input])%list
    end.

(** [await processPnpmLockfile(lockfilePath)] *)
Definition convert (lockfilePath : string) : M NpmPackageLock :=
  fun w t =>
    match processPnpmLockfile DEPENDENCIES_FIELDS (readYamlFile env w)
            lockfilePath with
    | Ok packageLock =>
        Returned packageLock w (t ++ [ReadLockfile lockfilePath])%list
    | Throw e =>
        Threw (mkThrown e None) w (t ++ [ReadLockfile lockfilePath])%list
    end.

(** [writeNpmPackageLock] of [writeNpmPackageLock.ts]; a failure of the
    write rejects the promise that the caller awaits. *)
Definition writeNpmPackageLock (packageLock : NpmPackageLock)
    (filename : string) : M unit :=
  fun w t =>
    let json := JSON_stringify env packageLock in
    match writeFileAtomic env w filename json with
    | (w', None) => Returned tt w' (t ++ [WriteFile filename json])%list
    | (w', Some err) => Threw err w' (t ++ [WriteFile filename json])%list
    end.

(** [core.getInput(name)], which returns [value] when it returns. *)
Definition getInput (name value : string) : M string :=
  fun w t =>
    match getInput_throws env w name with
    | Some err => Threw err w t
    | None => Returned value w t
    end.

(** [github.context.payload] *)
Definition context_payload (payload : Payload) : M Payload :=
  fun w t =>
    match payload_throws env w with
    | Some err => Threw err w t
    | None => Returned payload w t
    end.

(** [core.setFailed(...)], recorded as the event [e]. *)
Definition setFailed (e : Event) : M unit :=
  fun w t =>
    match setFailed_throws env w with
    | Some err => Threw err w t
    | None => Returned tt w (t ++ [e])%list
    end.

(** [console.log(err.stdout.toString())] *)
Definition log_stdout (err : Thrown) : M unit :=
  match thrown_stdout err with
  | Some out => log out
  | None => throw (mkThrown (JsTypeError "toString") None)
  end.

Declare Scope action_scope.
Local Notation "x <- m ;; k" := (bindM m (fun x => k))
  (at level 61, m at next level, right associativity) : action_scope.
Local Notation "m ;;; k" := (bindM m (fun _ => k))
  (at level 61, right associativity) : action_scope.
Local Open Scope action_scope.

Definition rule : string := "================================".

(** The [catch] of the two full scans. *)
Definition scan_failed (breakBuild : bool) (err : Thrown) : M unit :=
  log_stdout err ;;;
  if negb breakBuild then exit 0 else exit 1.

(** The first input is read before the [try]: an error of that read
    escapes [runAction]. *)
Definition runAction (inputs : Inputs) (payload : Payload) : M unit :=
  breakBuild <- getInput "breakBuild" (in_breakBuild inputs) ;;
  let breakBuild := String.eqb breakBuild "true" in
  try_catch
    (snykToken <- getInput "snykToken" (in_snykToken inputs) ;;
     snykOrganization <-
       getInput "snykOrganization" (in_snykOrganization inputs) ;;
     pnpmLockfilePath <-
       getInput "pnpmLockfilePath" (in_pnpmLockfilePath inputs) ;;
     path <- (if String.eqb pnpmLockfilePath "." then ret "/"
              else getInput "pnpmLockfilePath" (in_pnpmLockfilePath inputs)) ;;
     debugMode <- getInput "debugMode" (in_debugMode inputs) ;;
     let debug := String.eqb debugMode "true" in
     showDepsInfo <- getInput "showDepsInfo" (in_showDepsInfo inputs) ;;
     let showDeps := String.eqb showDepsInfo "true" in
     snykArguments <- getInput "snykArguments" (in_snykArguments inputs) ;;
     fullScanInput <- getInput "fullScan" (in_fullScan inputs) ;;
     let fullScan := String.eqb fullScanInput "true" in
     payload <- context_payload payload ;;
     let snykArgs := snykArguments in
     lift (checkSnykToken snykToken) ;;;
     (if negb (String.eqb snykArgs "") then lift (checkSnykArgs snykArgs)
      else ret tt) ;;;
     snykAuth <- exec ("npx snyk auth " ++ snykToken) None ;;
     packageLock <- convert (path ++ "pnpm-lock.yaml") ;;
     writeNpmPackageLock packageLock (path ++ "package-lock.json") ;;;
     let snykArgs := "--org=" ++ snykOrganization ++ " " ++ snykArgs in
     if pl_commits payload && pl_head_commit payload then
       (* On push, monitor *)
       let cmd := "npx snyk monitor " ++ snykArgs in
       snykTest <- exec cmd (Some path) ;;
       log snykTest
     else if pl_pull_request payload then
       let snykShowDepsArg := if showDeps then "" else "--print-deps" in
       let snykArgs :=
         if (indexOf snykArgs "--json" <? 0)%Z && negb fullScan
         then "--json " ++ snykArgs else snykArgs in
       let snykArgs :=
         if (indexOf snykArgs "--print-deps" <? 0)%Z && showDeps
         then snykShowDepsArg ++ " " ++ snykArgs else snykArgs in
       (if negb breakBuild then
          log rule ;;;
          log "         NON BLOCKING MODE      " ;;;
          log rule
        else ret tt) ;;;
       if fullScan then
         let cmd := if breakBuild then "npx snyk test " ++ snykArgs
                    else "npx snyk test " ++ snykArgs ++ " || true" in
         try_catch
           (snykTest <- exec cmd (Some path) ;;
            log snykTest)
           (scan_failed breakBuild)
       else
         snykTest <- exec ("npx snyk test " ++ snykArgs ++ " > out || true")
                       (Some path) ;;
         (if debug then
            log rule ;;;
            log "              DEBUG             " ;;;
            log rule ;;;
            log "Converted lock file" ;;;
            converted <- readFile (path ++ "package-lock.json") ;;
            log converted ;;;
            log rule ;;;
            log "DEBUG - Snyk CLI commands" ;;;
            log "DEBUG - Snyk auth" ;;;
            log snykAuth ;;;
            log "DEBUG - Snyk test" ;;;
            log snykTest ;;;
            log rule ;;;
            log "          END OF DEBUG          " ;;;
            log rule
          else ret tt) ;;;
         out <- readFile (path ++ "out") ;;
         result <- delta out ;;
         if (result =? 1)%Z then
           if negb breakBuild then exit 0
           else setFailed (SetFailed "New issue(s) introduced !") ;;; exit 1
         else if (result =? 2)%Z then
           log "Error during delta computation - defaulting to full scan" ;;;
           (* Resets exit code *)
           emit (SetExitCode 0) ;;;
           let snykArgsNormal := remove_first "--json " snykArgs in
           let snykArgsNormal :=
             if negb breakBuild then snykArgsNormal ++ " || true"
             else snykArgsNormal in
           try_catch
             (snykTest <- exec ("npx snyk test " ++ snykArgsNormal)
                            (Some path) ;;
              log snykTest)
             (scan_failed breakBuild)
         else ret tt
     else
       log "Unexpected event type - works on PRs and Push events")
    (fun err =>
       log "Failed Check !" ;;;
       if breakBuild then setFailed (SetFailedError err)
       else emit (LogError err)).

End Run.

(** [m] adds to a trace only events that satisfy [Q]. *)
Definition keeps {W : Type} (Q : Event -> Prop) {A : Type} (m : @M W A)
  : Prop :=
  forall w t, Forall Q t -> Forall Q (trace_of (m w t)).

(** The directory of the lockfile, [path] in [runAction]. *)
Definition working_directory (inputs : Inputs) : string :=
  if String.eqb (in_pnpmLockfilePath inputs) "." then "/"
  else in_pnpmLockfilePath inputs.

(** The arguments that every scan is given. *)
Definition organization_arguments (inputs : Inputs) : string :=
  "--org=" ++ in_snykOrganization inputs ++ " " ++ in_snykArguments inputs.

(** An event that does not fail the build: no [setFailed] and no exit
    with another code than 0. *)
Definition harmless (e : Event) : Prop :=
  match e with
  | SetFailed _ | SetFailedError _ => False
  | Exit code => code = 0%Z
  | _ => True
  end.

(** A command that [runAction] may run for these inputs and this
    payload: the token and the arguments have passed their checks; the
    command is the authentication, or it runs in the directory of the
    lockfile and is the monitoring of a push or a test of a pull
    request. *)
Definition command_ok (inputs : Inputs) (payload : Payload) (e : Event)
  : Prop :=
  match e with
  | Exec command cwd =>
      checkSnykToken (in_snykToken inputs) = Ok tt /\
      (in_snykArguments inputs = "" \/
       checkSnykArgs (in_snykArguments inputs) = Ok tt) /\
      ((command = "npx snyk auth " ++ in_snykToken inputs /\ cwd = None) \/
       (cwd = Some (working_directory inputs) /\
        if pl_commits payload && pl_head_commit payload
        then command = "npx snyk monitor " ++ organization_arguments inputs
        else pl_pull_request payload = true /\
             Str.startsWith command "npx snyk test " = true))
  | _ => True
  end.

(** A file that [runAction] may touch by a call of its own
    ([readYamlFile], [writeFileAtomic], [readFileSync]): the lockfile
    and the package lock beside it, which holds the serialized output
    of a conversion of that lockfile, and the file [out] to which the
    command of the delta scan redirects the output of the scanner.  What
    the commands themselves read and write is not an event. *)
Definition file_ok {W : Type} (env : Environment W)
    (fields : list DependenciesField) (inputs : Inputs) (e : Event) : Prop :=
  let dir := working_directory inputs in
  match e with
  | ReadLockfile path => path = dir ++ "pnpm-lock.yaml"
  | WriteFile filename json =>
      filename = dir ++ "package-lock.json" /\
      exists w packageLock,
        processPnpmLockfile fields (readYamlFile env w)
          (dir ++ "pnpm-lock.yaml") = Ok packageLock /\
        json = JSON_stringify env packageLock
  | ReadFile path => path = dir ++ "package-lock.json" \/ path = dir ++ "out"
  | _ => True
  end.

(** In the world [w] the inputs and the payload can be read. *)
Definition readable {W : Type} (env : Environment W) (w : W) : Prop :=
  (forall name, getInput_throws env w name = None) /\
  payload_throws env w = None.

(** An event that reaches nothing outside the process: no command, no
    file, no delta. *)
Definition inert (e : Event) : Prop :=
  match e with
  | Exec _ _ | ReadLockfile _ | WriteFile _ _ | ReadFile _ | GetDelta _ =>
      False
  | _ => True
  end.

(** What the [catch] of [runAction] adds to the trace for the error
    [err], when [setFailed] returns. *)
Definition failure_report (inputs : Inputs) (err : Thrown) : list Event :=
  [Log "Failed Check !";
   if String.eqb (in_breakBuild inputs) "true" then SetFailedError err
   else LogError err].

(** The trace of a run that authenticates, tries to read the lockfile
    and reports the error [e]. *)
Definition stopped_at_lockfile (inputs : Inputs) (e : Exn) : list Event :=
  ([Exec ("npx snyk auth " ++ in_snykToken inputs) None;
    ReadLockfile (working_directory inputs ++ "pnpm-lock.yaml")]
   ++ failure_report inputs (mkThrown e None))%list.

(** In the world [w], [setFailed] returns if the [catch] of [runAction]
    calls it. *)
Definition can_fail_build {W : Type} (env : Environment W)
    (inputs : Inputs) (w : W) : Prop :=
  in_breakBuild inputs = "true" -> setFailed_throws env w = None.

End Action.

(** The characters with which a shell separates, chains, redirects,
    groups, quotes, escapes or substitutes: blank, tab, line feed,
    carriage return and [; & | $ ` < > ( ) { } \ ' * ? ! # ~]. *)
Definition shell_special (c : ascii) : bool :=
  existsb (Ascii.eqb c)
    [" "; "009"; "010"; "013"; ";"; "&"; "|"; "$"; "`"; "<"; ">"; "("; ")";
     "{"; "}"; "\"; "'"; "*"; "?"; "!"; "#"; "~"]%char.

(** Worlds for the examples: the world is the list of the files written;
    every command succeeds, the lockfile is [Examples.nested] or is
    missing, and the serializer only lists the names of the roots. *)
Module ActionExamples.
Import Action.

Definition files : Type := list (string * string).

Definition serialize (packageLock : NpmPackageLock) : string :=
  String.concat "," (JsObject.keys (npl_dependencies packageLock)).

Definition world (read : string -> result PnpmPackageLock)
  : Environment files :=
  mkEnvironment files
    (fun w command cwd => (w, inl ("ran " ++ command)))
    (fun w path => read path)
    serialize
    (fun w filename json => ((filename, json) :: w, None))
    (fun w path => inl "")
    (fun w input => (w, inl 0%Z))
    (fun w name => None)
    (fun w => None)
    (fun w => None).

Definition with_lockfile : Environment files :=
  world (fun path => if String.eqb path "/pnpm-lock.yaml"
                     then Ok Examples.nested
                     else Examples.no_such_file path).

Definition without_lockfile : Environment files :=
  world Examples.no_such_file.

(** A world in which the default import of the toolkit is [undefined]:
    every use of it raises a [TypeError]. *)
Definition no_default : Thrown := mkThrown (JsTypeError "getInput") None.

Definition without_toolkit : Environment files :=
  mkEnvironment files
    (fun w command cwd => (w, inl ("ran " ++ command)))
    (fun w path => Examples.no_such_file path)
    serialize
    (fun w filename json => ((filename, json) :: w, None))
    (fun w path => inl "")
    (fun w input => (w, inl 0%Z))
    (fun w name => Some no_default)
    (fun w => Some (mkThrown (JsTypeError "setFailed") None))
    (fun w => None).

(** Inputs with a token and no arguments, for the directory [.]. *)
Definition inputs (breakBuild snykToken : string) : Inputs :=
  mkInputs breakBuild snykToken "org" "." "false" "false" "" "false".

(** The payload of an event that is neither a push nor a pull request. *)
Definition other_event : Payload := mkPayload false false false.

End ActionExamples.

(* ================================================================== *)
(** * Facts about strings *)

Module StrFacts.
Import Str.

Lemma append_assoc (a b c : string) : (a ++ b) ++ c = a ++ (b ++ c).
Proof. induction a as [|x a IH]; simpl; [reflexivity | now rewrite IH]. Qed.

Lemma append_nil_r (a : string) : a ++ "" = a.
Proof. induction a as [|x a IH]; simpl; [reflexivity | now rewrite IH]. Qed.

Lemma length_append (a b : string) :
  String.length (a ++ b) = (String.length a + String.length b)%nat.
Proof. induction a as [|x a IH]; simpl; [reflexivity | now rewrite IH]. Qed.

Lemma all_append p (a b : string) : all p (a ++ b) = all p a && all p b.
Proof.
  induction a as [|x a IH]; simpl; [reflexivity|].
  now rewrite IH, andb_assoc.
Qed.

Lemma none_append p (a b : string) : none p (a ++ b) = none p a && none p b.
Proof. apply all_append. Qed.

(** ** Splitting at the first slash *)

Lemma split_slash_append (a b : string) :
  none is_slash a = true -> split_slash (a ++ "/" ++ b) = Some (a, b).
Proof.
  induction a as [|x a IH]; simpl; intros H; [reflexivity|].
  apply andb_true_iff in H as [Hx Ha].
  apply negb_true_iff in Hx. simpl in IH. rewrite Hx, (IH Ha). reflexivity.
Qed.

Lemma split_slash_Some (s a b : string) :
  split_slash s = Some (a, b) ->
  s = a ++ "/" ++ b /\ none is_slash a = true.
Proof.
  revert a b. induction s as [|x s IH]; simpl; intros a b H; [discriminate|].
  destruct (is_slash x) eqn:Hx.
  - inversion H; subst. unfold is_slash in Hx.
    apply Ascii.eqb_eq in Hx. subst x. split; reflexivity.
  - destruct (split_slash s) as [[a' b']|]; [|discriminate].
    inversion H; subst. destruct (IH a' b eq_refl) as [-> Hn].
    split; [reflexivity|]. unfold none in *. simpl. now rewrite Hx, Hn.
Qed.

Lemma split_slash_None (s : string) :
  split_slash s = None <-> none is_slash s = true.
Proof.
  induction s as [|x s IH]; simpl; [tauto|].
  unfold none in *. simpl. destruct (is_slash x); simpl.
  - split; discriminate.
  - destruct (split_slash s) as [[a b]|].
    + split; [discriminate|]. intros H. apply IH in H. discriminate.
    + split; [intros _; now apply IH | reflexivity].
Qed.

(** The decomposition at the first slash is unique. *)
Lemma first_slash_unique (a b a' b' : string) :
  none is_slash a = true -> none is_slash a' = true ->
  a ++ "/" ++ b = a' ++ "/" ++ b' -> a = a' /\ b = b'.
Proof.
  intros Ha Ha' E.
  pose proof (split_slash_append a b Ha) as H1.
  pose proof (split_slash_append a' b' Ha') as H2.
  rewrite E in H1. rewrite H1 in H2. now inversion H2.
Qed.

(** ** Prefixes *)

Lemma startsWith_append (p s : string) : startsWith (p ++ s) p = true.
Proof.
  induction p as [|x p IH]; simpl; [reflexivity|].
  now rewrite Ascii.eqb_refl, IH.
Qed.

Lemma startsWith_true (s p : string) :
  startsWith s p = true <-> exists r, s = p ++ r.
Proof.
  split.
  - revert s. induction p as [|x p IH]; intros s H; simpl in *.
    + now exists s.
    + destruct s as [|y s]; [discriminate|].
      apply andb_true_iff in H as [Hxy H].
      apply Ascii.eqb_eq in Hxy. subst y.
      destruct (IH s H) as [r ->]. now exists r.
  - intros [r ->]. apply startsWith_append.
Qed.

Lemma strip_Some (p s r : string) : strip p s = Some r <-> s = p ++ r.
Proof.
  revert s. induction p as [|x p IH]; intros s; simpl.
  - split; [intros H; now inversion H | now intros ->].
  - destruct s as [|y s].
    + split; discriminate.
    + destruct (Ascii.eqb x y) eqn:Hxy.
      * apply Ascii.eqb_eq in Hxy. subst y. rewrite IH.
        split; [now intros -> | intros H; now inversion H].
      * apply Ascii.eqb_neq in Hxy.
        split; [discriminate | intros H; inversion H; subst; contradiction].
Qed.

(** ** The first underscore *)

Lemma indexOf_from_absent c (s : string) (i : Z) :
  none (fun a => Ascii.eqb a c) s = true -> indexOf_from c s i = (-1)%Z.
Proof.
  revert i. induction s as [|x s IH]; simpl; intros i H; [reflexivity|].
  apply andb_true_iff in H as [Hx Hs]. apply negb_true_iff in Hx.
  rewrite Hx. now apply IH.
Qed.

Lemma indexOf_from_first c (pre post : string) (i : Z) :
  none (fun a => Ascii.eqb a c) pre = true ->
  indexOf_from c (pre ++ String c post) i
  = (i + Z.of_nat (String.length pre))%Z.
Proof.
  revert i. induction pre as [|x pre IH]; simpl; intros i H.
  - rewrite Ascii.eqb_refl. lia.
  - apply andb_true_iff in H as [Hx Hs]. apply negb_true_iff in Hx.
    rewrite Hx, (IH _ Hs). lia.
Qed.

Lemma indexOf_absent (s : string) :
  none is_underscore s = true -> indexOf s "_" = (-1)%Z.
Proof. apply indexOf_from_absent. Qed.

Lemma indexOf_first (pre post : string) :
  none is_underscore pre = true ->
  indexOf (pre ++ "_" ++ post) "_" = Z.of_nat (String.length pre).
Proof. intros H. exact (indexOf_from_first "_" pre post 0 H). Qed.

Lemma take_length_append (a b : string) : take (String.length a) (a ++ b) = a.
Proof.
  induction a as [|x a IH]; simpl; [now destruct b | now rewrite IH].
Qed.

Lemma drop_length_append (a b : string) : drop (String.length a) (a ++ b) = b.
Proof. induction a as [|x a IH]; simpl; [reflexivity | exact IH]. Qed.

Lemma substr_prefix (pre post : string) :
  substr (pre ++ "_" ++ post) 0 (Z.of_nat (String.length pre)) = pre.
Proof.
  unfold substr. rewrite Nat2Z.id. simpl. apply take_length_append.
Qed.

Lemma substr_from_suffix (pre post : string) :
  substr_from (pre ++ "_" ++ post) (Z.of_nat (String.length pre) + 1) = post.
Proof.
  unfold substr_from.
  replace (Z.to_nat (Z.of_nat (String.length pre) + 1))
    with (String.length (pre ++ "_")).
  - rewrite <- append_assoc. apply drop_length_append.
  - rewrite length_append. simpl. lia.
Qed.

(** Every string has a first underscore or none. *)
Lemma first_underscore (s : string) :
  none is_underscore s = true \/
  exists pre post, s = pre ++ "_" ++ post /\ none is_underscore pre = true.
Proof.
  induction s as [|x s IH]; [now left|].
  destruct (is_underscore x) eqn:Hx.
  - right. exists "", s. unfold is_underscore in Hx.
    apply Ascii.eqb_eq in Hx. subst x. now split.
  - destruct IH as [H | (pre & post & -> & H)].
    + left. unfold none in *. simpl. now rewrite Hx, H.
    + right. exists (String x pre), post. split; [reflexivity|].
      unfold none in *. simpl. now rewrite Hx, H.
Qed.


End StrFacts.

(* ================================================================== *)
(** * The identifier parser *)

Module ParserFacts.
Import Str StrFacts Grammar.

Lemma exec_name_version_append (name segment : string) :
  nonempty name = true -> none is_slash name = true ->
  none is_line_terminator segment = true ->
  exec_name_version (name ++ "/" ++ segment) = Some (name, segment).
Proof.
  intros Hne Hns Hlt. unfold exec_name_version.
  rewrite (split_slash_append _ _ Hns), Hne, Hlt. reflexivity.
Qed.

Lemma exec_name_version_Some (r name segment : string) :
  exec_name_version r = Some (name, segment) ->
  r = name ++ "/" ++ segment /\ none is_slash name = true.
Proof.
  unfold exec_name_version. intros H.
  destruct (split_slash r) as [[n v]|] eqn:E; [|discriminate].
  destruct (nonempty n && none is_line_terminator v); [|discriminate].
  inversion H; subst. now apply split_slash_Some.
Qed.

Lemma exec_path_re_Some (fullName name segment : string) :
  exec_path_re fullName = Some (name, segment) ->
  exists registry,
    fullName = registry ++ "/" ++ name ++ "/" ++ segment /\
    none is_slash registry = true.
Proof.
  unfold exec_path_re. intros H.
  destruct (split_slash fullName) as [[registry r]|] eqn:E; [|discriminate].
  apply split_slash_Some in E as [-> Hreg].
  exists registry. split; [|exact Hreg]. f_equal. f_equal.
  destruct r as [|c r1].
  - now apply exec_name_version_Some in H as [H _].
  - destruct (Ascii.eqb c "@") eqn:Hc;
      [|now apply exec_name_version_Some in H as [H _]].
    apply Ascii.eqb_eq in Hc. subst c.
    destruct (split_slash r1) as [[scope r2]|] eqn:E1;
      [|now apply exec_name_version_Some in H as [H _]].
    destruct (nonempty scope);
      [|now apply exec_name_version_Some in H as [H _]].
    destruct (exec_name_version r2) as [[pkg v]|] eqn:E2;
      [|now apply exec_name_version_Some in H as [H _]].
    inversion H; subst.
    apply split_slash_Some in E1 as [-> _].
    apply exec_name_version_Some in E2 as [-> _].
    simpl. now rewrite !append_assoc.
Qed.

Lemma exec_path_re_package (registry name segment : string) :
  none is_slash registry = true -> package_name name ->
  none is_line_terminator segment = true ->
  exec_path_re (registry ++ "/" ++ name ++ "/" ++ segment)
  = Some (name, segment).
Proof.
  intros Hreg Hname Hlt. unfold exec_path_re.
  rewrite (split_slash_append _ _ Hreg).
  destruct Hname as [name Hne Hns Hat | scope pkg Hs1 Hs2 Hp1 Hp2].
  - destruct name as [|c name]; [discriminate|].
    change (startsWith (String c name) "@")
      with (Ascii.eqb "@" c && true) in Hat.
    rewrite andb_true_r, Ascii.eqb_sym in Hat.
    change (String c name ++ "/" ++ segment)
      with (String c (name ++ "/" ++ segment)) at 1.
    cbv iota beta. rewrite Hat.
    now apply exec_name_version_append.
  - change (("@" ++ scope ++ "/" ++ pkg) ++ "/" ++ segment)
      with (String "@" ((scope ++ "/" ++ pkg) ++ "/" ++ segment)) at 1.
    cbv iota beta. rewrite Ascii.eqb_refl.
    rewrite !append_assoc.
    rewrite (split_slash_append _ _ Hs2), Hs1.
    now rewrite (exec_name_version_append _ _ Hp1 Hp2 Hlt).
Qed.

(** The code's split of the version segment. *)
Lemma version_split (version : string) :
  let firstUnderscore := indexOf version "_" in
  let '(versionNumber, extra) :=
    if negb (firstUnderscore =? -1)%Z then
      (substr version 0 firstUnderscore,
       Some (substr_from version (firstUnderscore + 1)))
    else (version, None) in
  split_first_underscore version versionNumber extra.
Proof.
  destruct (first_underscore version) as [H | (pre & post & -> & H)]; cbv zeta.
  - rewrite (indexOf_absent _ H). simpl. left. auto.
  - rewrite (indexOf_first _ _ H).
    replace (Z.of_nat (String.length pre) =? -1)%Z with false
      by (symmetry; apply Z.eqb_neq; lia).
    cbv [negb]. rewrite substr_prefix, substr_from_suffix.
    right. exists pre, post. auto.
Qed.

Lemma getPathPackageDesc_groups (fullName name segment : string) :
  startsWith fullName "github.com/" = false ->
  exec_path_re fullName = Some (name, segment) ->
  exists d,
    getPathPackageDesc fullName = Ok d /\
    pd_fullName d = fullName /\ pd_name d = name /\
    pd_type d = (if startsWith fullName "/" then Version else Uri) /\
    split_first_underscore segment (pd_version d) (pd_extra d).
Proof.
  intros Hg He. unfold getPathPackageDesc. rewrite Hg, He.
  change (negb false) with true. cbv iota.
  pose proof (version_split segment) as Hs. cbv zeta in Hs.
  destruct (if negb (indexOf segment "_" =? -1)%Z
            then (substr segment 0 (indexOf segment "_"),
                  Some (substr_from segment (indexOf segment "_" + 1)))
            else (segment, None)) as [versionNumber extra].
  eexists. split; [reflexivity|]. simpl. auto.
Qed.

Lemma getPathPackageDesc_Ok_groups (fullName : string) (d : PnpmPackageDesc) :
  startsWith fullName "github.com/" = false ->
  getPathPackageDesc fullName = Ok d ->
  exists segment, exec_path_re fullName = Some (pd_name d, segment).
Proof.
  intros Hg H. unfold getPathPackageDesc in H. rewrite Hg in H.
  change (negb false) with true in H. cbv iota in H.
  destruct (exec_path_re fullName) as [[name segment]|]; [|discriminate].
  exists segment.
  destruct (if negb (indexOf segment "_" =? -1)%Z
            then (substr segment 0 (indexOf segment "_"),
                  Some (substr_from segment (indexOf segment "_" + 1)))
            else (segment, None)) as [versionNumber extra].
  inversion H; subst. reflexivity.
Qed.

Lemma startsWith_slash (registry rest : string) :
  none is_slash registry = true ->
  startsWith (registry ++ "/" ++ rest) "/" = negb (nonempty registry).
Proof.
  destruct registry as [|c registry]; [reflexivity|].
  intros H.
  change (none is_slash (String c registry))
    with (negb (is_slash c) && none is_slash registry) in H.
  apply andb_true_iff in H as [H _].
  apply negb_true_iff in H. unfold is_slash in H.
  change (startsWith (String c registry ++ "/" ++ rest) "/")
    with (Ascii.eqb "/" c && true).
  rewrite Ascii.eqb_sym, H. reflexivity.
Qed.

Lemma not_github_prefix (registry rest : string) :
  none is_slash registry = true -> registry <> "github.com" ->
  startsWith (registry ++ "/" ++ rest) "github.com/" = false.
Proof.
  intros Hreg Hne.
  destruct (startsWith (registry ++ "/" ++ rest) "github.com/") eqn:E;
    [|reflexivity].
  apply startsWith_true in E as [r E].
  change ("github.com/" ++ r) with ("github.com" ++ "/" ++ r) in E.
  apply first_slash_unique in E as [E _]; [contradiction | exact Hreg |].
  reflexivity.
Qed.

Lemma exec_github_re_key (uri owner repo commit : string) :
  github_key uri owner repo commit ->
  exec_github_re uri = Some (owner ++ "/" ++ repo, repo, commit).
Proof.
  intros (-> & Ho1 & Ho2 & Hr1 & Hr2 & Hlen & Hhex).
  unfold exec_github_re.
  change (strip "github" ("github.com/" ++ owner ++ "/" ++ repo ++ "/" ++ commit))
    with (Some (String "." ("com/" ++ owner ++ "/" ++ repo ++ "/" ++ commit))).
  cbv iota beta.
  change (is_line_terminator ".") with false. cbv iota.
  change (strip "com/" ("com/" ++ owner ++ "/" ++ repo ++ "/" ++ commit))
    with (Some (owner ++ "/" ++ repo ++ "/" ++ commit)).
  cbv iota beta.
  rewrite (split_slash_append _ _ Ho2), (split_slash_append _ _ Hr2).
  rewrite Ho1, Hr1, Hhex, Hlen. reflexivity.
Qed.

Lemma exec_github_re_Some (uri g1 g2 g3 : string) :
  exec_github_re uri = Some (g1, g2, g3) ->
  startsWith uri "github.com/" = true ->
  exists owner, g1 = owner ++ "/" ++ g2 /\ github_key uri owner g2 g3.
Proof.
  unfold exec_github_re. intros H Hp.
  apply startsWith_true in Hp as [r ->].
  change (strip "github" ("github.com/" ++ r))
    with (Some (String "." ("com/" ++ r))) in H.
  cbv iota beta in H.
  change (is_line_terminator ".") with false in H. cbv iota in H.
  change (strip "com/" ("com/" ++ r)) with (Some r) in H.
  cbv iota beta in H.
  destruct (split_slash r) as [[owner r2]|] eqn:E1; [|discriminate].
  destruct (split_slash r2) as [[repo commit]|] eqn:E2; [|discriminate].
  destruct (nonempty owner) eqn:Ho; [|discriminate].
  destruct (nonempty repo) eqn:Hr; [|discriminate].
  destruct (String.length commit =? 40)%nat eqn:Hlen; [|discriminate].
  destruct (all is_hex commit) eqn:Hhex; [|discriminate].
  inversion H; subst.
  apply split_slash_Some in E1 as [-> Ho2].
  apply split_slash_Some in E2 as [-> Hr2].
  apply Nat.eqb_eq in Hlen.
  exists owner. split; [reflexivity|]. repeat split; assumption.
Qed.

(** C5.  For a key that is not host-prefixed and that the path grammar
    accepts, the descriptor has kind [Version] when the key starts with
    a slash and kind [Uri] when its first segment is not empty, and the
    segment after the name is split on its first underscore into the
    version and, when there is an underscore, the extra.  A key made of
    a first segment, the name of a package and a last segment is
    accepted, and its name is the whole name of the package: a scoped
    name [@scope/pkg] is not split at its slash. *)
Theorem getPathPackageDesc_path_form :
  (forall (fullName : string) (d : PnpmPackageDesc),
      startsWith fullName "github.com/" = false ->
      getPathPackageDesc fullName = Ok d ->
      exists registry segment,
        fullName = registry ++ "/" ++ pd_name d ++ "/" ++ segment /\
        none is_slash registry = true /\
        pd_fullName d = fullName /\
        (startsWith fullName "/" = true -> pd_type d = Version) /\
        (nonempty registry = true -> pd_type d = Uri) /\
        split_first_underscore segment (pd_version d) (pd_extra d))
  /\
  (forall registry name segment : string,
      none is_slash registry = true -> registry <> "github.com" ->
      package_name name ->
      none is_line_terminator segment = true ->
      exists d,
        getPathPackageDesc (registry ++ "/" ++ name ++ "/" ++ segment) = Ok d /\
        pd_name d = name /\
        pd_type d = (if nonempty registry then Uri else Version) /\
        split_first_underscore segment (pd_version d) (pd_extra d)).
Proof.
  split.
  - intros fullName d Hg Hd.
    destruct (getPathPackageDesc_Ok_groups _ _ Hg Hd) as [segment He].
    destruct (exec_path_re_Some _ _ _ He) as (registry & E & Hreg).
    destruct (getPathPackageDesc_groups _ _ _ Hg He)
      as (d' & Hd' & Hfull & _ & Htype & Hsplit).
    rewrite Hd in Hd'. inversion Hd'; subst d'; clear Hd'.
    exists registry, segment. repeat split; try assumption.
    + intros Hs. now rewrite Htype, Hs.
    + intros Hne. rewrite Htype. rewrite E at 1.
      rewrite (startsWith_slash _ _ Hreg), Hne. reflexivity.
  - intros registry name segment Hreg Hng Hname Hlt.
    pose proof (not_github_prefix registry (name ++ "/" ++ segment) Hreg Hng)
      as Hg.
    pose proof (exec_path_re_package _ _ _ Hreg Hname Hlt) as He.
    destruct (getPathPackageDesc_groups _ _ _ Hg He)
      as (d & Hd & _ & Hn & Htype & Hsplit).
    exists d. repeat split; try assumption.
    rewrite Htype, (startsWith_slash _ _ Hreg).
    now destruct (nonempty registry).
Qed.

(** C7.  A key of the version-control grammar, that is the host prefix
    followed by an owner, a repository and a commit of 40 characters
    among [0-9a-f], parses to a descriptor of kind [Github] whose
    version is [github:owner/repo#commit] and whose name is the
    repository.  A key that starts with the host prefix and is not of
    that shape is refused with an error that quotes the key. *)
Theorem getGithubPackageDesc_grammar :
  (forall uri owner repo commit : string,
      github_key uri owner repo commit ->
      let d := {| pd_type := Github;
                  pd_fullName := uri;
                  pd_name := repo;
                  pd_version := "github:" ++ owner ++ "/" ++ repo
                                ++ "#" ++ commit;
                  pd_extra := None |} in
      getGithubPackageDesc uri = Ok d /\ getPathPackageDesc uri = Ok d)
  /\
  (forall uri : string,
      startsWith uri "github.com/" = true ->
      (forall owner repo commit, ~ github_key uri owner repo commit) ->
      getGithubPackageDesc uri
      = throwError ("Error parsing github URI " ++ uri) /\
      getPathPackageDesc uri
      = throwError ("Error parsing github URI " ++ uri)).
Proof.
  split.
  - intros uri owner repo commit Hkey d.
    assert (Hg : getGithubPackageDesc uri = Ok d).
    { unfold getGithubPackageDesc. rewrite (exec_github_re_key _ _ _ _ Hkey).
      unfold d. now rewrite append_assoc. }
    split; [exact Hg|].
    unfold getPathPackageDesc.
    destruct Hkey as (-> & _). rewrite startsWith_append. exact Hg.
  - intros uri Hp Hno.
    assert (Hg : getGithubPackageDesc uri
                 = throwError ("Error parsing github URI " ++ uri)).
    { unfold getGithubPackageDesc.
      destruct (exec_github_re uri) as [[[g1 g2] g3]|] eqn:E; [|reflexivity].
      destruct (exec_github_re_Some _ _ _ _ E Hp) as (owner & _ & Hkey).
      now destruct (Hno owner g2 g3). }
    split; [exact Hg|].
    unfold getPathPackageDesc. rewrite Hp. exact Hg.
Qed.

End ParserFacts.

(* ================================================================== *)
(** * Facts about objects *)

Module ObjFacts.
Import JsObject.

Section Facts.
Context {V : Type}.
Implicit Types (o : t V) (k : string) (v : V).

Lemma get_In o k v : get o k = Some v -> In (k, v) o.
Proof.
  induction o as [|[k' v'] o IH]; simpl; [discriminate|].
  destruct (String.eqb k k') eqn:E.
  - apply String.eqb_eq in E. subst k'. intros H. inversion H. now left.
  - intros H. right. now apply IH.
Qed.

Lemma get_None o k : get o k = None <-> ~ In k (keys o).
Proof.
  induction o as [|[k' v'] o IH]; simpl; [tauto|].
  destruct (String.eqb k k') eqn:E.
  - apply String.eqb_eq in E. subst k'. split; [discriminate | tauto].
  - apply String.eqb_neq in E. rewrite IH. split.
    + intros H [H1 | H1]; [now subst | contradiction].
    + intros H H1. apply H. now right.
Qed.

Lemma has_true o k : has o k = true <-> In k (keys o).
Proof.
  unfold has. destruct (get o k) eqn:E.
  - split; [intros _ | reflexivity].
    apply get_In in E. apply (in_map fst) in E. exact E.
  - apply get_None in E. split; [discriminate | contradiction].
Qed.

Lemma has_false o k : has o k = false <-> ~ In k (keys o).
Proof.
  rewrite <- has_true. destruct (has o k); split; congruence.
Qed.

Lemma In_get o k v : NoDup (keys o) -> In (k, v) o -> get o k = Some v.
Proof.
  induction o as [|[k' v'] o IH]; simpl; [tauto|].
  intros Hnd [H | H].
  - inversion H; subst. now rewrite String.eqb_refl.
  - inversion Hnd as [|? ? Hk' Hnd']; subst.
    destruct (String.eqb k k') eqn:E.
    + apply String.eqb_eq in E. subst k'.
      apply (in_map fst) in H. contradiction.
    + now apply IH.
Qed.

(** ** Assignment *)

Lemma keys_replace o k v : keys (replace o k v) = keys o.
Proof.
  induction o as [|[k' v'] o IH]; simpl; [reflexivity|].
  destruct (String.eqb k k'); simpl; [reflexivity | now rewrite IH].
Qed.

Lemma get_replace o k v k' :
  get (replace o k v) k'
  = if String.eqb k' k then (if has o k then Some v else None)
    else get o k'.
Proof.
  unfold has. induction o as [|[k0 v0] o IH]; simpl.
  - now destruct (String.eqb k' k).
  - destruct (String.eqb k k0) eqn:E; simpl.
    + apply String.eqb_eq in E. subst k0.
      destruct (String.eqb k' k); reflexivity.
    + rewrite IH. destruct (String.eqb k' k) eqn:E'.
      * apply String.eqb_eq in E'. subst k'. now rewrite E.
      * reflexivity.
Qed.

Lemma In_replace o k v k' v' :
  In (k', v') (replace o k v) -> (k' = k /\ v' = v) \/ In (k', v') o.
Proof.
  induction o as [|[k0 v0] o IH]; simpl; [tauto|].
  destruct (String.eqb k k0) eqn:E; simpl.
  - apply String.eqb_eq in E. subst k0.
    intros [H | H]; [inversion H; subst; now left | right; now right].
  - intros [H | H]; [right; now left|].
    destruct (IH H) as [H' | H']; [now left | right; now right].
Qed.

Lemma In_insert_index o n k v k' v' :
  In (k', v') (insert_index o n k v) <-> (k', v') = (k, v) \/ In (k', v') o.
Proof.
  induction o as [|[k0 v0] o IH]; simpl; [intuition congruence|].
  destruct (array_index k0) as [n'|]; [destruct (n' <? n)%N|]; simpl;
    try rewrite IH; intuition congruence.
Qed.

Lemma keys_insert_index o n k v k' :
  In k' (keys (insert_index o n k v)) <-> k' = k \/ In k' (keys o).
Proof.
  induction o as [|[k0 v0] o IH]; simpl; [intuition congruence|].
  destruct (array_index k0) as [n'|]; [destruct (n' <? n)%N|]; simpl;
    try rewrite IH; intuition congruence.
Qed.

Lemma NoDup_insert_index o n k v :
  ~ In k (keys o) -> NoDup (keys o) ->
  NoDup (keys (insert_index o n k v)).
Proof.
  induction o as [|[k0 v0] o IH]; simpl; intros Hk Hnd.
  - constructor; [tauto | constructor].
  - inversion Hnd as [|? ? Hk0 Hnd']; subst.
    assert (Hcons : NoDup (k :: k0 :: keys o))
      by (constructor; [simpl; tauto | exact Hnd]).
    destruct (array_index k0) as [n'|]; [destruct (n' <? n)%N|]; simpl;
      try exact Hcons.
    constructor.
    + rewrite keys_insert_index. intros [-> | H]; tauto.
    + apply IH; tauto.
Qed.

Lemma get_insert_index o n k v k' :
  ~ In k (keys o) ->
  get (insert_index o n k v) k'
  = if String.eqb k' k then Some v else get o k'.
Proof.
  intros Hk. induction o as [|[k0 v0] o IH]; simpl.
  - reflexivity.
  - simpl in Hk.
    assert (E0 : String.eqb k k0 = false)
      by (apply String.eqb_neq; intros ->; tauto).
    destruct (array_index k0) as [n'|]; [destruct (n' <? n)%N|]; simpl;
      try reflexivity.
    rewrite IH by tauto.
    destruct (String.eqb k' k0) eqn:E1; [|reflexivity].
    apply String.eqb_eq in E1. subst k0.
    now rewrite String.eqb_sym, E0.
Qed.

Lemma get_append o k v k' :
  get (o ++ [(k, v)])%list k'
  = match get o k' with
    | Some x => Some x
    | None => if String.eqb k' k then Some v else None
    end.
Proof.
  induction o as [|[k0 v0] o IH]; simpl; [reflexivity|].
  destruct (String.eqb k' k0); [reflexivity | exact IH].
Qed.

Lemma get_set o k v k' :
  get (set o k v) k' = if String.eqb k' k then Some v else get o k'.
Proof.
  unfold set. destruct (has o k) eqn:Hh.
  - rewrite get_replace, Hh. reflexivity.
  - apply has_false in Hh.
    destruct (array_index k) as [n|].
    + now apply get_insert_index.
    + rewrite get_append. destruct (String.eqb k' k) eqn:E.
      * apply String.eqb_eq in E. subst k'.
        apply get_None in Hh. now rewrite Hh.
      * now destruct (get o k').
Qed.

Lemma get_set_same o k v : get (set o k v) k = Some v.
Proof. now rewrite get_set, String.eqb_refl. Qed.

Lemma get_set_other o k v k' :
  k' <> k -> get (set o k v) k' = get o k'.
Proof.
  intros H. apply String.eqb_neq in H. now rewrite get_set, H.
Qed.

Lemma has_set o k v k' :
  has (set o k v) k' = String.eqb k' k || has o k'.
Proof.
  unfold has. rewrite get_set. now destruct (String.eqb k' k).
Qed.

Lemma keys_set o k v k' :
  In k' (keys (set o k v)) <-> k' = k \/ In k' (keys o).
Proof.
  rewrite <- !has_true, has_set, orb_true_iff, String.eqb_eq. tauto.
Qed.

Lemma In_set o k v k' v' :
  In (k', v') (set o k v) -> (k' = k /\ v' = v) \/ In (k', v') o.
Proof.
  unfold set. destruct (has o k).
  - apply In_replace.
  - destruct (array_index k) as [n|].
    + rewrite In_insert_index. intros [H | H]; [inversion H|]; tauto.
    + rewrite in_app_iff. simpl.
      intros [H | [H | []]]; [|inversion H]; tauto.
Qed.

Lemma NoDup_set o k v : NoDup (keys o) -> NoDup (keys (set o k v)).
Proof.
  intros Hnd. unfold set. destruct (has o k) eqn:Hh.
  - now rewrite keys_replace.
  - apply has_false in Hh. destruct (array_index k) as [n|].
    + now apply NoDup_insert_index.
    + unfold keys. rewrite map_app. simpl.
      apply NoDup_app; [exact Hnd | constructor; [tauto | constructor] |].
      intros x Hx [<- | []]. contradiction.
Qed.

Lemma Forall_set (P : V -> Prop) o k v :
  Forall (fun e => P (snd e)) o -> P v ->
  Forall (fun e => P (snd e)) (set o k v).
Proof.
  intros Ho Hv. apply Forall_forall. intros [k' v'] Hin. simpl.
  apply In_set in Hin as [[_ ->] | Hin]; [exact Hv|].
  rewrite Forall_forall in Ho. exact (Ho _ Hin).
Qed.

Lemma Forall_get (P : V -> Prop) o k v :
  Forall (fun e => P (snd e)) o -> get o k = Some v -> P v.
Proof.
  intros Ho Hg. apply get_In in Hg.
  rewrite Forall_forall in Ho. exact (Ho _ Hg).
Qed.

(** ** Deletion *)

Lemma keys_delete o k k' :
  In k' (keys (delete o k)) <-> k' <> k /\ In k' (keys o).
Proof.
  induction o as [|[k0 v0] o IH]; simpl; [tauto|].
  destruct (String.eqb k k0) eqn:E.
  - apply String.eqb_eq in E. subst k0. rewrite IH.
    intuition congruence.
  - apply String.eqb_neq in E. simpl. rewrite IH.
    intuition congruence.
Qed.


Lemma get_delete o k k' :
  get (delete o k) k' = if String.eqb k' k then None else get o k'.
Proof.
  induction o as [|[k0 v0] o IH]; simpl.
  - now destruct (String.eqb k' k).
  - destruct (String.eqb k k0) eqn:E.
    + apply String.eqb_eq in E. subst k0. rewrite IH.
      now destruct (String.eqb k' k).
    + simpl. rewrite IH. destruct (String.eqb k' k0) eqn:E1.
      * apply String.eqb_eq in E1. subst k0.
        now rewrite String.eqb_sym, E.
      * reflexivity.
Qed.

(** ** Reads that see the prototype *)

Lemma read_own o k v : read o k = Some (own v) <-> get o k = Some v.
Proof.
  unfold read. destruct (get o k) as [v'|].
  - split; intros H; inversion H; reflexivity.
  - destruct (inherited k); split; discriminate.
Qed.

Lemma read_member o k k' :
  read o k = Some (member k')
  <-> get o k = None /\ inherited k = true /\ k' = k.
Proof.
  unfold read. destruct (get o k) as [v'|].
  - split; [discriminate | intros (H & _); discriminate].
  - destruct (inherited k).
    + split; [intros H; inversion H; auto | intros (_ & _ & ->); reflexivity].
    + split; [discriminate | intros (_ & H & _); discriminate].
Qed.

Lemma read_undefined o k :
  read o k = None <-> get o k = None /\ inherited k = false.
Proof.
  unfold read. destruct (get o k) as [v'|].
  - split; [discriminate | intros (H & _); discriminate].
  - destruct (inherited k); split; try discriminate; auto.
    intros (_ & H). discriminate.
Qed.

(** ** Assignments that may reach the setter of the prototype *)

Lemma assign_set o k v : k <> "__proto__" -> assign o k v = set o k v.
Proof.
  intros H. unfold assign. apply String.eqb_neq in H. now rewrite H.
Qed.

Lemma assign_own o k v : has o k = true -> assign o k v = set o k v.
Proof.
  intros H. unfold assign. rewrite H. now rewrite andb_false_r.
Qed.

Lemma assign_cases o k v :
  (k = "__proto__" /\ has o k = false /\ assign o k v = o) \/
  ((k <> "__proto__" \/ has o k = true) /\ assign o k v = set o k v).
Proof.
  unfold assign. destruct (String.eqb k "__proto__") eqn:E.
  - apply String.eqb_eq in E. destruct (has o k); simpl; auto.
  - apply String.eqb_neq in E. simpl. auto.
Qed.

Lemma get_assign_other o k v k' :
  k' <> k -> get (assign o k v) k' = get o k'.
Proof.
  intros H. destruct (assign_cases o k v) as [(_ & _ & ->) | (_ & ->)];
    [reflexivity | now apply get_set_other].
Qed.

Lemma get_assign_same o k v :
  k <> "__proto__" -> get (assign o k v) k = Some v.
Proof.
  intros H. rewrite assign_set by exact H. apply get_set_same.
Qed.

Lemma In_assign o k v k' v' :
  In (k', v') (assign o k v) -> (k' = k /\ v' = v) \/ In (k', v') o.
Proof.
  destruct (assign_cases o k v) as [(_ & _ & ->) | (_ & ->)];
    [now right | apply In_set].
Qed.

Lemma keys_assign o k v k' :
  In k' (keys (assign o k v)) -> k' = k \/ In k' (keys o).
Proof.
  destruct (assign_cases o k v) as [(_ & _ & ->) | (_ & ->)];
    [now right | apply keys_set].
Qed.

Lemma keys_assign_old o k v k' :
  In k' (keys o) -> In k' (keys (assign o k v)).
Proof.
  destruct (assign_cases o k v) as [(_ & _ & ->) | (_ & ->)];
    [tauto | intros H; apply keys_set; now right].
Qed.

Lemma NoDup_assign o k v : NoDup (keys o) -> NoDup (keys (assign o k v)).
Proof.
  destruct (assign_cases o k v) as [(_ & _ & ->) | (_ & ->)];
    [tauto | apply NoDup_set].
Qed.

Lemma Forall_assign (P : V -> Prop) o k v :
  Forall (fun e => P (snd e)) o -> P v ->
  Forall (fun e => P (snd e)) (assign o k v).
Proof.
  destruct (assign_cases o k v) as [(_ & _ & ->) | (_ & ->)];
    [tauto | apply Forall_set].
Qed.

End Facts.

(** A key that holds a slash is no member of [Object.prototype]. *)
Lemma inherited_no_slash k :
  inherited k = true -> Str.none Str.is_slash k = true.
Proof.
  unfold inherited, prototype_members. simpl.
  rewrite !orb_true_iff, !String.eqb_eq.
  intros H. repeat (destruct H as [H | H]; [subst k; reflexivity|]).
  discriminate H.
Qed.

Lemma slash_not_inherited k :
  Str.none Str.is_slash k = false ->
  inherited k = false /\ k <> "__proto__".
Proof.
  intros H. split.
  - destruct (inherited k) eqn:E; [|reflexivity].
    apply inherited_no_slash in E. congruence.
  - intros ->. discriminate H.
Qed.

Lemma inherited_proto : inherited "__proto__" = true.
Proof. reflexivity. Qed.

End ObjFacts.

(* ================================================================== *)
(** * Loops *)

Module LoopFacts.

Lemma bind_Ok {A B : Type} (m : result A) (k : A -> result B) (b : B) :
  bind m k = Ok b -> exists a, m = Ok a /\ k a = Ok b.
Proof. destruct m as [a|e]; simpl; [eauto | discriminate]. Qed.

Section Fold.
Context {S A : Type}.
Variable body : S -> A -> result S.

Lemma foldM_cons (a : A) (l : list A) (s : S) :
  foldM body (a :: l) s = (s' <- body s a ;; foldM body l s').
Proof. reflexivity. Qed.

Lemma foldM_app (l1 l2 : list A) (s : S) :
  foldM body (l1 ++ l2)%list s
  = (s' <- foldM body l1 s ;; foldM body l2 s').
Proof.
  revert s. induction l1 as [|a l1 IH]; intros s; simpl; [reflexivity|].
  destruct (body s a) as [s1|e]; simpl; [apply IH | reflexivity].
Qed.

(** A property of the state that every iteration keeps is kept by the
    loop. *)
Lemma foldM_invariant (I : S -> Prop) (l : list A) :
  (forall s a s', In a l -> I s -> body s a = Ok s' -> I s') ->
  forall s s', I s -> foldM body l s = Ok s' -> I s'.
Proof.
  induction l as [|a l IH]; simpl; intros Hstep s s' Hs H.
  - inversion H; now subst.
  - destruct (body s a) as [s1|e] eqn:E; simpl in H; [|discriminate].
    apply (IH (fun s a s' Hin => Hstep s a s' (or_intror Hin)) s1 s');
      [|exact H].
    apply (Hstep s a s1); [now left | exact Hs | exact E].
Qed.

(** A loop that throws nowhere returns. *)
Lemma foldM_total (I : S -> Prop) (l : list A) :
  (forall s a, In a l -> I s -> exists s', body s a = Ok s' /\ I s') ->
  forall s, I s -> exists s', foldM body l s = Ok s' /\ I s'.
Proof.
  induction l as [|a l IH]; simpl; intros Hstep s Hs.
  - now exists s.
  - destruct (Hstep s a (or_introl eq_refl) Hs) as (s1 & E & Hs1).
    rewrite E. simpl.
    apply IH; [|exact Hs1]. intros s0 a0 Hin. apply Hstep. now right.
Qed.


End Fold.

End LoopFacts.

(* ================================================================== *)
(** * The package resolver *)

Module ResolverFacts.
Import ObjFacts.

(** What a successful call returns. *)
Lemma getPackage_Ok lockfile packageDesc remove dep lockfile' :
  getPackage lockfile packageDesc remove = Ok (dep, lockfile') ->
  exists snapshot,
    JsObject.get (lf_packages lockfile) (pd_fullName packageDesc)
    = Some snapshot /\
    dep_version dep = pd_version packageDesc /\
    dep_resolved dep = None /\
    dep_integrity dep = res_integrity (snap_resolution snapshot) /\
    dep_dev dep = match snap_dev snapshot with
                  | Some true => Some true
                  | _ => None
                  end /\
    dep_requires dep = snap_dependencies snapshot /\
    dep_dependencies dep = None /\
    lockfile' = if remove
                then set_packages lockfile
                       (JsObject.delete (lf_packages lockfile)
                          (pd_fullName packageDesc))
                else lockfile.
Proof.
  unfold getPackage. intros H.
  destruct (JsObject.read (lf_packages lockfile) (pd_fullName packageDesc))
    as [[snapshot|k]|] eqn:Er; [|discriminate|discriminate].
  apply read_own in Er.
  exists snapshot. split; [exact Er|]. inversion H; subst; clear H.
  destruct snapshot as [name [integrity] dependencies dev]. simpl.
  destruct (pd_type packageDesc), name as [name|];
    try destruct (JsObject.read (lf_specifiers lockfile) name);
    destruct integrity, dependencies, dev as [[|]|]; simpl;
    repeat split; reflexivity.
Qed.

(** The resolver returns on every key that has a snapshot. *)
Lemma getPackage_found lockfile packageDesc remove snapshot :
  JsObject.get (lf_packages lockfile) (pd_fullName packageDesc)
  = Some snapshot ->
  exists dep lockfile',
    getPackage lockfile packageDesc remove = Ok (dep, lockfile').
Proof.
  intros H. unfold getPackage. apply read_own in H. rewrite H. eauto.
Qed.

Lemma getPackage_keep lockfile packageDesc dep lockfile' :
  getPackage lockfile packageDesc false = Ok (dep, lockfile') ->
  lockfile' = lockfile.
Proof.
  intros H. apply getPackage_Ok in H as (? & _ & _ & _ & _ & _ & _ & _ & H).
  exact H.
Qed.

Lemma getPackage_no_resolved lockfile packageDesc remove dep lockfile' :
  getPackage lockfile packageDesc remove = Ok (dep, lockfile') ->
  no_resolved dep.
Proof.
  intros H.
  apply getPackage_Ok in H as (? & _ & _ & Hr & _ & _ & _ & Hd & _).
  split; [exact Hr|]. intros subs E. rewrite Hd in E. discriminate.
Qed.

(** C8.  The record resolved from a snapshot has [dev] set to [true]
    when the snapshot is marked [dev: true]; otherwise the record has
    no [dev] field.  The field is never present with value [false]. *)
Theorem getPackage_dev lockfile packageDesc remove snapshot :
  JsObject.get (lf_packages lockfile) (pd_fullName packageDesc)
  = Some snapshot ->
  exists dep lockfile',
    getPackage lockfile packageDesc remove = Ok (dep, lockfile') /\
    (snap_dev snapshot = Some true -> dep_dev dep = Some true) /\
    (snap_dev snapshot <> Some true -> dep_dev dep = None) /\
    dep_dev dep <> Some false.
Proof.
  intros Hs.
  destruct (getPackage_found _ _ remove _ Hs) as (dep & lockfile' & H).
  exists dep, lockfile'. split; [exact H|].
  apply getPackage_Ok in H as (snapshot' & Hs' & _ & _ & _ & Hdev & _).
  rewrite Hs in Hs'. inversion Hs'; subst snapshot'. rewrite Hdev.
  destruct (snap_dev snapshot) as [[|]|]; repeat split; congruence.
Qed.

End ResolverFacts.


(* ================================================================== *)
(** * Phase 3 *)

Module Phase3Facts.
Import ObjFacts LoopFacts.

Lemma same_resolution_refl a : same_resolution a a.
Proof. repeat split. Qed.

Lemma same_resolution_trans a b c :
  same_resolution a b -> same_resolution b c -> same_resolution a c.
Proof.
  unfold same_resolution. intros (? & ? & ? & ? & ?) (? & ? & ? & ? & ?).
  repeat split; congruence.
Qed.

(** ** Reads and writes of the root map *)

Lemma own_assign_root deps name pkg :
  rm_own (assign_root deps name pkg) = JsObject.assign (rm_own deps) name pkg.
Proof.
  unfold assign_root, JsObject.assign.
  now destruct (String.eqb name "__proto__"
                && negb (JsObject.has (rm_own deps) name)).
Qed.


Lemma read_root_own deps name dep :
  JsObject.get (rm_own deps) name = Some dep ->
  read_root deps name = Some (a_record dep).
Proof. intros H. unfold read_root. now rewrite H. Qed.

(** Every member of [Object.prototype] shows through the root map. *)
Lemma read_root_inherited deps name :
  JsObject.inherited name = true -> read_root deps name <> None.
Proof.
  intros H. unfold read_root.
  destruct (JsObject.get (rm_own deps) name); [discriminate|].
  destruct (rm_proto deps) as [pkg|]; [|rewrite H; discriminate].
  destruct (String.eqb name "__proto__"); [discriminate|].
  destruct (record_field pkg name); [discriminate|].
  rewrite H. discriminate.
Qed.

(** A name that the root map does not show is no own property and no
    member of [Object.prototype]. *)
Lemma read_root_None deps name :
  read_root deps name = None ->
  JsObject.get (rm_own deps) name = None /\
  JsObject.inherited name = false /\ name <> "__proto__".
Proof.
  intros H. split; [|split].
  - unfold read_root in H.
    destruct (JsObject.get (rm_own deps) name); [discriminate | reflexivity].
  - destruct (JsObject.inherited name) eqn:E; [|reflexivity].
    now apply (read_root_inherited deps) in E.
  - intros ->. now apply (read_root_inherited deps "__proto__").
Qed.

(** While the prototype of the root map is [Object.prototype], the root
    map shows its own properties and the members of the prototype. *)
Lemma read_root_plain deps name :
  rm_proto deps = None ->
  read_root deps name
  = match JsObject.get (rm_own deps) name with
    | Some dep => Some (a_record dep)
    | None => if JsObject.inherited name then Some another else None
    end.
Proof. intros H. unfold read_root. now rewrite H. Qed.

(** What the root map shows under another name than the one that is
    updated. *)
Lemma read_root_update_other deps key val name :
  name <> key ->
  read_root (update_root deps key val) name = read_root deps name.
Proof.
  intros H. unfold read_root, update_root. simpl.
  now rewrite get_set_other.
Qed.

Lemma read_root_update_same deps key val :
  read_root (update_root deps key val) key = Some (a_record val).
Proof.
  unfold read_root, update_root. simpl. now rewrite get_set_same.
Qed.

(** An update that keeps the version of a root keeps every version that
    the root map shows. *)
Lemma root_version_update deps key val val' name :
  JsObject.get (rm_own deps) key = Some val ->
  dep_version val' = dep_version val ->
  root_version (update_root deps key val') name = root_version deps name.
Proof.
  intros Hg Hv. unfold root_version.
  destruct (String.eqb name key) eqn:E.
  - apply String.eqb_eq in E. subst name.
    rewrite read_root_update_same, (read_root_own _ _ _ Hg). simpl.
    now rewrite Hv.
  - apply String.eqb_neq in E. now rewrite read_root_update_other.
Qed.

(** [dep.version !== version] is the comparison of the version that the
    root map shows. *)
Lemma version_differs_false dep version :
  version_differs dep version = false <-> version_of dep = Some version.
Proof.
  unfold version_differs. destruct (version_of dep) as [v|].
  - rewrite negb_false_iff, String.eqb_eq. split; congruence.
  - split; discriminate.
Qed.

(** ** The walk of the 'requires' of a root *)

(** What one iteration over a 'requires' entry does to the record. *)
Lemma phase3_require_Ok deps subdeps key val name version val' :
  phase3_require deps subdeps key val (name, version) = Ok val' ->
  exists d,
    getDependencyPackageDesc name version = Ok d /\
    same_resolution val' val /\
    dep_requires val'
    = (if has_extraneous_info d
       then option_map (fun r => JsObject.assign r name (pd_version d))
              (dep_requires val)
       else dep_requires val) /\
    dep_dependencies val'
    = match JsObject.get subdeps (pd_fullName d) with
      | Some dep =>
          Some (JsObject.assign (or_empty (dep_dependencies val)) name
                  (getSubDependencyFromDependency dep))
      | None => dep_dependencies val
      end /\
    (JsObject.get subdeps (pd_fullName d) = None ->
     root_version (update_root deps key val) name = Some (pd_version d)).
Proof.
  unfold phase3_require. intros H.
  destruct (getDependencyPackageDesc name version) as [d|e]; [|discriminate].
  exists d. split; [reflexivity|]. simpl in H.
  unfold phase3_lookup in H.
  destruct (JsObject.get subdeps (pd_fullName d)) as [dep|].
  - simpl in H. unfold phase3_strip in H.
    destruct (has_extraneous_info d).
    + simpl in H. destruct (dep_requires val) as [r|] eqn:Er; [|discriminate].
      inversion H; subst; clear H. simpl.
      repeat split; try reflexivity. discriminate.
    + inversion H; subst; clear H. simpl.
      repeat split; try reflexivity. discriminate.
  - unfold root_version.
    destruct (read_root (update_root deps key val) name) as [dep|];
      [|discriminate].
    destruct (version_differs dep (pd_version d)) eqn:Ev; [discriminate|].
    apply version_differs_false in Ev.
    simpl in H. unfold phase3_strip in H.
    destruct (has_extraneous_info d).
    + destruct (dep_requires val) as [r|] eqn:Er; [|discriminate].
      inversion H; subst; clear H. simpl.
      repeat split; try reflexivity. intros _. exact Ev.
    + inversion H; subst; clear H.
      repeat split; try reflexivity. intros _. exact Ev.
Qed.

(** The fields that the resolver filled in survive the walk of the
    'requires' of a root. *)
Lemma phase3_requires_same deps subdeps key l val val' :
  foldM (phase3_require deps subdeps key) l val = Ok val' ->
  same_resolution val' val.
Proof.
  intros H.
  apply (foldM_invariant (phase3_require deps subdeps key)
           (fun v => same_resolution v val) l) with (s := val);
    [| apply same_resolution_refl | exact H].
  intros s [name version] s' _ Hs Hstep.
  apply phase3_require_Ok in Hstep as (d & _ & Hsame & _).
  exact (same_resolution_trans _ _ _ Hsame Hs).
Qed.

(** The state of 'requires' and of 'dependencies' once the entries [l]
    of a root have been walked.  A staged package is nested under the
    name of its entry, unless that name is [__proto__], which the map of
    nested records does not store. *)
Lemma phase3_requires_entries deps subdeps key l :
  NoDup (map fst l) ->
  forall val val' r,
    dep_requires val = Some r ->
    (forall name version, In (name, version) l ->
       JsObject.get r name = Some version) ->
    foldM (phase3_require deps subdeps key) l val = Ok val' ->
    exists r',
      dep_requires val' = Some r' /\
      (forall name, ~ In name (map fst l) ->
         JsObject.get r' name = JsObject.get r name /\
         JsObject.get (or_empty (dep_dependencies val')) name
         = JsObject.get (or_empty (dep_dependencies val)) name) /\
      (forall name version, In (name, version) l ->
         exists d,
           getDependencyPackageDesc name version = Ok d /\
           JsObject.get r' name
           = Some (if has_extraneous_info d then pd_version d else version) /\
           forall dep,
             JsObject.get subdeps (pd_fullName d) = Some dep ->
             name <> "__proto__" ->
             JsObject.get (or_empty (dep_dependencies val')) name
             = Some (getSubDependencyFromDependency dep)).
Proof.
  induction l as [|[n0 v0] l IH]; intros Hnd val val' r Hr Hl H.
  - simpl in H. inversion H; subst. exists r. repeat split; auto.
    intros ? ? [].
  - rewrite foldM_cons in H. apply bind_Ok in H as (val1 & E & H).
    inversion Hnd as [|? ? Hn0 Hnd']; subst.
    apply phase3_require_Ok in E as (d0 & Hd0 & _ & Hreq1 & Hdep1 & _).
    rewrite Hr in Hreq1. simpl in Hreq1.
    assert (Hown : JsObject.has r n0 = true).
    { unfold JsObject.has. now rewrite (Hl n0 v0 (or_introl eq_refl)). }
    rewrite (assign_own _ _ _ Hown) in Hreq1.
    set (r1 := if has_extraneous_info d0
               then JsObject.set r n0 (pd_version d0) else r).
    assert (Hr1 : dep_requires val1 = Some r1)
      by (rewrite Hreq1; unfold r1; now destruct (has_extraneous_info d0)).
    assert (Hget1 : forall name, name <> n0 ->
              JsObject.get r1 name = JsObject.get r name).
    { intros name Hne. unfold r1. destruct (has_extraneous_info d0);
        [now apply get_set_other | reflexivity]. }
    assert (Hdm1 : forall name, name <> n0 ->
              JsObject.get (or_empty (dep_dependencies val1)) name
              = JsObject.get (or_empty (dep_dependencies val)) name).
    { intros name Hne. rewrite Hdep1.
      destruct (JsObject.get subdeps (pd_fullName d0)); [|reflexivity].
      simpl. now apply get_assign_other. }
    assert (Hl1 : forall name version, In (name, version) l ->
              JsObject.get r1 name = Some version).
    { intros name version Hin. rewrite Hget1.
      - apply Hl. now right.
      - intros ->. apply Hn0. exact (in_map fst _ _ Hin). }
    destruct (IH Hnd' val1 val' r1 Hr1 Hl1 H) as (r' & Hr' & Hout & Hin).
    exists r'. split; [exact Hr'|]. split.
    + intros name Hname. simpl in Hname.
      destruct (Hout name) as [Ho1 Ho2]; [tauto|].
      rewrite Ho1, Ho2. split; [apply Hget1 | apply Hdm1]; intros ->; tauto.
    + intros name version [Heq | Hin'].
      * inversion Heq; subst name version; clear Heq.
        destruct (Hout n0 Hn0) as [Ho1 Ho2].
        exists d0. split; [exact Hd0|]. split.
        -- rewrite Ho1. unfold r1.
           destruct (has_extraneous_info d0).
           ++ apply get_set_same.
           ++ apply Hl. now left.
        -- intros dep Hdep Hproto. rewrite Ho2, Hdep1, Hdep. simpl.
           now apply get_assign_same.
      * exact (Hin name version Hin').
Qed.

(** ** The walk of the roots *)

Lemma phase3_root_Ok subdeps deps key val deps' :
  phase3_root subdeps deps (key, val) = Ok deps' ->
  match dep_requires val with
  | Some requires =>
      exists val',
        foldM (phase3_require deps subdeps key)
          (JsObject.entries requires) val = Ok val' /\
        deps' = update_root deps key val'
  | None => deps' = deps
  end.
Proof.
  unfold phase3_root. destruct (dep_requires val) as [requires|].
  - destruct (foldM (phase3_require deps subdeps key)
                (JsObject.entries requires) val) as [val'|e];
      [|discriminate].
    simpl. intros H. inversion H; subst. now exists val'.
  - intros H. now inversion H.
Qed.

(** Phase 3 leaves the prototype of the root map alone. *)
Lemma phase3_root_proto subdeps deps entry deps' :
  phase3_root subdeps deps entry = Ok deps' ->
  rm_proto deps' = rm_proto deps.
Proof.
  destruct entry as [key val]. intros H. apply phase3_root_Ok in H.
  destruct (dep_requires val); [|now subst].
  destruct H as (val' & _ & ->). reflexivity.
Qed.

Lemma phase3_roots_proto subdeps l deps deps' :
  foldM (phase3_root subdeps) l deps = Ok deps' ->
  rm_proto deps' = rm_proto deps.
Proof.
  intros H.
  apply (foldM_invariant (phase3_root subdeps)
           (fun m => rm_proto m = rm_proto deps) l) with (s := deps);
    [| reflexivity | exact H].
  intros m entry m' _ Hm Hstep.
  now rewrite (phase3_root_proto _ _ _ _ Hstep).
Qed.

Lemma phase3_root_other subdeps deps key val deps' k :
  phase3_root subdeps deps (key, val) = Ok deps' ->
  k <> key -> JsObject.get deps' k = JsObject.get deps k.
Proof.
  intros H Hk. apply phase3_root_Ok in H.
  destruct (dep_requires val); [|now subst].
  destruct H as (val' & _ & ->). simpl. now apply get_set_other.
Qed.

Lemma phase3_roots_other subdeps l deps deps' k :
  foldM (phase3_root subdeps) l deps = Ok deps' ->
  ~ In k (map fst l) -> JsObject.get deps' k = JsObject.get deps k.
Proof.
  revert deps. induction l as [|[key val] l IH]; simpl; intros deps H Hk.
  - now inversion H.
  - apply bind_Ok in H as (deps1 & E & H).
    rewrite (IH _ H) by tauto.
    apply (phase3_root_other _ _ _ _ _ _ E). intros ->. tauto.
Qed.

(** What Phase 3 makes of a root: the record that the walk of its own
    'requires' returns. *)
Lemma phase3_fold_record subdeps l (store deps' : RootMap) key val :
  NoDup (map fst l) ->
  foldM (phase3_root subdeps) l store = Ok deps' ->
  In (key, val) l ->
  JsObject.get store key = Some val ->
  exists val',
    JsObject.get deps' key = Some val' /\
    match dep_requires val with
    | Some requires =>
        exists store' : RootMap,
          JsObject.get store' key = Some val /\
          rm_proto store' = rm_proto store /\
          foldM (phase3_require store' subdeps key)
            (JsObject.entries requires) val = Ok val'
    | None => val' = val
    end.
Proof.
  intros Hnd H Hin Hget.
  destruct (in_split _ _ Hin) as (l1 & l2 & ->).
  rewrite map_app in Hnd. simpl in Hnd.
  apply NoDup_remove_2 in Hnd. rewrite in_app_iff in Hnd.
  rewrite foldM_app in H.
  apply bind_Ok in H as (da & E1 & H). rewrite foldM_cons in H.
  apply bind_Ok in H as (db & E2 & H).
  rewrite (phase3_roots_other _ _ _ _ key H) by tauto.
  assert (Hda : JsObject.get da key = Some val)
    by (rewrite (phase3_roots_other _ _ _ _ key E1) by tauto; exact Hget).
  pose proof (phase3_roots_proto _ _ _ _ E1) as Hpa.
  apply phase3_root_Ok in E2.
  destruct (dep_requires val) as [requires|].
  - destruct E2 as (val' & Hval' & ->). exists val'.
    split; [simpl; apply get_set_same | now exists da].
  - subst db. now exists val.
Qed.

Lemma phase3_root_record subdeps (deps deps' : RootMap) key val :
  NoDup (JsObject.keys deps) ->
  phase3 subdeps deps = Ok deps' ->
  In (key, val) deps ->
  exists val',
    JsObject.get deps' key = Some val' /\
    match dep_requires val with
    | Some requires =>
        exists store : RootMap,
          JsObject.get store key = Some val /\
          rm_proto store = rm_proto deps /\
          foldM (phase3_require store subdeps key)
            (JsObject.entries requires) val = Ok val'
    | None => val' = val
    end.
Proof.
  intros Hnd H Hin.
  exact (phase3_fold_record subdeps _ deps deps' key val Hnd H Hin
           (In_get _ _ _ Hnd Hin)).
Qed.

(** Phase 3 keeps the roots and what the resolver found for them. *)
Lemma phase3_same subdeps (deps deps' : RootMap) :
  NoDup (JsObject.keys deps) ->
  phase3 subdeps deps = Ok deps' ->
  forall key val,
    JsObject.get deps key = Some val ->
    exists val',
      JsObject.get deps' key = Some val' /\ same_resolution val' val.
Proof.
  intros Hnd H key val Hget. apply get_In in Hget.
  destruct (phase3_root_record _ _ _ _ _ Hnd H Hget) as (val' & Hg & Hr).
  exists val'. split; [exact Hg|].
  destruct (dep_requires val).
  - destruct Hr as (store & _ & _ & Hf).
    exact (phase3_requires_same _ _ _ _ _ _ Hf).
  - subst. apply same_resolution_refl.
Qed.

(** ** What Phase 3 keeps *)

Lemma keys_set_present {V : Type} (o : JsObject.t V) k v :
  In k (JsObject.keys o) ->
  JsObject.keys (JsObject.set o k v) = JsObject.keys o.
Proof.
  intros H. apply has_true in H. unfold JsObject.set. rewrite H.
  apply keys_replace.
Qed.

Lemma phase3_requires_keys deps subdeps key l val val' r :
  dep_requires val = Some r ->
  (forall name version, In (name, version) l -> In name (JsObject.keys r)) ->
  foldM (phase3_require deps subdeps key) l val = Ok val' ->
  exists r', dep_requires val' = Some r' /\ JsObject.keys r' = JsObject.keys r.
Proof.
  intros Hr Hl H.
  apply (foldM_invariant (phase3_require deps subdeps key)
           (fun v => exists r', dep_requires v = Some r' /\
                                JsObject.keys r' = JsObject.keys r) l)
    with (s := val); [| now exists r | exact H].
  intros v [name version] v' Hin (r1 & Hr1 & Hk1) Hstep.
  apply phase3_require_Ok in Hstep as (d & _ & _ & Hreq & _).
  rewrite Hr1 in Hreq. simpl in Hreq.
  destruct (has_extraneous_info d); [|now exists r1].
  eexists. split; [exact Hreq|].
  assert (Hown : In name (JsObject.keys r1))
    by (rewrite Hk1; exact (Hl _ _ Hin)).
  rewrite assign_own by now apply has_true.
  rewrite keys_set_present; [exact Hk1 | exact Hown].
Qed.

Lemma phase3_keys subdeps (deps deps' : RootMap) :
  phase3 subdeps deps = Ok deps' -> JsObject.keys deps' = JsObject.keys deps.
Proof.
  intros H. unfold phase3 in H.
  apply (foldM_invariant (phase3_root subdeps)
           (fun m : RootMap => JsObject.keys m = JsObject.keys deps)
           (JsObject.entries deps)) with (s := deps); [| reflexivity | exact H].
  intros m [key val] m' Hin Hm Hstep. apply phase3_root_Ok in Hstep.
  destruct (dep_requires val); [|now subst].
  destruct Hstep as (val' & _ & ->). simpl.
  rewrite keys_set_present; [exact Hm|]. rewrite Hm.
  exact (in_map fst _ _ Hin).
Qed.

(** ** Where Phase 3 throws *)






End Phase3Facts.

(* ================================================================== *)
(** * Phases 1 and 2 *)

Module Phase12Facts.
Import ObjFacts LoopFacts ResolverFacts ParserFacts Phase3Facts.

Lemma getPathPackageDesc_fullName fullName d :
  getPathPackageDesc fullName = Ok d -> pd_fullName d = fullName.
Proof.
  intros H. destruct (Str.startsWith fullName "github.com/") eqn:Hg.
  - unfold getPathPackageDesc in H. rewrite Hg in H. simpl in H.
    unfold getGithubPackageDesc in H.
    destruct (exec_github_re fullName) as [[[g1 g2] g3]|]; [|discriminate].
    inversion H. reflexivity.
  - destruct (getPathPackageDesc_Ok_groups _ _ Hg H) as [segment He].
    destruct (getPathPackageDesc_groups _ _ _ Hg He) as (d' & Hd' & Hf & _).
    congruence.
Qed.

Lemma sublock_refl lockfile : sublock lockfile lockfile.
Proof. repeat split; auto. Qed.

(** The record resolved for a descriptor does not depend on the
    snapshots deleted so far. *)
Lemma getPackage_sublock lf lockfile d remove remove' pkg lf' :
  sublock lf lockfile ->
  getPackage lf d remove = Ok (pkg, lf') ->
  exists lockfile', getPackage lockfile d remove' = Ok (pkg, lockfile').
Proof.
  intros (Hs & _ & Hp) H. unfold getPackage in *.
  destruct (JsObject.read (lf_packages lf) (pd_fullName d))
    as [[s|k]|] eqn:E; [|discriminate|discriminate].
  apply read_own in E. apply Hp in E. apply read_own in E.
  rewrite E, <- Hs. inversion H; subst. eauto.
Qed.

Lemma getPackage_remove lf d pkg lf' :
  getPackage lf d true = Ok (pkg, lf') ->
  lf' = set_packages lf (JsObject.delete (lf_packages lf) (pd_fullName d)).
Proof.
  intros H. apply getPackage_Ok in H as (? & _ & _ & _ & _ & _ & _ & _ & H).
  exact H.
Qed.

Lemma sublock_remove lf lockfile d pkg lf' :
  sublock lf lockfile ->
  getPackage lf d true = Ok (pkg, lf') ->
  sublock lf' lockfile.
Proof.
  intros (Hs & Hb & Hp) H. apply getPackage_remove in H. subst lf'.
  split; [exact Hs|]. split.
  - intros f. rewrite <- Hb. now destruct f.
  - intros k s. simpl. rewrite get_delete.
    destruct (String.eqb k (pd_fullName d)); [discriminate | apply Hp].
Qed.

(** ** Phase 1 *)

Lemma phase1_entry_Ok deps lf name version deps' lf' :
  phase1_entry (deps, lf) (name, version) = Ok (deps', lf') ->
  exists d pkg,
    getDependencyPackageDesc name version = Ok d /\
    getPackage lf d true = Ok (pkg, lf') /\
    deps' = assign_root deps (pd_name d) pkg.
Proof.
  unfold phase1_entry. intros H.
  apply bind_Ok in H as (d & Hd & H).
  apply bind_Ok in H as ([pkg lf1] & Hp & H).
  inversion H; subst. now exists d, pkg.
Qed.

(** The entries of the buckets in the order in which Phase 1 walks
    them. *)
Lemma phase1_flat F lockfile :
  phase1 F lockfile
  = foldM phase1_entry (bucket_entries F lockfile) (empty_root, lockfile).
Proof.
  unfold phase1.
  assert (G : forall st,
             (forall f, lockfile_field (snd st) f = lockfile_field lockfile f) ->
             foldM (phase1_bucket) F st
             = foldM phase1_entry (bucket_entries F lockfile) st);
    [|now apply G].
  induction F as [|f F IH]; intros st Hst; [reflexivity|].
  rewrite foldM_cons. unfold bucket_entries. simpl flat_map.
  rewrite foldM_app. unfold phase1_bucket at 1. rewrite Hst.
  fold (bucket_entries F lockfile).
  destruct (lockfile_field lockfile f) as [depsMap|]; simpl.
  - unfold JsObject.entries.
    destruct (foldM phase1_entry depsMap st) as [st1|e] eqn:E; simpl;
      [|reflexivity].
    apply IH.
    apply (foldM_invariant phase1_entry
             (fun s => forall f, lockfile_field (snd s) f
                                 = lockfile_field lockfile f)
             depsMap) with (s := st); [| exact Hst | exact E].
    intros [deps lf] [name version] [deps' lf'] _ Hs Hstep f0.
    apply phase1_entry_Ok in Hstep as (d & pkg & _ & Hp & _).
    apply getPackage_remove in Hp. subst lf'. simpl in *.
    rewrite <- Hs. now destruct f0.
  - now apply IH.
Qed.

Lemma phase1_state_init lockfile l :
  phase1_state lockfile l (empty_root, lockfile).
Proof.
  split; simpl.
  - apply sublock_refl.
  - constructor.
  - constructor.
  - intros k H1 H2. contradiction.
Qed.

Lemma phase1_state_step lockfile l st entry st' :
  In entry l -> phase1_state lockfile l st ->
  phase1_entry st entry = Ok st' -> phase1_state lockfile l st'.
Proof.
  destruct st as [deps lf], entry as [name version], st' as [deps' lf'].
  intros Hin [Hsub Hk Hnr Hc] H. simpl in *.
  apply phase1_entry_Ok in H as (d & pkg & Hd & Hp & ->).
  split; cbn [fst snd].
  - exact (sublock_remove _ _ _ _ _ Hsub Hp).
  - rewrite own_assign_root. now apply NoDup_assign.
  - rewrite own_assign_root. apply Forall_assign; [exact Hnr|].
    exact (getPackage_no_resolved _ _ _ _ _ Hp).
  - intros k Hk0 Hk1. apply getPackage_remove in Hp. subst lf'.
    simpl in Hk1. rewrite keys_delete in Hk1.
    destruct (string_dec k (pd_fullName d)) as [->|Hne].
    + now exists name, version, d.
    + apply Hc; [exact Hk0 | tauto].
Qed.

Lemma phase1_state_final F lockfile deps lf :
  phase1 F lockfile = Ok (deps, lf) ->
  phase1_state lockfile (bucket_entries F lockfile) (deps, lf).
Proof.
  rewrite phase1_flat. intros H.
  apply (foldM_invariant phase1_entry
           (phase1_state lockfile (bucket_entries F lockfile))
           (bucket_entries F lockfile))
    with (s := (empty_root, lockfile)); [| |exact H].
  - intros s a s' Hin Hs Hstep. exact (phase1_state_step _ _ _ _ _ Hin Hs Hstep).
  - apply phase1_state_init.
Qed.


(** ** Phase 2 *)

Lemma phase2_entry_Ok lockfile deps subdeps key snapshot deps' subdeps' :
  phase2_entry lockfile (deps, subdeps) (key, snapshot) = Ok (deps', subdeps') ->
  exists d pkg,
    getPathPackageDesc key = Ok d /\
    getPackage lockfile d false = Ok (pkg, lockfile) /\
    ((read_root deps (pd_name d) <> None /\
      deps' = deps /\ subdeps' = JsObject.set subdeps key pkg)
     \/
     (read_root deps (pd_name d) = None /\
      deps' = update_root deps (pd_name d) pkg /\ subdeps' = subdeps)).
Proof.
  unfold phase2_entry. intros H.
  apply bind_Ok in H as (d & Hd & H).
  apply bind_Ok in H as ([pkg lf1] & Hp & H).
  exists d, pkg. split; [exact Hd|].
  rewrite (getPackage_keep _ _ _ _ Hp) in Hp. split; [exact Hp|].
  rewrite (getPathPackageDesc_fullName _ _ Hd) in H.
  destruct (read_root deps (pd_name d)) as [v|] eqn:E.
  - left. inversion H; subst. repeat split. discriminate.
  - right. inversion H; subst. split; [reflexivity|]. split; [|reflexivity].
    apply read_root_None in E as (_ & _ & Hne).
    unfold assign_root, update_root.
    apply String.eqb_neq in Hne. now rewrite Hne.
Qed.



Lemma phase2_state_final lockfile (deps deps' : RootMap) subdeps' :
  NoDup (JsObject.keys deps) ->
  Forall (fun e => no_resolved (snd e)) deps ->
  phase2 lockfile deps = Ok (deps', subdeps') ->
  phase2_state (deps', subdeps').
Proof.
  intros Hk Hnr H. unfold phase2 in H.
  apply (foldM_invariant (phase2_entry lockfile) phase2_state
           (JsObject.entries (lf_packages lockfile)))
    with (s := (deps, JsObject.empty)); [| |exact H].
  - intros [d1 s1] [key snapshot] [d2 s2] _ (H1 & H2 & H3) Hstep.
    apply phase2_entry_Ok in Hstep as (d & pkg & _ & Hp & Hcase).
    apply getPackage_no_resolved in Hp. unfold phase2_state.
    cbn [fst snd] in *.
    destruct Hcase as [(_ & -> & ->) | (_ & -> & ->)].
    + repeat split; try assumption. now apply Forall_set.
    + repeat split; try assumption; simpl;
        [now apply NoDup_set | now apply Forall_set].
  - repeat split; simpl; try assumption. constructor.
Qed.

(** Phase 2 never replaces a root. *)
Lemma phase2_keeps_roots lockfile (deps deps' : RootMap) subdeps' k v :
  phase2 lockfile deps = Ok (deps', subdeps') ->
  JsObject.get deps k = Some v -> JsObject.get deps' k = Some v.
Proof.
  intros H Hg. unfold phase2 in H.
  apply (foldM_invariant (phase2_entry lockfile)
           (fun st => JsObject.get (fst st) k = Some v)
           (JsObject.entries (lf_packages lockfile)))
    with (s := (deps, JsObject.empty)) (s' := (deps', subdeps'));
    [| exact Hg | exact H].
  intros [d1 s1] [key snapshot] [d2 s2] _ Hs Hstep. cbn [fst snd] in *.
  apply phase2_entry_Ok in Hstep as (d & pkg & _ & _ & Hcase).
  destruct Hcase as [(_ & -> & _) | (Hh & -> & _)]; [exact Hs|].
  simpl. rewrite get_set_other; [exact Hs|].
  intros ->. apply read_root_None in Hh as (Hh & _). congruence.
Qed.


(** ** The name [__proto__] and the keys with a slash *)

(** A key that a parser accepts holds a slash: it is no member of
    [Object.prototype]. *)
Lemma getPathPackageDesc_slash key d :
  getPathPackageDesc key = Ok d ->
  Str.none Str.is_slash (pd_fullName d) = false.
Proof.
  intros H. rewrite (getPathPackageDesc_fullName _ _ H).
  destruct (Str.startsWith key "github.com/") eqn:Hg.
  - apply StrFacts.startsWith_true in Hg as [r ->]. reflexivity.
  - destruct (getPathPackageDesc_Ok_groups _ _ Hg H) as [segment He].
    apply exec_path_re_Some in He as (registry & -> & Hreg).
    rewrite StrFacts.none_append, Hreg. reflexivity.
Qed.

Lemma getDependencyPackageDesc_slash name version d :
  getDependencyPackageDesc name version = Ok d ->
  Str.none Str.is_slash (pd_fullName d) = false.
Proof.
  unfold getDependencyPackageDesc.
  destruct (starts_with_digit version); apply getPathPackageDesc_slash.
Qed.

(** The descriptor of an entry of a bucket or of a 'requires' is the
    descriptor of its own full key. *)
Lemma getDependencyPackageDesc_key name version d :
  getDependencyPackageDesc name version = Ok d ->
  getPathPackageDesc (pd_fullName d) = Ok d.
Proof.
  unfold getDependencyPackageDesc.
  destruct (starts_with_digit version); intros H;
    now rewrite (getPathPackageDesc_fullName _ _ H).
Qed.





(** ** The whole conversion *)

(** ** What Phase 1 consumes *)



(** ** Where the roots come from *)



Lemma processLockfile_Ok F lockfile out :
  processLockfile F lockfile = Ok out ->
  exists deps1 lockfile1 deps2 subdeps,
    phase1 F lockfile = Ok (deps1, lockfile1) /\
    phase2 lockfile1 deps1 = Ok (deps2, subdeps) /\
    phase3 subdeps deps2 = Ok (npl_dependencies out) /\
    npl_requires out = Some true /\ npl_lockfileVersion out = 1%Z.
Proof.
  unfold processLockfile. intros H.
  apply bind_Ok in H as ([deps1 lockfile1] & H1 & H).
  apply bind_Ok in H as ([deps2 subdeps] & H2 & H).
  apply bind_Ok in H as (deps3 & H3 & H).
  inversion H; subst; simpl.
  exists deps1, lockfile1, deps2, subdeps. auto.
Qed.

End Phase12Facts.

(* ================================================================== *)
(** * Keys and what the parser makes of them *)

Module KeyFacts.
Import Str StrFacts Grammar ParserFacts.

Lemma exec_name_version_full (r name segment : string) :
  exec_name_version r = Some (name, segment) ->
  r = name ++ "/" ++ segment /\ nonempty name = true /\
  none is_slash name = true /\ none is_line_terminator segment = true.
Proof.
  unfold exec_name_version. intros H.
  destruct (split_slash r) as [[n v]|] eqn:E; [|discriminate].
  destruct (nonempty n) eqn:Hn; [|discriminate].
  destruct (none is_line_terminator v) eqn:Hv; [|discriminate].
  inversion H; subst. apply split_slash_Some in E as [-> Hs]. auto.
Qed.

Lemma exec_path_re_accepts (fullName : string) :
  (exists groups, exec_path_re fullName = Some groups) <-> path_form fullName.
Proof.
  split.
  - intros [[name segment] H]. unfold exec_path_re in H.
    destruct (split_slash fullName) as [[registry r]|] eqn:E; [|discriminate].
    apply split_slash_Some in E as [-> Hreg].
    assert (Hplain : exec_name_version r = Some (name, segment) ->
                     path_form (registry ++ "/" ++ r)).
    { intros Hp. apply exec_name_version_full in Hp as (-> & H1 & H2 & H3).
      now apply path_plain. }
    destruct r as [|c r1]; [now apply Hplain|].
    destruct (Ascii.eqb c "@") eqn:Hc; [|now apply Hplain].
    apply Ascii.eqb_eq in Hc. subst c.
    destruct (split_slash r1) as [[scope r2]|] eqn:E1; [|now apply Hplain].
    destruct (nonempty scope) eqn:Hs; [|now apply Hplain].
    destruct (exec_name_version r2) as [[pkg v]|] eqn:E2; [|now apply Hplain].
    apply split_slash_Some in E1 as [-> Hs2].
    apply exec_name_version_full in E2 as (-> & Hp1 & Hp2 & Hv).
    pose proof (path_scoped registry scope pkg v Hreg Hs Hs2 Hp1 Hp2 Hv) as Hf.
    simpl in *. now rewrite !append_assoc in Hf.
  - intros [registry name segment Hreg Hn1 Hn2 Hv
           | registry scope pkg segment Hreg Hs1 Hs2 Hp1 Hp2 Hv].
    + unfold exec_path_re. rewrite (split_slash_append _ _ Hreg).
      rewrite (exec_name_version_append _ _ Hn1 Hn2 Hv).
      match goal with |- exists g, match ?x with _ => _ end = _ =>
        destruct x as [m|]; eauto end.
    + exists ("@" ++ scope ++ "/" ++ pkg, segment).
      apply exec_path_re_package; [exact Hreg | | exact Hv].
      now apply scoped_name.
Qed.

(** X1.  A key without the host prefix is parsed if and only if it is of
    the path form; every other such key is refused with an error that
    quotes it. *)
Theorem path_keys_accepted (fullName : string) :
  startsWith fullName "github.com/" = false ->
  ((exists d, getPathPackageDesc fullName = Ok d) <-> path_form fullName) /\
  (~ path_form fullName ->
   getPathPackageDesc fullName
   = throwError ("Error parsing package name " ++ fullName)).
Proof.
  intros Hg. split; [split|].
  - intros [d Hd].
    destruct (getPathPackageDesc_Ok_groups _ _ Hg Hd) as [segment He].
    apply exec_path_re_accepts. eauto.
  - intros Hf. apply exec_path_re_accepts in Hf as [[name segment] He].
    destruct (getPathPackageDesc_groups _ _ _ Hg He) as (d & Hd & _). eauto.
  - intros Hf. unfold getPathPackageDesc. rewrite Hg.
    change (negb false) with true. cbv iota.
    destruct (exec_path_re fullName) as [groups|] eqn:He; [|reflexivity].
    exfalso. apply Hf, exec_path_re_accepts. eauto.
Qed.

Lemma join_version_split (version : string) (extra : option string) :
  none is_underscore version = true ->
  (let firstUnderscore := indexOf (join_version version extra) "_" in
   if negb (firstUnderscore =? -1)%Z then
     (substr (join_version version extra) 0 firstUnderscore,
      Some (substr_from (join_version version extra) (firstUnderscore + 1)))
   else (join_version version extra, None))
  = (version, extra).
Proof.
  intros Hv. cbv zeta. unfold join_version. destruct extra as [e|].
  - rewrite (indexOf_first _ _ Hv).
    replace (Z.of_nat (String.length version) =? -1)%Z with false
      by (symmetry; apply Z.eqb_neq; lia).
    cbv [negb]. now rewrite substr_prefix, substr_from_suffix.
  - rewrite append_nil_r, (indexOf_absent _ Hv). reflexivity.
Qed.

(** X2.  Parsing a key of the path form loses nothing but the kind of
    its first segment: the key is the first segment, the name and the
    version joined with the extra; and a key put together from a
    slash-free first segment other than [github.com], the name of a
    package, a version without underscore and an extra, where the
    version and the extra hold no line terminator, parses to exactly
    these parts. *)
Theorem path_key_round_trip :
  (forall (fullName : string) (d : PnpmPackageDesc),
      startsWith fullName "github.com/" = false ->
      getPathPackageDesc fullName = Ok d ->
      exists registry,
        none is_slash registry = true /\
        none is_underscore (pd_version d) = true /\
        fullName = registry ++ "/" ++ pd_name d ++ "/"
                   ++ join_version (pd_version d) (pd_extra d))
  /\
  (forall (registry name version : string) (extra : option string),
      none is_slash registry = true -> registry <> "github.com" ->
      package_name name ->
      none is_underscore version = true ->
      none is_line_terminator (join_version version extra) = true ->
      getPathPackageDesc
        (registry ++ "/" ++ name ++ "/" ++ join_version version extra)
      = Ok {| pd_type := if nonempty registry then Uri else Version;
              pd_fullName := registry ++ "/" ++ name ++ "/"
                             ++ join_version version extra;
              pd_name := name;
              pd_version := version;
              pd_extra := extra |}).
Proof.
  split.
  - intros fullName d Hg Hd.
    destruct (getPathPackageDesc_Ok_groups _ _ Hg Hd) as [segment He].
    destruct (exec_path_re_Some _ _ _ He) as (registry & E & Hreg).
    destruct (getPathPackageDesc_groups _ _ _ Hg He)
      as (d' & Hd' & _ & _ & _ & Hsplit).
    rewrite Hd in Hd'. inversion Hd'; subst d'; clear Hd'.
    exists registry. split; [exact Hreg|].
    unfold join_version.
    destruct Hsplit as [(Hn & Hv & Hx) | (pre & post & Hseg & Hn & Hv & Hx)];
      rewrite Hv, Hx.
    + split; [exact Hn|]. now rewrite append_nil_r.
    + split; [exact Hn|]. now rewrite <- Hseg.
  - intros registry name version extra Hreg Hng Hname Hv Hlt.
    pose proof (not_github_prefix registry
                  (name ++ "/" ++ join_version version extra) Hreg Hng) as Hg.
    pose proof (exec_path_re_package _ _ _ Hreg Hname Hlt) as He.
    unfold getPathPackageDesc. rewrite Hg, He.
    change (negb false) with true. cbv iota.
    pose proof (join_version_split version extra Hv) as Hs. cbv zeta in Hs.
    cbv zeta. rewrite Hs, (startsWith_slash _ _ Hreg).
    now destruct (nonempty registry).
Qed.

Lemma split_slash_count (s a b : string) :
  split_slash s = Some (a, b) ->
  count_chars is_slash s = S (count_chars is_slash b).
Proof.
  revert a. induction s as [|c s IH]; simpl; intros a H; [discriminate|].
  destruct (is_slash c); [now inversion H|].
  destruct (split_slash s) as [[a' b']|]; [|discriminate].
  inversion H; subst. exact (IH a' eq_refl).
Qed.

Lemma split_slash_no_slash (s : string) :
  count_chars is_slash s = 0%nat -> split_slash s = None.
Proof.
  intros H. destruct (split_slash s) as [[a b]|] eqn:E; [|reflexivity].
  apply split_slash_count in E. lia.
Qed.

Lemma count_chars_append p (a b : string) :
  count_chars p (a ++ b) = (count_chars p a + count_chars p b)%nat.
Proof. induction a as [|c a IH]; simpl; [reflexivity | rewrite IH; lia]. Qed.

Lemma exec_path_re_short (s : string) :
  (count_chars is_slash s < 2)%nat -> exec_path_re s = None.
Proof.
  intros H. unfold exec_path_re.
  destruct (split_slash s) as [[registry r]|] eqn:E; [|reflexivity].
  apply split_slash_count in E.
  assert (Hr : count_chars is_slash r = 0%nat) by lia.
  assert (Hp : exec_name_version r = None)
    by (unfold exec_name_version; now rewrite (split_slash_no_slash _ Hr)).
  rewrite Hp. destruct r as [|c r1]; [reflexivity|].
  destruct (Ascii.eqb c "@"); [|reflexivity].
  simpl in Hr.
  rewrite (split_slash_no_slash r1); [reflexivity|].
  destruct (is_slash c); lia.
Qed.

Lemma exec_github_re_short (s : string) :
  (count_chars is_slash s < 2)%nat -> exec_github_re s = None.
Proof.
  intros H. unfold exec_github_re.
  destruct (strip "github" s) as [[|c r]|] eqn:E1; try reflexivity.
  destruct (is_line_terminator c); [reflexivity|].
  destruct (strip "com/" r) as [r1|] eqn:E2; [|reflexivity].
  apply strip_Some in E1. apply strip_Some in E2. subst s r.
  rewrite count_chars_append in H. simpl in H.
  rewrite (split_slash_no_slash r1); [reflexivity|].
  destruct (is_slash c); lia.
Qed.

Lemma getPathPackageDesc_short (s : string) :
  (count_chars is_slash s < 2)%nat ->
  exists message,
    getPathPackageDesc s = throwError message /\ includes message s.
Proof.
  intros H. unfold getPathPackageDesc, getGithubPackageDesc.
  rewrite (exec_path_re_short _ H), (exec_github_re_short _ H).
  destruct (startsWith s "github.com/"); simpl negb; cbv iota.
  - exists ("Error parsing github URI " ++ s). split; [reflexivity|].
    exists "Error parsing github URI ", "". now rewrite append_nil_r.
  - exists ("Error parsing package name " ++ s). split; [reflexivity|].
    exists "Error parsing package name ", "". now rewrite append_nil_r.
Qed.

(** X3.  A key with fewer than two slashes is refused, whichever the
    grammar, with an error that quotes it; so is a specifier that does
    not start with a digit and has fewer than two slashes, such as a
    range or a link to a directory. *)
Theorem short_keys_refused :
  (forall s : string,
      (count_chars is_slash s < 2)%nat ->
      exists message,
        getPathPackageDesc s = throwError message /\ includes message s)
  /\
  (forall name version : string,
      starts_with_digit version = false ->
      (count_chars is_slash version < 2)%nat ->
      exists message,
        getDependencyPackageDesc name version = throwError message /\
        includes message version).
Proof.
  split; [exact getPathPackageDesc_short|].
  intros name version Hd H. unfold getDependencyPackageDesc. rewrite Hd.
  now apply getPathPackageDesc_short.
Qed.

End KeyFacts.

(* ================================================================== *)
(** * Consuming snapshots *)

Module ConsumeFacts.
Import ObjFacts LoopFacts ResolverFacts ParserFacts Phase3Facts Phase12Facts.
(** A full key that names no snapshot: the lookup fails with the error
    of the resolver, unless the key names a member of
    [Object.prototype], which the lookup finds in place of a
    snapshot. *)
Lemma getPackage_missing lockfile d remove :
  JsObject.get (lf_packages lockfile) (pd_fullName d) = None ->
  getPackage lockfile d remove
  = if JsObject.inherited (pd_fullName d)
    then Throw (JsTypeError "integrity")
    else throwError ("Failed to lookup " ++ pd_fullName d ++ " in packages").
Proof.
  intros H. unfold getPackage, JsObject.read. rewrite H.
  now destruct (JsObject.inherited (pd_fullName d)).
Qed.

Lemma getPackage_succeeds lockfile d remove :
  (exists r, getPackage lockfile d remove = Ok r)
  <-> JsObject.has (lf_packages lockfile) (pd_fullName d) = true.
Proof.
  unfold JsObject.has.
  destruct (JsObject.get (lf_packages lockfile) (pd_fullName d)) as [s|] eqn:E.
  - split; [reflexivity | intros _].
    destruct (getPackage_found _ _ remove _ E) as (dep & lf' & H). eauto.
  - split; [|discriminate]. intros [r H].
    rewrite (getPackage_missing _ _ _ E) in H.
    destruct (JsObject.inherited (pd_fullName d)); discriminate.
Qed.

(** X4.  Resolving with [remove] consumes the snapshot: on the lockfile
    that is left, the same full key is no longer found, whatever
    descriptor carries it, while every other key resolves to the record
    it resolved to before.  The lookup of the consumed key throws the
    error of the resolver; only for a key that is the name of a member
    of [Object.prototype], which the lookup then finds, it is the
    [TypeError] of the test on the resolution.  A key with a slash, as
    every key that a parser has accepted, is no such name. *)
Theorem getPackage_consumes lockfile d pkg lockfile' :
  getPackage lockfile d true = Ok (pkg, lockfile') ->
  (forall d' remove,
      pd_fullName d' = pd_fullName d ->
      getPackage lockfile' d' remove
      = if JsObject.inherited (pd_fullName d)
        then Throw (JsTypeError "integrity")
        else throwError
               ("Failed to lookup " ++ pd_fullName d ++ " in packages"))
  /\
  (forall d' remove,
      pd_fullName d' = pd_fullName d ->
      Str.none Str.is_slash (pd_fullName d) = false ->
      getPackage lockfile' d' remove
      = throwError ("Failed to lookup " ++ pd_fullName d ++ " in packages"))
  /\
  (forall d',
      pd_fullName d' <> pd_fullName d ->
      getPackage lockfile' d' false
      = match getPackage lockfile d' false with
        | Ok (pkg', _) => Ok (pkg', lockfile')
        | Throw e => Throw e
        end).
Proof.
  intros H. apply getPackage_remove in H. subst lockfile'.
  assert (Hgone : forall d' remove,
             pd_fullName d' = pd_fullName d ->
             getPackage
               (set_packages lockfile
                  (JsObject.delete (lf_packages lockfile) (pd_fullName d)))
               d' remove
             = if JsObject.inherited (pd_fullName d)
               then Throw (JsTypeError "integrity")
               else throwError
                      ("Failed to lookup " ++ pd_fullName d ++ " in packages")).
  { intros d' remove Hd'. rewrite <- Hd'. apply getPackage_missing.
    simpl. now rewrite get_delete, String.eqb_refl. }
  split; [exact Hgone|]. split.
  - intros d' remove Hd' Hslash. rewrite (Hgone d' remove Hd').
    now rewrite (proj1 (slash_not_inherited _ Hslash)).
  - intros d' Hne. unfold getPackage, JsObject.read. simpl.
    apply String.eqb_neq in Hne. rewrite get_delete, Hne.
    destruct (JsObject.get (lf_packages lockfile) (pd_fullName d'));
      [reflexivity|].
    now destruct (JsObject.inherited (pd_fullName d')).
Qed.

(** ** When Phase 1 returns *)

Lemma phase1_entries_succeed l :
  forall deps lf,
    (exists st, foldM phase1_entry l (deps, lf) = Ok st)
    <->
    (exists ds,
        Forall2 parses l ds /\
        NoDup (map pd_fullName ds) /\
        forall d, In d ds ->
          JsObject.has (lf_packages lf) (pd_fullName d) = true).
Proof.
  induction l as [|[name version] l IH]; intros deps lf.
  - split.
    + intros _. exists []. repeat split; [constructor | constructor |].
      intros d [].
    + intros _. simpl. eauto.
  - rewrite foldM_cons. split.
    + intros [st H]. apply bind_Ok in H as ([deps1 lf1] & E & H).
      apply phase1_entry_Ok in E as (d & pkg & Hd & Hp & ->).
      destruct (proj1 (IH _ _) (ex_intro _ st H)) as (ds & Hds & Hnd & Hin).
      pose proof (getPackage_remove _ _ _ _ Hp) as ->. simpl in Hin.
      exists (d :: ds). split; [constructor; assumption|]. split.
      * simpl. constructor; [|exact Hnd].
        intros Hc. apply in_map_iff in Hc as (d' & Heq & Hd').
        specialize (Hin d' Hd'). apply has_true in Hin.
        rewrite keys_delete in Hin. tauto.
      * intros d' [<- | Hd'].
        -- apply (proj1 (getPackage_succeeds lf d true)). eauto.
        -- specialize (Hin d' Hd'). apply has_true in Hin.
           rewrite keys_delete in Hin. apply has_true. tauto.
    + intros (ds & Hds & Hnd & Hin).
      inversion Hds as [|e d l' ds' Hd Hds']; subst. unfold parses in Hd.
      simpl in Hd, Hnd. inversion Hnd as [|? ? Hfresh Hnd']; subst.
      destruct (proj2 (getPackage_succeeds lf d true) (Hin d (or_introl eq_refl)))
        as [[pkg lf1] Hp].
      unfold phase1_entry at 1. rewrite Hd. simpl. rewrite Hp. simpl.
      apply IH. exists ds'. split; [exact Hds'|]. split; [exact Hnd'|].
      intros d' Hd'. pose proof (getPackage_remove _ _ _ _ Hp) as ->. simpl.
      apply has_true. rewrite keys_delete. split.
      * intros Heq. apply Hfresh. rewrite <- Heq. now apply in_map.
      * apply has_true. apply Hin. now right.
Qed.

(** X5.  Phase 1 returns exactly when every entry of the buckets parses,
    the full keys of the entries are distinct, and the lockfile has a
    snapshot for each of them.  In particular a package listed twice, in
    one bucket or in two, makes the conversion throw. *)
Theorem phase1_succeeds fields lockfile :
  ((exists st, phase1 fields lockfile = Ok st)
   <->
   (exists ds,
       Forall2 parses (bucket_entries fields lockfile) ds /\
       NoDup (map pd_fullName ds) /\
       forall d, In d ds ->
         JsObject.has (lf_packages lockfile) (pd_fullName d) = true))
  /\
  ((exists out, processLockfile fields lockfile = Ok out) ->
   exists st, phase1 fields lockfile = Ok st).
Proof.
  split.
  - rewrite phase1_flat. apply phase1_entries_succeed.
  - intros [out H]. apply processLockfile_Ok in H
      as (deps1 & lockfile1 & _ & _ & H1 & _). eauto.
Qed.

End ConsumeFacts.

(* ================================================================== *)
(** * Roots: precedence and promotion *)

Module PromotionFacts.
Import ObjFacts LoopFacts ResolverFacts ParserFacts Phase3Facts Phase12Facts.
Import ConsumeFacts.

Lemma In_keys_get {V : Type} (o : JsObject.t V) (k : string) :
  In k (JsObject.keys o) -> exists v, JsObject.get o k = Some v.
Proof.
  intros H. destruct (JsObject.get o k) as [v|] eqn:E; [eauto|].
  apply get_None in E. contradiction.
Qed.

Lemma phase2_entry_succeeds lockfile deps subdeps key snapshot :
  In key (JsObject.keys (lf_packages lockfile)) ->
  (exists st, phase2_entry lockfile (deps, subdeps) (key, snapshot) = Ok st)
  <-> exists d, getPathPackageDesc key = Ok d.
Proof.
  intros Hkey. split.
  - intros [[deps' subdeps'] H].
    apply phase2_entry_Ok in H as (d & _ & Hd & _). eauto.
  - intros [d Hd]. unfold phase2_entry. rewrite Hd. simpl.
    destruct (In_keys_get _ _ Hkey) as [s Hs].
    rewrite <- (getPathPackageDesc_fullName _ _ Hd) in Hs.
    destruct (getPackage_found lockfile d false s Hs) as (pkg & lf' & Hp).
    rewrite Hp. simpl.
    destruct (read_root deps (pd_name d)); eauto.
Qed.

Lemma phase2_fold_succeeds lockfile l :
  (forall key snapshot, In (key, snapshot) l ->
     In key (JsObject.keys (lf_packages lockfile))) ->
  forall st,
    (exists st', foldM (phase2_entry lockfile) l st = Ok st')
    <-> forall key snapshot, In (key, snapshot) l ->
          exists d, getPathPackageDesc key = Ok d.
Proof.
  induction l as [|[key0 s0] l IH]; intros Hl [deps subdeps].
  - split; [intros _ ? ? [] | intros _; simpl; eauto].
  - rewrite foldM_cons.
    assert (Hk0 : In key0 (JsObject.keys (lf_packages lockfile)))
      by (apply (Hl key0 s0); now left).
    assert (Hl' : forall key snapshot, In (key, snapshot) l ->
              In key (JsObject.keys (lf_packages lockfile)))
      by (intros key s Hin; apply (Hl key s); now right).
    split.
    + intros [st' H]. apply bind_Ok in H as (st1 & E & H).
      intros key s [Heq | Hin].
      * inversion Heq; subst.
        apply (phase2_entry_succeeds lockfile deps subdeps key s Hk0). eauto.
      * apply (proj1 (IH Hl' st1) (ex_intro _ st' H) key s Hin).
    + intros Hall.
      destruct (proj2 (phase2_entry_succeeds lockfile deps subdeps key0 s0 Hk0)
                  (Hall key0 s0 (or_introl eq_refl))) as [st1 E].
      rewrite E. simpl. apply IH; [exact Hl'|].
      intros key s Hin. apply (Hall key s). now right.
Qed.

(** X6.  Phase 2 returns exactly when the parser accepts every key that
    is left in the packages map; a single malformed key makes it, and
    the conversion, throw. *)
Theorem phase2_succeeds lockfile deps :
  (exists st, phase2 lockfile deps = Ok st)
  <-> forall key, In key (JsObject.keys (lf_packages lockfile)) ->
        exists d, getPathPackageDesc key = Ok d.
Proof.
  unfold phase2, JsObject.entries.
  rewrite (phase2_fold_succeeds lockfile (lf_packages lockfile)).
  - split.
    + intros H key Hkey. apply in_map_iff in Hkey as ([k s] & <- & Hin).
      exact (H k s Hin).
    + intros H key s Hin. apply H. exact (in_map fst _ _ Hin).
  - intros key s Hin. exact (in_map fst _ _ Hin).
Qed.

Lemma phase2_fold_keeps lockfile l k v :
  forall (deps : RootMap) subdeps (deps' : RootMap) subdeps',
    foldM (phase2_entry lockfile) l (deps, subdeps) = Ok (deps', subdeps') ->
    JsObject.get deps k = Some v -> JsObject.get deps' k = Some v.
Proof.
  intros deps subdeps deps' subdeps' H Hg.
  apply (foldM_invariant (phase2_entry lockfile)
           (fun st => JsObject.get (fst st) k = Some v) l)
    with (s := (deps, subdeps)) (s' := (deps', subdeps'));
    [| exact Hg | exact H].
  intros [d1 s1] [key snapshot] [d2 s2] _ Hs Hstep. cbn [fst snd] in *.
  apply phase2_entry_Ok in Hstep as (d & pkg & _ & _ & Hcase).
  destruct Hcase as [(_ & -> & _) | (Hh & -> & _)]; [exact Hs|].
  simpl. rewrite get_set_other; [exact Hs|].
  intros ->. apply read_root_None in Hh as (Hh & _). congruence.
Qed.

(** The first key of a name that the root map does not show is
    promoted. *)
Lemma phase2_first_wins lockfile pre key snapshot post d :
  forall (deps : RootMap) subdeps (deps' : RootMap) subdeps',
    foldM (phase2_entry lockfile) (pre ++ (key, snapshot) :: post)%list
      (deps, subdeps) = Ok (deps', subdeps') ->
    getPathPackageDesc key = Ok d ->
    read_root deps (pd_name d) = None ->
    (forall key' snapshot' d',
        In (key', snapshot') pre -> getPathPackageDesc key' = Ok d' ->
        pd_name d' <> pd_name d) ->
    exists pkg,
      getPackage lockfile d false = Ok (pkg, lockfile) /\
      JsObject.get deps' (pd_name d) = Some pkg.
Proof.
  intros deps subdeps deps' subdeps' H Hd Hfree Hpre.
  rewrite foldM_app in H. apply bind_Ok in H as ([da sa] & E1 & H).
  rewrite foldM_cons in H. apply bind_Ok in H as ([db sb] & E2 & H).
  assert (Hfa : read_root da (pd_name d) = None).
  { apply (foldM_invariant (phase2_entry lockfile)
             (fun st => read_root (fst st) (pd_name d) = None) pre)
      with (s := (deps, subdeps)) (s' := (da, sa)); [| exact Hfree | exact E1].
    intros [d1 s1] [k s] [d2 s2] Hin Hs Hstep. cbn [fst snd] in *.
    apply phase2_entry_Ok in Hstep as (d0 & pkg0 & Hd0 & _ & Hcase).
    destruct Hcase as [(_ & -> & _) | (_ & -> & _)]; [exact Hs|].
    rewrite read_root_update_other; [exact Hs|].
    intros Heq. exact (Hpre _ _ _ Hin Hd0 (eq_sym Heq)). }
  apply phase2_entry_Ok in E2 as (d0 & pkg & Hd0 & Hp & Hcase).
  rewrite Hd in Hd0. inversion Hd0; subst d0; clear Hd0.
  destruct Hcase as [(Hh & _) | (_ & -> & ->)]; [congruence|].
  exists pkg. split; [exact Hp|].
  apply (phase2_fold_keeps lockfile post _ _ _ _ _ _ H). simpl.
  apply get_set_same.
Qed.

(** Phase 2 creates no root under a name under which the root map
    shows a value. *)
Lemma phase2_shown lockfile l name :
  forall (deps : RootMap) subdeps (deps' : RootMap) subdeps',
    read_root deps name <> None ->
    foldM (phase2_entry lockfile) l (deps, subdeps) = Ok (deps', subdeps') ->
    JsObject.get deps' name = JsObject.get deps name /\
    read_root deps' name <> None.
Proof.
  intros deps subdeps deps' subdeps' Hname H.
  apply (foldM_invariant (phase2_entry lockfile)
           (fun st => JsObject.get (rm_own (fst st)) name
                      = JsObject.get deps name /\
                      read_root (fst st) name <> None) l)
    with (s := (deps, subdeps)) (s' := (deps', subdeps'));
    [| now split | exact H].
  intros [d1 s1] [key snapshot] [d2 s2] _ [Hg Hr] Hstep. cbn [fst snd] in *.
  apply phase2_entry_Ok in Hstep as (d & pkg & _ & _ & Hcase).
  destruct Hcase as [(_ & -> & _) | (Hh & -> & _)]; [now split|].
  assert (Hne : name <> pd_name d) by (intros ->; contradiction).
  split.
  - simpl. now rewrite get_set_other.
  - now rewrite read_root_update_other.
Qed.

(** A key under whose name the root map shows a value is staged. *)
Lemma phase2_stages lockfile pre key snapshot post d :
  forall (deps : RootMap) subdeps (deps' : RootMap) subdeps',
    foldM (phase2_entry lockfile) (pre ++ (key, snapshot) :: post)%list
      (deps, subdeps) = Ok (deps', subdeps') ->
    getPathPackageDesc key = Ok d ->
    read_root deps (pd_name d) <> None ->
    JsObject.has subdeps' key = true.
Proof.
  intros deps subdeps deps' subdeps' H Hd Hshown.
  rewrite foldM_app in H. apply bind_Ok in H as ([da sa] & E1 & H).
  rewrite foldM_cons in H. apply bind_Ok in H as ([db sb] & E2 & H).
  destruct (phase2_shown lockfile pre _ _ _ _ _ Hshown E1) as (_ & Hda).
  apply phase2_entry_Ok in E2 as (d0 & pkg & Hd0 & _ & Hcase).
  rewrite Hd in Hd0. inversion Hd0; subst d0; clear Hd0.
  destruct Hcase as [(_ & _ & ->) | (Hh & _)]; [|contradiction].
  apply (foldM_invariant (phase2_entry lockfile)
           (fun st => JsObject.has (snd st) key = true) post)
    with (s := (db, JsObject.set sa key pkg)) (s' := (deps', subdeps'));
    [| apply has_true, keys_set; now left | exact H].
  intros [d1 s1] [k s] [d2 s2] _ Hs Hstep. cbn [fst snd] in *.
  apply phase2_entry_Ok in Hstep as (d0 & pkg0 & _ & _ & Hcase).
  destruct Hcase as [(_ & _ & ->) | (_ & _ & ->)]; [|exact Hs].
  apply has_true, keys_set. right. now apply has_true.
Qed.

(** X7.  The roots that Phase 1 sets take precedence: whatever Phases 2
    and 3 do, the output has a root under each of their names with what
    the resolver found for it in Phase 1. *)
Theorem declared_roots_kept fields lockfile out deps1 lockfile1 name pkg :
  phase1 fields lockfile = Ok (deps1, lockfile1) ->
  processLockfile fields lockfile = Ok out ->
  JsObject.get deps1 name = Some pkg ->
  exists val,
    JsObject.get (npl_dependencies out) name = Some val /\
    same_resolution val pkg.
Proof.
  intros H1 H Hg.
  apply processLockfile_Ok in H
    as (deps1' & lockfile1' & deps2 & subdeps & H1' & H2 & H3 & _).
  rewrite H1 in H1'. inversion H1'; subst deps1' lockfile1'; clear H1'.
  pose proof (phase1_state_final _ _ _ _ H1) as [_ Hk1 Hnr1 _].
  cbn [fst snd] in *.
  destruct (phase2_state_final _ _ _ _ Hk1 Hnr1 H2) as (Hk2 & _).
  cbn [fst snd] in Hk2.
  exact (phase3_same _ _ _ Hk2 H3 _ _ (phase2_keeps_roots _ _ _ _ _ _ H2 Hg)).
Qed.

(** X8.  Take a key that Phase 1 leaves, of a name that is not a root
    after Phase 1.  When the root map shows nothing under that name,
    the first such key is promoted: the output has a root under that
    name with what the resolver finds for that key, whatever keys of
    the same name come later.  When the root map shows a value under
    that name, the key is staged and the output has no root of that
    name.  The root map shows a value under the name of every member of
    [Object.prototype], such as [constructor]; it shows nothing under
    another name, unless an entry of a bucket has replaced the
    prototype of the root map. *)
Theorem first_remaining_key_promoted
    fields lockfile out deps1 lockfile1 pre key snapshot post d :
  phase1 fields lockfile = Ok (deps1, lockfile1) ->
  processLockfile fields lockfile = Ok out ->
  JsObject.entries (lf_packages lockfile1)
  = (pre ++ (key, snapshot) :: post)%list ->
  getPathPackageDesc key = Ok d ->
  JsObject.has deps1 (pd_name d) = false ->
  (read_root deps1 (pd_name d) = None ->
   (forall key' snapshot' d',
       In (key', snapshot') pre -> getPathPackageDesc key' = Ok d' ->
       pd_name d' <> pd_name d) ->
   exists pkg val,
     getPackage lockfile d false = Ok (pkg, lockfile) /\
     JsObject.get (npl_dependencies out) (pd_name d) = Some val /\
     same_resolution val pkg)
  /\
  (read_root deps1 (pd_name d) <> None ->
   JsObject.get (npl_dependencies out) (pd_name d) = None /\
   exists deps2 subdeps,
     phase2 lockfile1 deps1 = Ok (deps2, subdeps) /\
     JsObject.has subdeps key = true)
  /\
  (JsObject.inherited (pd_name d) = true ->
   read_root deps1 (pd_name d) <> None)
  /\
  (JsObject.inherited (pd_name d) = false ->
   rm_proto deps1 = None ->
   read_root deps1 (pd_name d) = None).
Proof.
  intros H1 H Hentries Hd Hfree.
  apply processLockfile_Ok in H
    as (deps1' & lockfile1' & deps2 & subdeps & H1' & H2 & H3 & _).
  rewrite H1 in H1'. inversion H1'; subst deps1' lockfile1'; clear H1'.
  pose proof (phase1_state_final _ _ _ _ H1) as [Hsub Hk1 Hnr1 _].
  cbn [fst snd] in *.
  destruct (phase2_state_final _ _ _ _ Hk1 Hnr1 H2) as (Hk2 & _).
  cbn [fst snd] in Hk2.
  assert (Hnone : JsObject.get deps1 (pd_name d) = None).
  { unfold JsObject.has in Hfree.
    now destruct (JsObject.get deps1 (pd_name d)). }
  pose proof H2 as H2'. unfold phase2 in H2'. rewrite Hentries in H2'.
  split; [|split; [|split]].
  - intros Hread Hpre.
    destruct (phase2_first_wins lockfile1 pre key snapshot post d _ _ _ _
                H2' Hd Hread Hpre) as (pkg & Hp & Hg).
    destruct (getPackage_sublock _ _ _ _ false _ _ Hsub Hp)
      as (lockfile' & Hp').
    pose proof (getPackage_keep _ _ _ _ Hp') as ->.
    destruct (phase3_same _ _ _ Hk2 H3 _ _ Hg) as (val & Hval & Hsame).
    now exists pkg, val.
  - intros Hshown. split.
    + destruct (phase2_shown lockfile1 _ _ _ _ _ _ Hshown H2') as (Hg2 & _).
      rewrite Hnone in Hg2.
      apply get_None. rewrite (phase3_keys _ _ _ H3). now apply get_None.
    + exists deps2, subdeps. split; [exact H2|].
      exact (phase2_stages lockfile1 pre key snapshot post d _ _ _ _
               H2' Hd Hshown).
  - apply read_root_inherited.
  - intros Hplain Hproto.
    now rewrite (read_root_plain _ _ Hproto), Hnone, Hplain.
Qed.

End PromotionFacts.

(* ================================================================== *)
(** * When the conversion returns, and what it returns *)

Module ClosureFacts.
Import ObjFacts LoopFacts ResolverFacts ParserFacts Phase3Facts Phase12Facts.
Import ConsumeFacts PromotionFacts.

Lemma root_version_set deps key val name :
  root_version (update_root deps key val) name
  = if String.eqb name key then Some (dep_version val)
    else root_version deps name.
Proof.
  unfold root_version. destruct (String.eqb name key) eqn:E.
  - apply String.eqb_eq in E. subst name.
    now rewrite read_root_update_same.
  - apply String.eqb_neq in E. now rewrite read_root_update_other.
Qed.

Lemma settled_versions deps deps' subdeps name version :
  root_version deps name = root_version deps' name ->
  settled deps subdeps name version -> settled deps' subdeps name version.
Proof.
  intros E (d & Hd & H). exists d. split; [exact Hd|]. now rewrite <- E.
Qed.

(** One entry of a 'requires' is walked without an error exactly when it
    is settled in the root map of the moment. *)
Lemma phase3_require_succeeds store subdeps key val name version :
  dep_requires val <> None ->
  (exists val', phase3_require store subdeps key val (name, version) = Ok val')
  <-> settled (update_root store key val) subdeps name version.
Proof.
  intros Hreq. unfold settled, JsObject.has. split.
  - intros [val' H].
    apply phase3_require_Ok in H as (d & Hd & _ & _ & _ & Hv).
    exists d. split; [exact Hd|].
    destruct (JsObject.get subdeps (pd_fullName d)); [now left | right].
    now apply Hv.
  - intros (d & Hd & Hc). unfold phase3_require. rewrite Hd.
    assert (Hl : exists val1,
               phase3_lookup (update_root store key val) subdeps key val
                 name d = Ok val1 /\ dep_requires val1 <> None).
    { unfold phase3_lookup.
      destruct (JsObject.get subdeps (pd_fullName d)) as [dep|].
      - eexists. split; [reflexivity | exact Hreq].
      - destruct Hc as [Hc | Hc]; [discriminate|].
        unfold root_version in Hc.
        destruct (read_root (update_root store key val) name) as [dep|];
          [|discriminate].
        apply version_differs_false in Hc. rewrite Hc.
        exists val. split; [reflexivity | exact Hreq]. }
    destruct Hl as (val1 & Hl & Hreq1).
    change (exists val',
              (val0 <- phase3_lookup (update_root store key val) subdeps key
                         val name d ;;
               phase3_strip val0 name d) = Ok val').
    rewrite Hl. simpl. unfold phase3_strip.
    destruct (has_extraneous_info d); [|eauto].
    destruct (dep_requires val1); [eauto | contradiction].
Qed.

Lemma phase3_requires_succeed deps subdeps store key l :
  forall val,
    dep_requires val <> None ->
    (forall name, root_version (update_root store key val) name
                  = root_version deps name) ->
    (exists val', foldM (phase3_require store subdeps key) l val = Ok val')
    <-> forall name version, In (name, version) l ->
          settled deps subdeps name version.
Proof.
  induction l as [|[n0 v0] l IH]; intros val Hreq Hver.
  - split; [intros _ ? ? [] | intros _; simpl; eauto].
  - rewrite foldM_cons. split.
    + intros [val' H]. apply bind_Ok in H as (val1 & E & H).
      pose proof (proj1 (phase3_require_succeeds store subdeps key val n0 v0
                           Hreq) (ex_intro _ val1 E)) as Hs0.
      apply phase3_require_Ok in E as (d & _ & Hsame & Hr1 & _).
      assert (Hreq1 : dep_requires val1 <> None).
      { rewrite Hr1. destruct (has_extraneous_info d); [|exact Hreq].
        destruct (dep_requires val); [discriminate | contradiction]. }
      assert (Hver1 : forall name,
                root_version (update_root store key val1) name
                = root_version deps name).
      { intros name. rewrite <- Hver, !root_version_set.
        destruct Hsame as (-> & _). reflexivity. }
      intros name version [Heq | Hin].
      * inversion Heq; subst.
        exact (settled_versions _ _ _ _ _ (Hver name) Hs0).
      * exact (proj1 (IH val1 Hreq1 Hver1) (ex_intro _ val' H) _ _ Hin).
    + intros Hall.
      assert (Hs0 : settled (update_root store key val) subdeps n0 v0).
      { apply (settled_versions deps); [symmetry; apply Hver|].
        apply Hall. now left. }
      destruct (proj2 (phase3_require_succeeds store subdeps key val n0 v0
                         Hreq) Hs0) as [val1 E].
      rewrite E. simpl.
      apply phase3_require_Ok in E as (d & _ & Hsame & Hr1 & _).
      apply IH.
      * rewrite Hr1. destruct (has_extraneous_info d); [|exact Hreq].
        destruct (dep_requires val); [discriminate | contradiction].
      * intros name. rewrite <- Hver, !root_version_set.
        destruct Hsame as (-> & _). reflexivity.
      * intros name version Hin. apply Hall. now right.
Qed.

Lemma phase3_roots_succeed (deps : RootMap) subdeps l :
  (forall key val, In (key, val) l -> JsObject.get deps key = Some val) ->
  forall store,
    (forall name, root_version store name = root_version deps name) ->
    (exists deps', foldM (phase3_root subdeps) l store = Ok deps')
    <-> requires_settled deps subdeps l.
Proof.
  induction l as [|[key0 val0] l IH]; intros Hl store Hver.
  - split; [intros _ ? ? ? ? ? [] | intros _; simpl; eauto].
  - rewrite foldM_cons.
    assert (Hget0 : JsObject.get deps key0 = Some val0)
      by (apply Hl; now left).
    assert (Hl' : forall key val, In (key, val) l ->
              JsObject.get deps key = Some val)
      by (intros key val Hin; apply Hl; now right).
    assert (Hver0 : forall val,
              dep_version val = dep_version val0 ->
              forall name, root_version (update_root store key0 val) name
                           = root_version deps name).
    { intros val Hv name. rewrite root_version_set.
      destruct (String.eqb name key0) eqn:E; [|apply Hver].
      apply String.eqb_eq in E. subst name.
      unfold root_version. rewrite (read_root_own _ _ _ Hget0). simpl.
      now rewrite Hv. }
    unfold phase3_root at 1.
    destruct (dep_requires val0) as [requires|] eqn:Ereq.
    + pose proof (phase3_requires_succeed deps subdeps store key0
                    (JsObject.entries requires) val0
                    ltac:(rewrite Ereq; discriminate) (Hver0 val0 eq_refl))
        as Hinner.
      split.
      * intros [deps' H]. apply bind_Ok in H as (store1 & E & H).
        apply bind_Ok in E as (val1 & Ewalk & E). inversion E; subst store1.
        pose proof (phase3_requires_same _ _ _ _ _ _ Ewalk) as (Hv & _).
        intros key val requires' name version [Heq | Hin] Hr Hnv.
        -- inversion Heq; subst key val. rewrite Ereq in Hr.
           inversion Hr; subst requires'.
           exact (proj1 Hinner (ex_intro _ val1 Ewalk) _ _ Hnv).
        -- exact (proj1 (IH Hl' _ (Hver0 val1 Hv)) (ex_intro _ deps' H)
                    key val requires' name version Hin Hr Hnv).
      * intros Hall.
        destruct (proj2 Hinner) as [val1 Ewalk].
        { intros name version Hnv.
          exact (Hall key0 val0 requires name version
                   (or_introl eq_refl) Ereq Hnv). }
        rewrite Ewalk. simpl.
        pose proof (phase3_requires_same _ _ _ _ _ _ Ewalk) as (Hv & _).
        apply (IH Hl' _ (Hver0 val1 Hv)).
        intros key val requires' name version Hin Hr Hnv.
        exact (Hall key val requires' name version (or_intror Hin) Hr Hnv).
    + simpl. rewrite (IH Hl' store Hver). split.
      * intros Hall key val requires' name version [Heq | Hin] Hr Hnv.
        -- inversion Heq; subst. congruence.
        -- exact (Hall key val requires' name version Hin Hr Hnv).
      * intros Hall key val requires' name version Hin Hr Hnv.
        exact (Hall key val requires' name version (or_intror Hin) Hr Hnv).
Qed.

Lemma phase3_succeeds (deps : RootMap) subdeps :
  NoDup (JsObject.keys deps) ->
  (exists deps', phase3 subdeps deps = Ok deps')
  <-> requires_settled deps subdeps deps.
Proof.
  intros Hnd. unfold phase3, JsObject.entries.
  apply phase3_roots_succeed; [|reflexivity].
  intros key val Hin. now apply In_get.
Qed.

(** X9.  The conversion returns exactly when Phases 1 and 2 return and
    every entry of the 'requires' of every root is settled: it parses,
    and its package is staged or is the root of that name at that
    version. *)
Theorem conversion_succeeds fields lockfile :
  (exists out, processLockfile fields lockfile = Ok out)
  <->
  (exists deps1 lockfile1 deps subdeps,
      phase1 fields lockfile = Ok (deps1, lockfile1) /\
      phase2 lockfile1 deps1 = Ok (deps, subdeps) /\
      requires_settled deps subdeps deps).
Proof.
  split.
  - intros [out H]. apply processLockfile_Ok in H
      as (deps1 & lockfile1 & deps & subdeps & H1 & H2 & H3 & _).
    exists deps1, lockfile1, deps, subdeps.
    split; [exact H1|]. split; [exact H2|].
    pose proof (phase1_state_final _ _ _ _ H1) as [_ Hk1 Hnr1 _]. simpl in *.
    destruct (phase2_state_final _ _ _ _ Hk1 Hnr1 H2) as (Hk2 & _).
    simpl in Hk2. apply (phase3_succeeds _ _ Hk2). eauto.
  - intros (deps1 & lockfile1 & deps & subdeps & H1 & H2 & Hall).
    pose proof (phase1_state_final _ _ _ _ H1) as [_ Hk1 Hnr1 _]. simpl in *.
    destruct (phase2_state_final _ _ _ _ Hk1 Hnr1 H2) as (Hk2 & _).
    simpl in Hk2.
    destruct (proj2 (phase3_succeeds _ _ Hk2) Hall) as [deps3 H3].
    unfold processLockfile. rewrite H1. simpl. rewrite H2. simpl.
    rewrite H3. simpl. eauto.
Qed.


(** Phase 3 keeps the versions that the root map shows. *)
Lemma phase3_versions subdeps (deps deps' : RootMap) :
  NoDup (JsObject.keys deps) ->
  phase3 subdeps deps = Ok deps' ->
  forall name, root_version deps' name = root_version deps name.
Proof.
  intros Hnd H. unfold phase3 in H.
  apply (foldM_invariant (phase3_root subdeps)
           (fun store => forall name,
                root_version store name = root_version deps name)
           (JsObject.entries deps)) with (s := deps);
    [| reflexivity | exact H].
  intros store [key val] store' Hin Hstore Hstep name.
  apply phase3_root_Ok in Hstep.
  destruct (dep_requires val) as [requires|]; [|subst; apply Hstore].
  destruct Hstep as (val' & Hwalk & ->).
  rewrite root_version_set.
  destruct (String.eqb name key) eqn:E; [|apply Hstore].
  apply String.eqb_eq in E. subst name.
  pose proof (phase3_requires_same _ _ _ _ _ _ Hwalk) as (Hv & _).
  unfold root_version.
  rewrite (read_root_own _ _ _ (In_get _ _ _ Hnd Hin)). simpl.
  now rewrite Hv.
Qed.

(** X10.  In the output no 'requires' entry dangles.  Take a root as
    Phase 2 leaves it and an entry of its 'requires'.  Either the
    package of the entry is staged, and then in the output it is nested
    under that root, under the name of the entry (but for the name
    [__proto__], which the map of nested records does not store).  Or
    it is not staged, and then the root map of the output shows the
    version of the entry's descriptor under the name of the entry: it
    has a root of that name at that version, unless an entry of a
    bucket has replaced the prototype of the root map. *)
Theorem requires_are_backed fields lockfile out :
  processLockfile fields lockfile = Ok out ->
  exists deps1 lockfile1 deps subdeps,
    phase1 fields lockfile = Ok (deps1, lockfile1) /\
    phase2 lockfile1 deps1 = Ok (deps, subdeps) /\
    forall key val requires name version,
      JsObject.get deps key = Some val ->
      dep_requires val = Some requires ->
      NoDup (JsObject.keys requires) ->
      In (name, version) (JsObject.entries requires) ->
      exists d val',
        getDependencyPackageDesc name version = Ok d /\
        JsObject.get (npl_dependencies out) key = Some val' /\
        ((exists dep,
             JsObject.get subdeps (pd_fullName d) = Some dep /\
             (name <> "__proto__" ->
              JsObject.get (or_empty (dep_dependencies val')) name
              = Some (getSubDependencyFromDependency dep)))
         \/
         (JsObject.get subdeps (pd_fullName d) = None /\
          root_version (npl_dependencies out) name = Some (pd_version d) /\
          (rm_proto (npl_dependencies out) = None ->
           exists root,
             JsObject.get (npl_dependencies out) name = Some root /\
             dep_version root = pd_version d))).
Proof.
  intros H.
  apply processLockfile_Ok in H
    as (deps1 & lockfile1 & deps & subdeps & H1 & H2 & H3 & _).
  exists deps1, lockfile1, deps, subdeps.
  split; [exact H1|]. split; [exact H2|].
  intros key val requires name version Hget Hreq Hnd Hin.
  pose proof (phase1_state_final _ _ _ _ H1) as [_ Hk1 Hnr1 _].
  cbn [fst snd] in *.
  destruct (phase2_state_final _ _ _ _ Hk1 Hnr1 H2) as (Hk2 & _).
  cbn [fst snd] in Hk2.
  pose proof (proj1 (phase3_succeeds _ _ Hk2) (ex_intro _ _ H3)
                key val requires name version (get_In _ _ _ Hget) Hreq Hin)
    as (d & Hd & Hsettled).
  destruct (phase3_root_record _ _ _ _ _ Hk2 H3 (get_In _ _ _ Hget))
    as (val' & Hval' & Hwalk).
  rewrite Hreq in Hwalk. destruct Hwalk as (store & _ & _ & Hwalk).
  destruct (phase3_requires_entries store subdeps key _ Hnd val val' requires
              Hreq (fun n v Hnv => In_get _ _ _ Hnd Hnv) Hwalk)
    as (requires' & _ & _ & Hentries).
  destruct (Hentries _ _ Hin) as (d0 & Hd0 & _ & Hnest).
  rewrite Hd in Hd0. inversion Hd0; subst d0; clear Hd0.
  exists d, val'. split; [exact Hd|]. split; [exact Hval'|].
  destruct (JsObject.get subdeps (pd_fullName d)) as [dep|] eqn:Es.
  - left. exists dep. split; [reflexivity | now apply Hnest].
  - right. split; [reflexivity|].
    destruct Hsettled as [Hs | Hs].
    + unfold JsObject.has in Hs. rewrite Es in Hs. discriminate.
    + split; [now rewrite (phase3_versions _ _ _ Hk2 H3)|].
      intros Hproto. rewrite (phase3_roots_proto _ _ _ _ H3) in Hproto.
      unfold root_version in Hs. rewrite (read_root_plain _ _ Hproto) in Hs.
      destruct (JsObject.get deps name) as [r|] eqn:Er.
      * simpl in Hs. inversion Hs as [Hv].
        destruct (phase3_same _ _ _ Hk2 H3 _ _ Er) as (root & Hroot & Hsame).
        exists root. split; [exact Hroot|].
        destruct Hsame as (Hsame & _). congruence.
      * destruct (JsObject.inherited name); discriminate.
Qed.

(** X11.  Phase 3 edits the roots in place: the output has the roots of
    Phase 2, in the same order, and every root has the names of its
    'requires', in the same order; only values of 'requires' change and
    only 'dependencies' are added. *)
Theorem roots_and_requires_kept fields lockfile out :
  processLockfile fields lockfile = Ok out ->
  exists deps1 lockfile1 deps subdeps,
    phase1 fields lockfile = Ok (deps1, lockfile1) /\
    phase2 lockfile1 deps1 = Ok (deps, subdeps) /\
    JsObject.keys (npl_dependencies out) = JsObject.keys deps /\
    forall key val,
      JsObject.get deps key = Some val ->
      exists val',
        JsObject.get (npl_dependencies out) key = Some val' /\
        same_resolution val' val /\
        option_map JsObject.keys (dep_requires val')
        = option_map JsObject.keys (dep_requires val).
Proof.
  intros H.
  apply processLockfile_Ok in H
    as (deps1 & lockfile1 & deps & subdeps & H1 & H2 & H3 & _).
  exists deps1, lockfile1, deps, subdeps.
  split; [exact H1|]. split; [exact H2|].
  split; [exact (phase3_keys _ _ _ H3)|].
  intros key val Hget.
  pose proof (phase1_state_final _ _ _ _ H1) as [_ Hk1 Hnr1 _]. simpl in *.
  destruct (phase2_state_final _ _ _ _ Hk1 Hnr1 H2) as (Hk2 & _).
  simpl in Hk2.
  destruct (phase3_root_record _ _ _ _ _ Hk2 H3 (get_In _ _ _ Hget))
    as (val' & Hval' & Hwalk).
  exists val'. split; [exact Hval'|].
  destruct (dep_requires val) as [requires|] eqn:Hreq.
  - destruct Hwalk as (store & _ & _ & Hwalk).
    split; [exact (phase3_requires_same _ _ _ _ _ _ Hwalk)|].
    destruct (phase3_requires_keys store subdeps key _ val val' requires
                Hreq (fun n v Hnv => in_map fst _ _ Hnv) Hwalk)
      as (r' & Hr' & Hk').
    rewrite Hr'. simpl. now rewrite Hk'.
  - subst val'. split; [apply same_resolution_refl|]. now rewrite Hreq.
Qed.


(** ** Where the records of the output come from *)

Lemma resolved_from_sublock lf lockfile key d remove pkg lf' :
  sublock lf lockfile ->
  getPathPackageDesc key = Ok d ->
  getPackage lf d remove = Ok (pkg, lf') ->
  resolved_from lockfile (pd_name d) pkg.
Proof.
  intros Hsub Hd Hp.
  destruct (getPackage_sublock _ _ _ _ false _ _ Hsub Hp) as (lockfile' & Hp').
  pose proof (getPackage_keep _ _ _ _ Hp') as ->.
  exists key, d. split; [|split; [exact Hd | split; [reflexivity | exact Hp']]].
  apply getPackage_Ok in Hp' as (snapshot & Hs & _).
  rewrite (getPathPackageDesc_fullName _ _ Hd) in Hs.
  apply get_In in Hs. exact (in_map fst _ _ Hs).
Qed.

Lemma phase1_resolved fields lockfile (deps1 : RootMap) lockfile1 :
  phase1 fields lockfile = Ok (deps1, lockfile1) ->
  forall name pkg, In (name, pkg) deps1 -> resolved_from lockfile name pkg.
Proof.
  rewrite phase1_flat. intros H.
  apply (foldM_invariant phase1_entry
           (fun st => sublock (snd st) lockfile /\
                      forall name pkg, In (name, pkg) (rm_own (fst st)) ->
                        resolved_from lockfile name pkg)
           (bucket_entries fields lockfile))
    with (s := (empty_root, lockfile)) (s' := (deps1, lockfile1));
    [| | exact H].
  - intros [x1 x2] [n v] [y1 y2] _ [Hsub Hres] Hstep. cbn [fst snd] in *.
    apply phase1_entry_Ok in Hstep as (d & pkg & Hd & Hp & ->).
    split; [exact (sublock_remove _ _ _ _ _ Hsub Hp)|].
    intros name pkg' Hin.
    assert (Hin' : (name = pd_name d /\ pkg' = pkg) \/ In (name, pkg') x1).
    { unfold assign_root in Hin.
      destruct (_ && _); simpl in Hin; [now right | now apply In_set]. }
    destruct Hin' as [[-> ->] | Hin'].
    + exact (resolved_from_sublock _ _ _ _ _ _ _ Hsub
               (getDependencyPackageDesc_key _ _ _ Hd) Hp).
    + now apply Hres.
  - split; [apply sublock_refl | intros ? ? []].
Qed.

Lemma phase2_resolved lockfile lockfile1 (deps1 deps : RootMap) subdeps :
  sublock lockfile1 lockfile ->
  (forall name pkg, In (name, pkg) deps1 -> resolved_from lockfile name pkg) ->
  phase2 lockfile1 deps1 = Ok (deps, subdeps) ->
  (forall name pkg, In (name, pkg) deps -> resolved_from lockfile name pkg) /\
  (forall key pkg, In (key, pkg) subdeps ->
     exists name, resolved_from lockfile name pkg).
Proof.
  intros Hsub Hres H. unfold phase2 in H.
  apply (foldM_invariant (phase2_entry lockfile1)
           (fun st =>
              (forall name pkg, In (name, pkg) (rm_own (fst st)) ->
                 resolved_from lockfile name pkg) /\
              (forall key pkg, In (key, pkg) (snd st) ->
                 exists name, resolved_from lockfile name pkg))
           (JsObject.entries (lf_packages lockfile1)))
    with (s := (deps1, JsObject.empty)) (s' := (deps, subdeps));
    [| | exact H].
  - intros [x1 x2] [key snapshot] [y1 y2] _ [Hd Hs] Hstep. cbn [fst snd] in *.
    apply phase2_entry_Ok in Hstep as (d & pkg & Hkey & Hp & Hcase).
    pose proof (resolved_from_sublock _ _ _ _ _ _ _ Hsub Hkey Hp) as Hr.
    destruct Hcase as [(_ & -> & ->) | (_ & -> & ->)].
    + split; [exact Hd|]. intros k pkg' Hin.
      apply In_set in Hin as [[_ ->] | Hin]; [eauto | now apply (Hs k)].
    + split; [|exact Hs]. intros name pkg' Hin. simpl in Hin.
      apply In_set in Hin as [[-> ->] | Hin]; [exact Hr | now apply Hd].
  - split; [exact Hres | intros ? ? []].
Qed.

Lemma phase3_nested subdeps (deps deps' : RootMap) :
  (forall name val, In (name, val) deps -> dep_dependencies val = None) ->
  phase3 subdeps deps = Ok deps' ->
  forall name val,
    In (name, val) deps' ->
    (exists val0, In (name, val0) deps /\ same_resolution val val0) /\
    forall m sub,
      In (m, sub) (or_empty (dep_dependencies val)) ->
      exists key dep,
        JsObject.get subdeps key = Some dep /\
        sub = getSubDependencyFromDependency dep.
Proof.
  intros Hnone H. unfold phase3 in H.
  apply (foldM_invariant (phase3_root subdeps)
           (fun store : RootMap =>
              forall name val, In (name, val) store ->
                (exists val0, In (name, val0) deps /\ same_resolution val val0)
                /\
                forall m sub,
                  In (m, sub) (or_empty (dep_dependencies val)) ->
                  exists key dep,
                    JsObject.get subdeps key = Some dep /\
                    sub = getSubDependencyFromDependency dep)
           (JsObject.entries deps)) with (s := deps); [| | exact H].
  - intros store [key val0] store' Hin0 Hstore Hstep.
    apply phase3_root_Ok in Hstep.
    destruct (dep_requires val0) as [requires|]; [|now subst].
    destruct Hstep as (val' & Hwalk & ->).
    intros name val Hin. simpl in Hin.
    apply In_set in Hin as [[-> ->] | Hin]; [|now apply Hstore].
    split.
    + exists val0. split; [exact Hin0|].
      exact (phase3_requires_same _ _ _ _ _ _ Hwalk).
    + apply (foldM_invariant (phase3_require store subdeps key)
               (fun v => forall m sub,
                           In (m, sub) (or_empty (dep_dependencies v)) ->
                           exists k dep,
                             JsObject.get subdeps k = Some dep /\
                             sub = getSubDependencyFromDependency dep)
               (JsObject.entries requires)) with (s := val0);
        [| | exact Hwalk].
      * intros v [n ver] v' _ Hv Hstep.
        apply phase3_require_Ok in Hstep as (d & _ & _ & _ & Hdep & _).
        intros m sub Hm. rewrite Hdep in Hm.
        destruct (JsObject.get subdeps (pd_fullName d)) as [dep|] eqn:Es;
          [|exact (Hv m sub Hm)].
        simpl in Hm. apply In_assign in Hm as [[_ ->] | Hm]; [eauto|].
        exact (Hv m sub Hm).
      * intros m sub Hm. rewrite (Hnone _ _ Hin0) in Hm. destruct Hm.
  - intros name val Hin. split.
    + exists val. split; [exact Hin | apply same_resolution_refl].
    + intros m sub Hm. rewrite (Hnone _ _ Hin) in Hm. destruct Hm.
Qed.

(** X12.  The conversion invents nothing.  Every root of the output
    carries what the resolver finds in the source lockfile for a key of
    its snapshots, under the descriptor that the parser gives for that
    key, whose name is the name of the root; and every record nested
    under a root is the projection of such a record. *)
Theorem output_provenance fields lockfile out name val :
  processLockfile fields lockfile = Ok out ->
  In (name, val) (npl_dependencies out) ->
  (exists pkg, resolved_from lockfile name pkg /\ same_resolution val pkg) /\
  forall m sub,
    In (m, sub) (or_empty (dep_dependencies val)) ->
    exists name' pkg',
      resolved_from lockfile name' pkg' /\
      sub = getSubDependencyFromDependency pkg'.
Proof.
  intros H Hin.
  apply processLockfile_Ok in H
    as (deps1 & lockfile1 & deps & subdeps & H1 & H2 & H3 & _).
  pose proof (phase1_state_final _ _ _ _ H1) as [Hsub _ _ _]. simpl in Hsub.
  pose proof (phase1_resolved _ _ _ _ H1) as Hres1.
  destruct (phase2_resolved _ _ _ _ _ Hsub Hres1 H2) as [Hres2 Hstaged].
  assert (Hnone : forall n v, In (n, v) deps -> dep_dependencies v = None).
  { intros n v Hnv. destruct (Hres2 _ _ Hnv) as (k & d & _ & _ & _ & Hp).
    now apply getPackage_Ok in Hp as (? & _ & _ & _ & _ & _ & _ & Hd & _). }
  destruct (phase3_nested _ _ _ Hnone H3 _ _ Hin)
    as [(val0 & Hin0 & Hsame) Hnested].
  split.
  - exists val0. split; [exact (Hres2 _ _ Hin0) | exact Hsame].
  - intros m sub Hm. destruct (Hnested _ _ Hm) as (key & dep & Hg & ->).
    destruct (Hstaged _ _ (get_In _ _ _ Hg)) as [name' Hr].
    now exists name', dep.
Qed.

End ClosureFacts.

(* ================================================================== *)
(** * The conversion *)

Module ReshaperFacts.
Import ObjFacts LoopFacts ResolverFacts ParserFacts Phase3Facts Phase12Facts.
Import StrFacts Grammar.
Import ConsumeFacts PromotionFacts ClosureFacts.

Lemma getSubDependencyFromDependency_resolved dep :
  sub_resolved (getSubDependencyFromDependency dep) = dep_resolved dep.
Proof.
  unfold getSubDependencyFromDependency.
  now destruct (dep_resolved dep), (dep_integrity dep).
Qed.

Lemma phase3_require_no_resolved deps subdeps key val entry val' :
  Forall (fun e => no_resolved (snd e)) subdeps ->
  no_resolved val ->
  phase3_require deps subdeps key val entry = Ok val' ->
  no_resolved val'.
Proof.
  destruct entry as [name version]. intros Hsub [Hr Hd] H.
  apply phase3_require_Ok in H as (d & _ & Hsame & _ & Hdep & _).
  split.
  - destruct Hsame as (_ & -> & _). exact Hr.
  - intros subs Hsubs. rewrite Hdep in Hsubs.
    destruct (JsObject.get subdeps (pd_fullName d)) as [dep|] eqn:Eg.
    + inversion Hsubs; subst subs; clear Hsubs.
      apply (Forall_assign (fun sub => sub_resolved sub = None)).
      * destruct (dep_dependencies val) as [dm|]; [now apply Hd|].
        constructor.
      * rewrite getSubDependencyFromDependency_resolved.
        exact (proj1 (Forall_get _ _ _ _ Hsub Eg)).
    + now apply Hd.
Qed.

Lemma phase3_no_resolved subdeps (deps deps' : RootMap) :
  Forall (fun e => no_resolved (snd e)) subdeps ->
  Forall (fun e => no_resolved (snd e)) deps ->
  phase3 subdeps deps = Ok deps' ->
  Forall (fun e => no_resolved (snd e)) deps'.
Proof.
  intros Hsub Hdeps H. unfold phase3 in H.
  apply (foldM_invariant (phase3_root subdeps)
           (fun m => Forall (fun e => no_resolved (snd e)) m)
           (JsObject.entries deps)) with (s := deps);
    [| exact Hdeps | exact H].
  intros m [key val] m' Hin Hm Hstep.
  apply phase3_root_Ok in Hstep.
  destruct (dep_requires val) as [requires|]; [|now subst].
  destruct Hstep as (val' & Hf & ->).
  apply Forall_set; [exact Hm|].
  apply (foldM_invariant (phase3_require m subdeps key) no_resolved
           (JsObject.entries requires)) with (s := val); [| |exact Hf].
  - intros s a s' _ Hs Hstep.
    exact (phase3_require_no_resolved _ _ _ _ _ _ Hsub Hs Hstep).
  - rewrite Forall_forall in Hdeps. exact (Hdeps _ Hin).
Qed.

(** C10.  The resolver never sets [resolved], so that no root of the
    output and no record nested under a root has a [resolved] field. *)
Theorem resolved_is_absent :
  (forall lockfile packageDesc remove dep lockfile',
      getPackage lockfile packageDesc remove = Ok (dep, lockfile') ->
      dep_resolved dep = None)
  /\
  (forall fields lockfile out,
      processLockfile fields lockfile = Ok out ->
      forall key val,
        In (key, val) (npl_dependencies out) ->
        dep_resolved val = None /\
        forall subs name sub,
          dep_dependencies val = Some subs ->
          In (name, sub) subs ->
          sub_resolved sub = None).
Proof.
  split.
  - intros lockfile packageDesc remove dep lockfile' H.
    exact (proj1 (getPackage_no_resolved _ _ _ _ _ H)).
  - intros fields lockfile out H key val Hin.
    apply processLockfile_Ok in H
      as (deps1 & lockfile1 & deps2 & subdeps & H1 & H2 & H3 & _).
    apply phase1_state_final in H1 as [_ Hk1 Hnr1 _]. simpl in *.
    destruct (phase2_state_final _ _ _ _ Hk1 Hnr1 H2) as (_ & Hnr2 & Hnrs).
    simpl in *.
    pose proof (phase3_no_resolved _ _ _ Hnrs Hnr2 H3) as Hnr3.
    rewrite Forall_forall in Hnr3. destruct (Hnr3 _ Hin) as [Hr Hd].
    split; [exact Hr|]. intros subs name sub Hsubs Hsub.
    specialize (Hd subs Hsubs). rewrite Forall_forall in Hd.
    exact (Hd _ Hsub).
Qed.



(** The rewriting condition of line 253, on the fields of the
    descriptor. *)
Lemma has_extraneous_info_true d :
  has_extraneous_info d = true <-> pd_extra d <> None \/ pd_type d = Uri.
Proof.
  unfold has_extraneous_info.
  destruct (pd_extra d) as [x|], (pd_type d); simpl; split;
    try (intros _; left; discriminate);
    try (intros _; right; reflexivity);
    try (intros _; reflexivity);
    try discriminate;
    intros [H | H]; congruence.
Qed.

Lemma has_extraneous_info_false d :
  has_extraneous_info d = false <-> pd_extra d = None /\ pd_type d <> Uri.
Proof.
  unfold has_extraneous_info.
  destruct (pd_extra d) as [x|], (pd_type d); simpl; split;
    try discriminate;
    try (intros [H _]; discriminate);
    try (intros [_ H]; congruence);
    intros _; split; (reflexivity || discriminate).
Qed.

Lemma getPathPackageDesc_bare fullName d :
  getPathPackageDesc fullName = Ok d ->
  has_extraneous_info d = true ->
  Str.none Str.is_underscore (pd_version d) = true.
Proof.
  intros H Hx. destruct (Str.startsWith fullName "github.com/") eqn:Hg.
  - unfold getPathPackageDesc in H. rewrite Hg in H. simpl in H.
    unfold getGithubPackageDesc in H.
    destruct (exec_github_re fullName) as [[[g1 g2] g3]|]; [|discriminate].
    inversion H; subst. discriminate.
  - destruct (getPathPackageDesc_Ok_groups _ _ Hg H) as [segment He].
    destruct (getPathPackageDesc_groups _ _ _ Hg He)
      as (d' & Hd' & _ & _ & _ & Hsplit).
    rewrite H in Hd'. inversion Hd'; subst d'.
    destruct Hsplit as [(Hn & -> & _) | (pre & post & _ & Hn & -> & _)];
      exact Hn.
Qed.

Lemma getDependencyPackageDesc_bare name version d :
  getDependencyPackageDesc name version = Ok d ->
  has_extraneous_info d = true ->
  Str.none Str.is_underscore (pd_version d) = true.
Proof.
  unfold getDependencyPackageDesc.
  destruct (starts_with_digit version); apply getPathPackageDesc_bare.
Qed.


(** C6.  Take a root as Phase 2 leaves it and an entry of its
    'requires'.  In the output, the entry of that name in the
    'requires' of the root is the version of the descriptor, which has
    no underscore, when the descriptor has an extra or is of kind
    [Uri]; when it has no extra and is not of kind [Uri], it is the
    specifier as it was. *)
Theorem requires_stripped fields lockfile out :
  processLockfile fields lockfile = Ok out ->
  exists deps1 lockfile1 deps subdeps,
    phase1 fields lockfile = Ok (deps1, lockfile1) /\
    phase2 lockfile1 deps1 = Ok (deps, subdeps) /\
    forall key val requires name version,
      JsObject.get deps key = Some val ->
      dep_requires val = Some requires ->
      NoDup (JsObject.keys requires) ->
      In (name, version) (JsObject.entries requires) ->
      exists d val' requires',
        getDependencyPackageDesc name version = Ok d /\
        JsObject.get (npl_dependencies out) key = Some val' /\
        dep_requires val' = Some requires' /\
        (pd_extra d <> None \/ pd_type d = Uri ->
         JsObject.get requires' name = Some (pd_version d) /\
         Str.none Str.is_underscore (pd_version d) = true) /\
        (pd_extra d = None -> pd_type d <> Uri ->
         JsObject.get requires' name = Some version).
Proof.
  intros H.
  apply processLockfile_Ok in H
    as (deps1 & lockfile1 & deps & subdeps & H1 & H2 & H3 & _).
  exists deps1, lockfile1, deps, subdeps.
  split; [exact H1|]. split; [exact H2|].
  intros key val requires name version Hget Hreq Hnd Hin.
  apply phase1_state_final in H1 as [_ Hk1 Hnr1 _]. cbn [fst snd] in *.
  destruct (phase2_state_final _ _ _ _ Hk1 Hnr1 H2) as (Hk2 & _).
  cbn [fst snd] in Hk2.
  destruct (phase3_root_record _ _ _ _ _ Hk2 H3 (get_In _ _ _ Hget))
    as (val' & Hval' & Hwalk).
  rewrite Hreq in Hwalk. destruct Hwalk as (store & _ & _ & Hwalk).
  destruct (phase3_requires_entries store subdeps key _ Hnd val val' requires
              Hreq (fun n v Hnv => In_get _ _ _ Hnd Hnv) Hwalk)
    as (requires' & Hreq' & _ & Hentries).
  destruct (Hentries _ _ Hin) as (d & Hd & Hr & _).
  exists d, val', requires'.
  split; [exact Hd|]. split; [exact Hval'|]. split; [exact Hreq'|].
  split.
  - intros Hx. apply has_extraneous_info_true in Hx. rewrite Hx in Hr.
    split; [exact Hr|]. exact (getDependencyPackageDesc_bare _ _ _ Hd Hx).
  - intros Hextra Htype.
    assert (Hx : has_extraneous_info d = false)
      by now apply has_extraneous_info_false.
    now rewrite Hx in Hr.
Qed.






(** C2, as the code has it.  [readPnpmLockfile] returns the document
    that was read, answers [null] when the file does not exist, and
    lets every other failure through.  [processPnpmLockfile] converts
    the document, throws an error that quotes the path when the file
    does not exist, and lets every other failure through. *)
Theorem missing_lockfile fields readYamlFile lockfilePath :
  (forall lockfile,
      readYamlFile lockfilePath = Ok lockfile ->
      readPnpmLockfile readYamlFile lockfilePath = Ok (Some lockfile) /\
      processPnpmLockfile fields readYamlFile lockfilePath
      = processLockfile fields lockfile)
  /\
  (forall message,
      readYamlFile lockfilePath = Throw (JsError (Some "ENOENT") message) ->
      readPnpmLockfile readYamlFile lockfilePath = Ok None /\
      processPnpmLockfile fields readYamlFile lockfilePath
      = throwError ("Failed to load pnpm lock file " ++ lockfilePath))
  /\
  (forall err,
      readYamlFile lockfilePath = Throw err ->
      (forall message, err <> JsError (Some "ENOENT") message) ->
      readPnpmLockfile readYamlFile lockfilePath = Throw err /\
      processPnpmLockfile fields readYamlFile lockfilePath = Throw err).
Proof.
  unfold processPnpmLockfile, readPnpmLockfile.
  split; [|split].
  - intros lockfile ->. split; reflexivity.
  - intros message ->. split; reflexivity.
  - intros err -> Hne.
    assert (Hc : code_is_not err "ENOENT" = true).
    { destruct err as [[c|] message|p]; try reflexivity. simpl.
      apply negb_true_iff, String.eqb_neq. intros ->. now apply (Hne message). }
    rewrite Hc. split; reflexivity.
Qed.

End ReshaperFacts.

(* ================================================================== *)
(** * Cases *)

Module Cases.
Import Examples Grammar.
Import ParserFacts ResolverFacts ReshaperFacts.

(** The package names that the source lists as examples. *)
Example package_names_look_like :
  getPathPackageDesc "/@pnpm/error/1.0.0"
  = Ok (mkDesc Version "/@pnpm/error/1.0.0" "@pnpm/error" "1.0.0" None) /\
  getPathPackageDesc "/@pnpm/lockfile-file/1.1.3_@pnpm+logger@2.1.1"
  = Ok (mkDesc Version "/@pnpm/lockfile-file/1.1.3_@pnpm+logger@2.1.1"
          "@pnpm/lockfile-file" "1.1.3" (Some "@pnpm+logger@2.1.1")) /\
  getPathPackageDesc "/@emotion/core/10.0.14_react@16.8.6"
  = Ok (mkDesc Version "/@emotion/core/10.0.14_react@16.8.6"
          "@emotion/core" "10.0.14" (Some "react@16.8.6")) /\
  getPathPackageDesc "/@uc/modal-loader/0.7.1_2eb23211954108c6f87c7fe8e90d1312"
  = Ok (mkDesc Version
          "/@uc/modal-loader/0.7.1_2eb23211954108c6f87c7fe8e90d1312"
          "@uc/modal-loader" "0.7.1"
          (Some "2eb23211954108c6f87c7fe8e90d1312")) /\
  getPathPackageDesc "npm.example.com/axios/0.19.0"
  = Ok (mkDesc Uri "npm.example.com/axios/0.19.0" "axios" "0.19.0" None) /\
  getPathPackageDesc "npm.example.com/@sentry/node/5.1.0_@other@1.2.3"
  = Ok (mkDesc Uri "npm.example.com/@sentry/node/5.1.0_@other@1.2.3"
          "@sentry/node" "5.1.0" (Some "@other@1.2.3")) /\
  getPathPackageDesc
    "github.com/LewisArdern/eslint-plugin-angularjs-security-rules/41da01727c87119bd523e69e22af2d04ab558ec9"
  = Ok (mkDesc Github
          "github.com/LewisArdern/eslint-plugin-angularjs-security-rules/41da01727c87119bd523e69e22af2d04ab558ec9"
          "eslint-plugin-angularjs-security-rules"
          "github:LewisArdern/eslint-plugin-angularjs-security-rules#41da01727c87119bd523e69e22af2d04ab558ec9"
          None) /\
  getPathPackageDesc "not-a-valid-key"
  = throwError "Error parsing package name not-a-valid-key" /\
  getDependencyPackageDesc "@scope/pkg" "1.2.0"
  = Ok (mkDesc Version "/@scope/pkg/1.2.0" "@scope/pkg" "1.2.0" None).
Proof. repeat split; reflexivity. Qed.

(** The scenarios of the specification: a scoped root, a package promoted
    in Phase 2, and a package staged and nested under the root that
    requires it, with the suffix of its specifier removed. *)
Example scenarios :
  exists out scoped foo baz bar,
    processLockfile DEPENDENCIES_FIELDS_spec nested = Ok out /\
    JsObject.keys (npl_dependencies out) = ["@scope/pkg"; "foo"; "baz"; "bar"] /\
    JsObject.get (npl_dependencies out) "@scope/pkg" = Some scoped /\
    dep_version scoped = "1.2.0" /\ dep_integrity scoped = Some "sha-ABC" /\
    JsObject.get (npl_dependencies out) "foo" = Some foo /\
    dep_version foo = "1.0.0" /\ dep_requires foo = Some [("bar", "2.0.0")] /\
    dep_dependencies foo = None /\
    JsObject.get (npl_dependencies out) "bar" = Some bar /\
    dep_version bar = "2.0.0" /\
    JsObject.get (npl_dependencies out) "baz" = Some baz /\
    dep_requires baz = Some [("foo", "1.1.0")] /\
    dep_dependencies baz
    = Some [("foo", mkSubDependency "1.1.0" None (Some "sha-foo11"))].
Proof. do 5 eexists. repeat split; reflexivity. Qed.

(** C9.  A root requires the package [c] under the alias [b].  The full
    key of the descriptor is not staged, for [c] was promoted to a
    root, and the root map has no entry for the name [b]: the read of
    [deps[name].version] raises a [TypeError], in whatever order the
    buckets are walked. *)
Theorem requires_without_root :
  exists deps1 lockfile1 deps subdeps val d,
    phase1 DEPENDENCIES_FIELDS_spec aliased_requires = Ok (deps1, lockfile1) /\
    phase2 lockfile1 deps1 = Ok (deps, subdeps) /\
    JsObject.get deps "a" = Some val /\
    dep_requires val = Some [("b", "/c/1.0.0")] /\
    getDependencyPackageDesc "b" "/c/1.0.0" = Ok d /\
    JsObject.get subdeps (pd_fullName d) = None /\
    JsObject.get deps "b" = None /\
    read_root deps "b" = None /\
    Forall (fun fields =>
              processLockfile fields aliased_requires
              = Throw (JsTypeError "version"))
      field_orders.
Proof.
  do 6 eexists. repeat split; try reflexivity.
  repeat constructor.
Qed.

(** The same with a requirement that the lockfile does not have. *)
Example dangling_requires_type_error :
  processLockfile DEPENDENCIES_FIELDS_spec dangling_requires
  = Throw (JsTypeError "version").
Proof. reflexivity. Qed.

(** A package whose name is a member of [Object.prototype] and that no
    bucket lists is staged, not promoted: the root map shows the member
    under its name.  A root that requires such a name, when the package
    is not staged, fails the version check with the error of the
    check. *)
Example members_of_the_prototype :
  (exists deps1 lockfile1 deps subdeps pkg out,
      phase1 DEPENDENCIES_FIELDS_spec member_name = Ok (deps1, lockfile1) /\
      phase2 lockfile1 deps1 = Ok (deps, subdeps) /\
      read_root deps1 "constructor" = Some another /\
      JsObject.get subdeps "/constructor/1.0.0" = Some pkg /\
      processLockfile DEPENDENCIES_FIELDS_spec member_name = Ok out /\
      JsObject.keys (npl_dependencies out) = ["a"]) /\
  processLockfile DEPENDENCIES_FIELDS_spec member_required
  = Throw (JsError None
             "Failed to lookup /constructor/1.0.0 in dependencies; used by a").
Proof.
  split; [|reflexivity]. do 6 eexists. repeat split; reflexivity.
Qed.


(** C2 as stated fails.  When the lockfile does not exist the entry
    point throws. *)
Lemma entry_point_throws_counterexample :
  processPnpmLockfile DEPENDENCIES_FIELDS_spec no_such_file "pnpm-lock.yaml"
  = Throw (JsError None "Failed to load pnpm lock file pnpm-lock.yaml").
Proof. reflexivity. Qed.


(** ** The theorems at work *)


Lemma missing_lockfile_witness :
  no_such_file "pnpm-lock.yaml"
  = Throw (JsError (Some "ENOENT")
             "ENOENT: no such file or directory, open 'pnpm-lock.yaml'") /\
  readPnpmLockfile no_such_file "pnpm-lock.yaml" = Ok None /\
  processPnpmLockfile DEPENDENCIES_FIELDS_spec no_such_file "pnpm-lock.yaml"
  = throwError "Failed to load pnpm lock file pnpm-lock.yaml" /\
  readPnpmLockfile unreadable_file "pnpm-lock.yaml"
  = Throw (JsError (Some "EACCES")
             "EACCES: permission denied, open 'pnpm-lock.yaml'") /\
  processPnpmLockfile DEPENDENCIES_FIELDS_spec unreadable_file "pnpm-lock.yaml"
  = Throw (JsError (Some "EACCES")
             "EACCES: permission denied, open 'pnpm-lock.yaml'").
Proof.
  split; [reflexivity|].
  destruct (missing_lockfile DEPENDENCIES_FIELDS_spec no_such_file
              "pnpm-lock.yaml") as (_ & Habsent & _).
  destruct (Habsent _ eq_refl) as [Hr Hp].
  destruct (missing_lockfile DEPENDENCIES_FIELDS_spec unreadable_file
              "pnpm-lock.yaml") as (_ & _ & Hother).
  destruct (Hother _ eq_refl) as [Hr' Hp']; [discriminate|].
  repeat split; assumption.
Defined.



Lemma getPathPackageDesc_path_form_witness :
  getPathPackageDesc "/@pnpm/lockfile-file/1.1.3_@pnpm+logger@2.1.1"
  = Ok (mkDesc Version "/@pnpm/lockfile-file/1.1.3_@pnpm+logger@2.1.1"
          "@pnpm/lockfile-file" "1.1.3" (Some "@pnpm+logger@2.1.1")) /\
  exists d,
    getPathPackageDesc
      ("npm.example.com" ++ "/" ++ ("@" ++ "sentry" ++ "/" ++ "node")
       ++ "/" ++ "5.1.0_@other@1.2.3") = Ok d /\
    pd_name d = "@sentry/node" /\ pd_type d = Uri.
Proof.
  split.
  - destruct (proj1 getPathPackageDesc_path_form
                "/@pnpm/lockfile-file/1.1.3_@pnpm+logger@2.1.1"
                (mkDesc Version "/@pnpm/lockfile-file/1.1.3_@pnpm+logger@2.1.1"
                   "@pnpm/lockfile-file" "1.1.3" (Some "@pnpm+logger@2.1.1"))
                eq_refl eq_refl) as (registry & segment & _).
    reflexivity.
  - destruct (proj2 getPathPackageDesc_path_form
                "npm.example.com" ("@" ++ "sentry" ++ "/" ++ "node")
                "5.1.0_@other@1.2.3" eq_refl)
      as (d & Hd & Hn & Ht & _).
    + discriminate.
    + exact (scoped_name "sentry" "node" eq_refl eq_refl eq_refl eq_refl).
    + reflexivity.
    + exists d. repeat split; assumption.
Defined.

Lemma getGithubPackageDesc_grammar_witness :
  github_key github_uri "LewisArdern" "rules" commit /\
  getPathPackageDesc github_uri
  = Ok (mkDesc Github github_uri "rules"
          ("github:LewisArdern/rules#" ++ commit) None) /\
  Str.startsWith "github.com/LewisArdern" "github.com/" = true /\
  getPathPackageDesc "github.com/LewisArdern"
  = throwError "Error parsing github URI github.com/LewisArdern".
Proof.
  assert (Hkey : github_key github_uri "LewisArdern" "rules" commit)
    by (repeat split; reflexivity).
  split; [exact Hkey|]. split.
  - exact (proj2 (proj1 getGithubPackageDesc_grammar github_uri
                    "LewisArdern" "rules" commit Hkey)).
  - split; [reflexivity|].
    apply (proj2 getGithubPackageDesc_grammar "github.com/LewisArdern"
             eq_refl).
    intros owner repo c (E & _).
    change "github.com/LewisArdern" with ("github.com/" ++ "LewisArdern") in E.
    change ("github.com/" ++ owner ++ "/" ++ repo ++ "/" ++ c)
      with ("github.com/" ++ (owner ++ "/" ++ repo ++ "/" ++ c)) in E.
    inversion E as [E'].
    assert (Hs : Str.split_slash "LewisArdern" = None) by reflexivity.
    rewrite E' in Hs. apply StrFacts.split_slash_None in Hs.
    rewrite StrFacts.none_append in Hs. simpl in Hs.
    rewrite andb_false_r in Hs. discriminate.
Defined.

Lemma requires_stripped_witness :
  (exists val requires,
      JsObject.get
        (npl_dependencies (converted DEPENDENCIES_FIELDS_spec nested)) "baz"
      = Some val /\
      dep_requires val = Some requires /\
      JsObject.get requires "foo" = Some "1.1.0") /\
  (exists val requires,
      JsObject.get
        (npl_dependencies (converted DEPENDENCIES_FIELDS_spec from_registry))
        "a"
      = Some val /\
      dep_requires val = Some requires /\
      JsObject.get requires "b" = Some "1.0.0") /\
  (exists val requires,
      JsObject.get
        (npl_dependencies (converted DEPENDENCIES_FIELDS_spec nested)) "foo"
      = Some val /\
      dep_requires val = Some requires /\
      JsObject.get requires "bar" = Some "2.0.0").
Proof.
  split; [|split].
  - destruct (requires_stripped DEPENDENCIES_FIELDS_spec nested
                (converted DEPENDENCIES_FIELDS_spec nested) eq_refl)
      as (deps1 & lockfile1 & deps & subdeps & H1 & H2 & Hstrip).
    vm_compute in H1. inversion H1; subst; clear H1.
    vm_compute in H2. inversion H2; subst; clear H2.
    destruct (Hstrip "baz"
                (mkDependency "1.0.0" None None (Some "sha-baz") None
                   (Some [("foo", "1.1.0_x")]) None)
                [("foo", "1.1.0_x")] "foo" "1.1.0_x" eq_refl eq_refl)
      as (d & val' & requires' & Hd & Hval' & Hreq' & Hx & _).
    + distinct_keys.
    + now left.
    + vm_compute in Hd. inversion Hd; subst d; clear Hd.
      exists val', requires'.
      split; [exact Hval'|]. split; [exact Hreq'|].
      apply Hx. left. discriminate.
  - destruct (requires_stripped DEPENDENCIES_FIELDS_spec from_registry
                (converted DEPENDENCIES_FIELDS_spec from_registry) eq_refl)
      as (deps1 & lockfile1 & deps & subdeps & H1 & H2 & Hstrip).
    vm_compute in H1. inversion H1; subst; clear H1.
    vm_compute in H2. inversion H2; subst; clear H2.
    destruct (Hstrip "a"
                (mkDependency "1.0.0" None None (Some "sha-a") None
                   (Some [("b", "npm.example.com/b/1.0.0")]) None)
                [("b", "npm.example.com/b/1.0.0")] "b"
                "npm.example.com/b/1.0.0" eq_refl eq_refl)
      as (d & val' & requires' & Hd & Hval' & Hreq' & Hx & _).
    + distinct_keys.
    + now left.
    + vm_compute in Hd. inversion Hd; subst d; clear Hd.
      exists val', requires'.
      split; [exact Hval'|]. split; [exact Hreq'|].
      apply Hx. right. reflexivity.
  - destruct (requires_stripped DEPENDENCIES_FIELDS_spec nested
                (converted DEPENDENCIES_FIELDS_spec nested) eq_refl)
      as (deps1 & lockfile1 & deps & subdeps & H1 & H2 & Hstrip).
    vm_compute in H1. inversion H1; subst; clear H1.
    vm_compute in H2. inversion H2; subst; clear H2.
    destruct (Hstrip "foo"
                (mkDependency "1.0.0" None None (Some "sha-foo") None
                   (Some [("bar", "2.0.0")]) None)
                [("bar", "2.0.0")] "bar" "2.0.0" eq_refl eq_refl)
      as (d & val' & requires' & Hd & Hval' & Hreq' & _ & Hkeep).
    + distinct_keys.
    + now left.
    + vm_compute in Hd. inversion Hd; subst d; clear Hd.
      exists val', requires'.
      split; [exact Hval'|]. split; [exact Hreq'|].
      apply Hkeep; [reflexivity | discriminate].
Defined.

Lemma getPackage_dev_witness :
  (exists dep lockfile',
      getPackage dev_flags (mkDesc Version "/a/1.0.0" "a" "1.0.0" None) false
      = Ok (dep, lockfile') /\ dep_dev dep = Some true)
  /\
  (exists dep lockfile',
      getPackage dev_flags (mkDesc Version "/b/1.0.0" "b" "1.0.0" None) false
      = Ok (dep, lockfile') /\ dep_dev dep = None).
Proof.
  split.
  - destruct (getPackage_dev dev_flags
                (mkDesc Version "/a/1.0.0" "a" "1.0.0" None) false _ eq_refl)
      as (dep & lockfile' & H & Hdev & _).
    exists dep, lockfile'. split; [exact H | now apply Hdev].
  - destruct (getPackage_dev dev_flags
                (mkDesc Version "/b/1.0.0" "b" "1.0.0" None) false _ eq_refl)
      as (dep & lockfile' & H & _ & Hdev & _).
    exists dep, lockfile'. split; [exact H | apply Hdev; discriminate].
Defined.

Lemma resolved_is_absent_witness :
  processLockfile DEPENDENCIES_FIELDS_spec nested
  = Ok (converted DEPENDENCIES_FIELDS_spec nested) /\
  Forall (fun entry =>
            dep_resolved (snd entry) = None /\
            Forall (fun sub => sub_resolved (snd sub) = None)
              (or_empty (dep_dependencies (snd entry))))
    (npl_dependencies (converted DEPENDENCIES_FIELDS_spec nested)).
Proof.
  split; [reflexivity|].
  apply Forall_forall. intros [key val] Hin.
  destruct (proj2 resolved_is_absent DEPENDENCIES_FIELDS_spec nested
              (converted DEPENDENCIES_FIELDS_spec nested) eq_refl
              key val Hin) as [Hr Hsubs].
  split; [exact Hr|]. apply Forall_forall. intros [name sub] Hsub.
  simpl in Hsub.
  destruct (dep_dependencies val) as [subs|] eqn:E; simpl in Hsub;
    [|destruct Hsub].
  exact (Hsubs subs name sub eq_refl Hsub).
Defined.

End Cases.

(* ================================================================== *)
(** * Facts about the action *)

Module ActionFacts.
Import Action.

(** ** The checks *)

Lemma exec_outside_None class s :
  exec_outside class s = None <-> Str.all class s = true.
Proof.
  induction s as [|c s IH]; simpl; [tauto|].
  destruct (class c); simpl; [exact IH | split; discriminate].
Qed.

Lemma isStringAgainstRegexOK_all s class :
  isStringAgainstRegexOK s class = Str.all class s.
Proof.
  unfold isStringAgainstRegexOK.
  destruct (exec_outside class s) eqn:E; destruct (Str.all class s) eqn:A;
    try reflexivity.
  - apply exec_outside_None in A. congruence.
  - apply exec_outside_None in E. congruence.
Qed.

Lemma checkSnykToken_cases t :
  (Str.all token_char t = true /\ checkSnykToken t = Ok tt) \/
  (Str.all token_char t = false /\
   checkSnykToken t = throwError "Unauthorized characters in snyk token").
Proof.
  unfold checkSnykToken. rewrite isStringAgainstRegexOK_all.
  destruct (Str.all token_char t); auto.
Qed.

Lemma checkSnykArgs_cases a :
  (Str.all args_char a = true /\ checkSnykArgs a = Ok tt) \/
  (Str.all args_char a = false /\
   checkSnykArgs a = throwError "Unauthorized characters in snyk args").
Proof.
  unfold checkSnykArgs. rewrite isStringAgainstRegexOK_all.
  destruct (Str.all args_char a); auto.
Qed.

Lemma args_char_plain c : args_char c = true -> shell_special c = false.
Proof.
  destruct c as [b0 b1 b2 b3 b4 b5 b6 b7].
  destruct b0, b1, b2, b3, b4, b5, b6, b7; vm_compute; congruence.
Qed.

Lemma all_none (p q : ascii -> bool) s :
  (forall c, p c = true -> q c = false) ->
  Str.all p s = true -> Str.none q s = true.
Proof.
  intros Hpq. unfold Str.none.
  induction s as [|c s IH]; simpl; [reflexivity|].
  intros H. apply andb_true_iff in H as [Hc Hs].
  now rewrite (Hpq c Hc), (IH Hs).
Qed.

(** X13.  The token passes its check exactly when all its characters are
    among [a-f], the digits and the hyphen; the arguments pass theirs
    exactly when all their characters are letters, digits or one of
    underscore, equals sign, dot, double quote, slash and hyphen.  So
    arguments that pass hold no blank and none of the characters with
    which a shell separates, chains or substitutes commands. *)
Theorem inputs_checked :
  (forall t, checkSnykToken t = Ok tt <-> Str.all token_char t = true) /\
  (forall t, checkSnykToken t <> Ok tt ->
     checkSnykToken t = throwError "Unauthorized characters in snyk token") /\
  (forall a, checkSnykArgs a = Ok tt <-> Str.all args_char a = true) /\
  (forall a, checkSnykArgs a <> Ok tt ->
     checkSnykArgs a = throwError "Unauthorized characters in snyk args") /\
  (forall a, checkSnykArgs a = Ok tt -> Str.none shell_special a = true).
Proof.
  repeat split.
  - intros H. destruct (checkSnykToken_cases t) as [[A _] | [_ E]];
      [exact A | rewrite E in H; discriminate].
  - intros A. destruct (checkSnykToken_cases t) as [[_ E] | [A' _]];
      [exact E | congruence].
  - intros t H. destruct (checkSnykToken_cases t) as [[_ E] | [_ E]];
      [contradiction | exact E].
  - intros H. destruct (checkSnykArgs_cases a) as [[A _] | [_ E]];
      [exact A | rewrite E in H; discriminate].
  - intros A. destruct (checkSnykArgs_cases a) as [[_ E] | [A' _]];
      [exact E | congruence].
  - intros a H. destruct (checkSnykArgs_cases a) as [[_ E] | [_ E]];
      [contradiction | exact E].
  - intros a H. destruct (checkSnykArgs_cases a) as [[A _] | [_ E]];
      [| rewrite E in H; discriminate].
    exact (all_none _ _ _ args_char_plain A).
Qed.


(** ** Reasoning on traces *)

Section Traces.

Context {W : Type}.
Variable env : Environment W.
Variable fields : list DependenciesField.

Local Abbreviation M := (@Action.M W).

Variable Q : Event -> Prop.

Lemma Forall_snoc (t : list Event) (e : Event) :
  Forall Q t -> Q e -> Forall Q (t ++ [e])%list.
Proof. intros Ht He. apply Forall_app. split; [exact Ht | now constructor]. Qed.

Lemma keeps_ret {A} (a : A) : keeps Q (@ret W A a).
Proof. intros w t Ht. exact Ht. Qed.

Lemma keeps_throw {A} err : keeps Q (@throw W A err).
Proof. intros w t Ht. exact Ht. Qed.

Lemma keeps_emit e : Q e -> keeps Q (@emit W e).
Proof. intros He w t Ht. now apply Forall_snoc. Qed.

Lemma keeps_log text : Q (Log text) -> keeps Q (@log W text).
Proof. apply keeps_emit. Qed.

Lemma keeps_exit {A} code : Q (Exit code) -> keeps Q (@exit W A code).
Proof. intros He w t Ht. now apply Forall_snoc. Qed.

Lemma keeps_bind {A B} (m : M A) (k : A -> M B) :
  keeps Q m -> (forall a, keeps Q (k a)) -> keeps Q (bindM m k).
Proof.
  intros Hm Hk w t Ht. unfold bindM. specialize (Hm w t Ht).
  destruct (m w t) as [a w' t' | err w' t' | code w' t']; simpl in *;
    [now apply Hk | exact Hm | exact Hm].
Qed.

Lemma keeps_try {A} (m : M A) (h : Thrown -> M A) :
  keeps Q m -> (forall err, keeps Q (h err)) -> keeps Q (try_catch m h).
Proof.
  intros Hm Hh w t Ht. unfold try_catch. specialize (Hm w t Ht).
  destruct (m w t) as [a w' t' | err w' t' | code w' t']; simpl in *;
    [exact Hm | now apply Hh | exact Hm].
Qed.

(** What follows a call that may throw is reasoned on under the
    assumption that the call returned. *)
Lemma keeps_bind_lift {A B} (r : result A) (k : A -> M B) :
  (forall a, r = Ok a -> keeps Q (k a)) ->
  keeps Q (bindM (@lift W A r) k).
Proof.
  intros Hk w t Ht. unfold bindM, lift.
  destruct r as [a|e]; simpl; [now apply (Hk a) | exact Ht].
Qed.

Lemma keeps_exec command cwd :
  Q (Exec command cwd) -> keeps Q (exec env command cwd).
Proof.
  intros He w t Ht. unfold exec.
  destruct (execSync env w command cwd) as [w' [out|err]]; simpl;
    now apply Forall_snoc.
Qed.

Lemma keeps_readFile path :
  Q (ReadFile path) -> keeps Q (readFile env path).
Proof.
  intros He w t Ht. unfold readFile.
  destruct (readFileSync env w path) as [content|err]; simpl;
    now apply Forall_snoc.
Qed.

Lemma keeps_delta input :
  Q (GetDelta input) -> keeps Q (delta env input).
Proof.
  intros He w t Ht. unfold delta.
  destruct (getDelta env w input) as [w' [result|err]]; simpl;
    now apply Forall_snoc.
Qed.

Lemma keeps_bind_convert {B} path (k : NpmPackageLock -> M B) :
  Q (ReadLockfile path) ->
  (forall packageLock,
      (exists w, processPnpmLockfile fields (readYamlFile env w) path
                 = Ok packageLock) ->
      keeps Q (k packageLock)) ->
  keeps Q (bindM (convert env fields path) k).
Proof.
  intros He Hk w t Ht. unfold bindM, convert.
  destruct (processPnpmLockfile fields (readYamlFile env w) path)
    as [packageLock|e] eqn:E; simpl.
  - apply Hk; [eauto | now apply Forall_snoc].
  - now apply Forall_snoc.
Qed.

Lemma keeps_write packageLock filename :
  Q (WriteFile filename (JSON_stringify env packageLock)) ->
  keeps Q (writeNpmPackageLock env packageLock filename).
Proof.
  intros He w t Ht. unfold writeNpmPackageLock.
  destruct (writeFileAtomic env w filename (JSON_stringify env packageLock))
    as [w' [err|]]; simpl; now apply Forall_snoc.
Qed.

Lemma keeps_lift {A} (r : result A) : keeps Q (@lift W A r).
Proof. intros w t Ht. unfold lift. now destruct r. Qed.

Lemma keeps_getInput name value : keeps Q (getInput env name value).
Proof.
  intros w t Ht. unfold getInput.
  now destruct (getInput_throws env w name).
Qed.

Lemma keeps_setFailed e : Q e -> keeps Q (setFailed env e).
Proof.
  intros He w t Ht. unfold setFailed.
  destruct (setFailed_throws env w); simpl; [exact Ht | now apply Forall_snoc].
Qed.

(** What follows the read of an input is reasoned on for the value that
    the read returns. *)
Lemma keeps_bind_getInput {B} name value (k : string -> M B) :
  keeps Q (k value) -> keeps Q (bindM (getInput env name value) k).
Proof.
  intros Hk w t Ht. unfold bindM, getInput.
  destruct (getInput_throws env w name); simpl; [exact Ht | now apply Hk].
Qed.

Lemma keeps_bind_path {B} (inputs : Inputs) (k : string -> M B) :
  keeps Q (k (working_directory inputs)) ->
  keeps Q
    (bindM
       (if in_pnpmLockfilePath inputs =? "." then ret "/"
        else getInput env "pnpmLockfilePath" (in_pnpmLockfilePath inputs))
       k).
Proof.
  unfold working_directory. intros Hk.
  destruct (in_pnpmLockfilePath inputs =? ".").
  - intros w t Ht. now apply Hk.
  - now apply keeps_bind_getInput.
Qed.

Lemma keeps_bind_payload {B} payload (k : Payload -> M B) :
  keeps Q (k payload) -> keeps Q (bindM (context_payload env payload) k).
Proof.
  intros Hk w t Ht. unfold bindM, context_payload.
  destruct (payload_throws env w); simpl; [exact Ht | now apply Hk].
Qed.

Lemma keeps_log_stdout err :
  (forall text, Q (Log text)) -> keeps Q (@log_stdout W err).
Proof.
  intros Hl. unfold log_stdout.
  destruct (thrown_stdout err); [now apply keeps_log | apply keeps_throw].
Qed.

Lemma bindM_returned {A B} (m : M A) (k : A -> M B) w t a w' t' :
  m w t = Returned a w' t' -> bindM m k w t = k a w' t'.
Proof. intros H. unfold bindM. now rewrite H. Qed.

Lemma bindM_threw {A B} (m : M A) (k : A -> M B) w t err w' t' :
  m w t = Threw err w' t' -> bindM m k w t = Threw err w' t'.
Proof. intros H. unfold bindM. now rewrite H. Qed.

(** ** Stepping through a run *)

Lemma getInput_returned name value w t :
  getInput_throws env w name = None ->
  getInput env name value w t = Returned value w t.
Proof. intros H. unfold getInput. now rewrite H. Qed.

Lemma path_returned (inputs : Inputs) w t :
  getInput_throws env w "pnpmLockfilePath" = None ->
  (if in_pnpmLockfilePath inputs =? "." then ret "/"
   else getInput env "pnpmLockfilePath" (in_pnpmLockfilePath inputs)) w t
  = Returned (working_directory inputs) w t.
Proof.
  intros H. unfold working_directory.
  destruct (in_pnpmLockfilePath inputs =? "."); [reflexivity|].
  now apply getInput_returned.
Qed.

Lemma payload_returned payload w t :
  payload_throws env w = None ->
  context_payload env payload w t = Returned payload w t.
Proof. intros H. unfold context_payload. now rewrite H. Qed.

(** What the [catch] of [runAction] does with an error. *)
Lemma handler_reports (inputs : Inputs) err w t :
  can_fail_build env inputs w ->
  bindM (@log W "Failed Check !")
    (fun _ => if in_breakBuild inputs =? "true"
              then setFailed env (SetFailedError err)
              else emit (LogError err)) w t
  = Returned tt w (t ++ failure_report inputs err)%list.
Proof.
  intros Hf. unfold bindM, log, emit, setFailed, failure_report,
    can_fail_build in *.
  destruct (in_breakBuild inputs =? "true") eqn:Eb.
  - apply String.eqb_eq in Eb. rewrite (Hf Eb).
    now rewrite <- app_assoc.
  - now rewrite <- app_assoc.
Qed.

(** Where a run can throw: at the read before the [try], or at
    [setFailed] in the [catch]. *)
Lemma guarded_run (body : string -> M unit) value w :
  match
    bindM (getInput env "breakBuild" value)
      (fun breakBuild =>
         try_catch (body breakBuild)
           (fun err =>
              bindM (log "Failed Check !")
                (fun _ => if breakBuild =? "true"
                          then setFailed env (SetFailedError err)
                          else emit (LogError err)))) w []
  with
  | Threw err w' t =>
      (getInput_throws env w "breakBuild" = Some err /\ w' = w /\ t = []) \/
      (getInput_throws env w "breakBuild" = None /\ value = "true" /\
       setFailed_throws env w' = Some err)
  | _ => getInput_throws env w "breakBuild" = None
  end.
Proof.
  unfold bindM at 1, getInput.
  destruct (getInput_throws env w "breakBuild") as [err0|] eqn:Eg;
    [left; now repeat split|].
  unfold try_catch.
  destruct (body value w []) as [a w1 t1 | err1 w1 t1 | code w1 t1];
    try reflexivity.
  unfold bindM, log, emit, setFailed.
  destruct (value =? "true") eqn:Eb; [|reflexivity].
  apply String.eqb_eq in Eb.
  destruct (setFailed_throws env w1) as [err2|] eqn:Es; [|reflexivity].
  right. now repeat split.
Qed.

End Traces.

Ltac keeps_step :=
  first
    [ progress intros
    | apply keeps_ret | apply keeps_throw | apply keeps_lift
    | apply keeps_log_stdout
    | apply keeps_log | apply keeps_emit | apply keeps_exit
    | apply keeps_exec | apply keeps_readFile | apply keeps_delta
    | apply keeps_write | apply keeps_setFailed
    | apply keeps_bind_getInput | apply keeps_bind_path
    | apply keeps_bind_payload
    | apply keeps_bind_lift | apply keeps_bind_convert
    | apply keeps_bind | apply keeps_try
    | match goal with
      | |- keeps _ (if ?b then _ else _) => destruct b eqn:?
      end ].

Section RunAction.

Context {W : Type}.
Variable env : Environment W.
Variable fields : list DependenciesField.
Variable inputs : Inputs.
Variable payload : Payload.

(** X14.  [runAction] throws, so that the promise it returns is
    rejected, in two cases only: when the read of [breakBuild], which
    stands before the [try], throws, and then nothing has been done;
    and when [breakBuild] is ["true"] and [setFailed] throws in the
    [catch].  The first case does occur when that read throws.  Every
    other error is caught.  When [breakBuild] is not ["true"] the
    action does not fail the build: it calls [setFailed] in no case and
    exits with no other code than 0. *)
Theorem errors_are_caught :
  (forall w err w' t,
      runAction env fields inputs payload w [] = Threw err w' t ->
      (getInput_throws env w "breakBuild" = Some err /\ w' = w /\ t = []) \/
      (getInput_throws env w "breakBuild" = None /\
       in_breakBuild inputs = "true" /\
       setFailed_throws env w' = Some err))
  /\
  (forall w err,
      getInput_throws env w "breakBuild" = Some err ->
      runAction env fields inputs payload w [] = Threw err w [])
  /\
  (forall w,
      getInput_throws env w "breakBuild" = None ->
      in_breakBuild inputs <> "true" \/
      (forall w', setFailed_throws env w' = None) ->
      match runAction env fields inputs payload w [] with
      | Threw _ _ _ => False
      | _ => True
      end)
  /\
  (in_breakBuild inputs <> "true" ->
   forall w,
     Forall harmless (trace_of (runAction env fields inputs payload w []))).
Proof.
  split; [|split; [|split]].
  - intros w err w' t H.
    unfold runAction in H. cbv zeta in H.
    match type of H with
    | bindM _ (fun b => try_catch (@?body b) _) _ _ = _ =>
        pose proof (guarded_run env body (in_breakBuild inputs) w) as Hrun
    end.
    cbv beta in Hrun. rewrite H in Hrun. exact Hrun.
  - intros w err H. unfold runAction, bindM, getInput. now rewrite H.
  - intros w Hread Hsafe.
    unfold runAction. cbv zeta.
    match goal with
    | |- match bindM _ (fun b => try_catch (@?body b) _) _ _ with _ => _ end =>
        pose proof (guarded_run env body (in_breakBuild inputs) w) as Hrun
    end.
    cbv beta in Hrun.
    match goal with
    | |- match ?run with _ => _ end =>
        destruct run as [a w' t | err w' t | code w' t]; try exact I
    end.
    destruct Hrun as [(Hthrows & _) | (_ & Hb & Hs)]; [congruence|].
    destruct Hsafe as [Hne | Hnone]; [contradiction|].
    rewrite Hnone in Hs. discriminate.
  - intros Hb w. apply String.eqb_neq in Hb.
    assert (H : keeps harmless (runAction env fields inputs payload)).
    { unfold runAction, scan_failed.
      apply keeps_bind_getInput. cbv zeta. rewrite Hb. simpl negb.
      repeat keeps_step; simpl; auto. }
    apply H. constructor.
Qed.

(** The check of the arguments, which is skipped when they are empty. *)
Lemma arguments_pass w t :
  in_snykArguments inputs = "" \/
  checkSnykArgs (in_snykArguments inputs) = Ok tt ->
  (if negb (in_snykArguments inputs =? "")
   then @lift W unit (checkSnykArgs (in_snykArguments inputs))
   else ret tt) w t = Returned tt w t.
Proof.
  intros Ha.
  destruct (in_snykArguments inputs =? "") eqn:Ea; simpl; [reflexivity|].
  destruct Ha as [Ha | Ha]; [apply String.eqb_neq in Ea; contradiction|].
  now rewrite Ha.
Qed.

(** X15.  Every command that [runAction] runs is run after the token,
    and the arguments unless they are empty, have passed their checks.
    It is the authentication with the token, or it runs in the
    directory of the lockfile: the monitoring of the organization with
    the arguments on a push, a [snyk test] on a pull request, and
    nothing on another event. *)
Theorem commands_are_checked w :
  Forall (command_ok inputs payload)
    (trace_of (runAction env fields inputs payload w [])).
Proof.
  assert (H : keeps (command_ok inputs payload)
                (runAction env fields inputs payload)).
  { unfold runAction, scan_failed.
    apply keeps_bind_getInput. cbv zeta.
    apply keeps_try; [| repeat keeps_step; exact I].
    repeat first [ apply keeps_bind_getInput | apply keeps_bind_path
                 | apply keeps_bind_payload ].
    apply keeps_bind_lift. intros [] Htoken.
    assert (Hargs : forall B (k : unit -> @Action.M W B),
               ((in_snykArguments inputs = "" \/
                 checkSnykArgs (in_snykArguments inputs) = Ok tt) ->
                keeps (command_ok inputs payload) (k tt)) ->
               keeps (command_ok inputs payload)
                 (bindM
                    (if negb (in_snykArguments inputs =? "")
                     then lift (checkSnykArgs (in_snykArguments inputs))
                     else ret tt) k)).
    { intros B k Hk.
      destruct (in_snykArguments inputs =? "") eqn:Ea; simpl negb;
        cbv iota.
      - apply String.eqb_eq in Ea.
        apply keeps_bind; [apply keeps_ret|]. intros []. auto.
      - apply keeps_bind_lift. intros [] Ha. auto. }
    apply Hargs. intros Ha.
    repeat keeps_step; try exact I;
      (split; [exact Htoken | split; [exact Ha|]]);
      try (left; split; reflexivity);
      right; (split; [reflexivity|]);
      match goal with
      | E : (pl_commits payload && pl_head_commit payload)%bool = _
        |- _ => rewrite E
      end;
      try reflexivity;
      (split; [assumption|]);
      try destruct (in_breakBuild inputs =? "true"); reflexivity. }
  apply H. constructor.
Qed.

(** X16.  The files that [runAction] touches by a call of its own.  The
    only lockfile it reads is [pnpm-lock.yaml] in the directory of its
    input, which is [/] for the input [.]; the only file it writes is
    [package-lock.json] beside it, and what it writes there is the
    serialized output of a conversion of that lockfile that has
    succeeded; the only files it reads back are that package lock and
    the file [out].  The file [out] itself is written by the shell of
    the command of the delta scan, which redirects to it: what the
    commands read and write is not covered here. *)
Theorem files_are_the_lockfiles w :
  Forall (file_ok env fields inputs)
    (trace_of (runAction env fields inputs payload w [])).
Proof.
  assert (H : keeps (file_ok env fields inputs)
                (runAction env fields inputs payload)).
  { unfold runAction, scan_failed.
    apply keeps_bind_getInput. cbv zeta.
    apply keeps_try; [| repeat keeps_step; exact I].
    repeat first [ apply keeps_bind_getInput | apply keeps_bind_path
                 | apply keeps_bind_payload ].
    repeat keeps_step; try exact I; try reflexivity.
    - split; [reflexivity|].
      match goal with
      | E : exists _, _ |- _ => destruct E as [w0 E]
      end.
      now exists w0, packageLock.
    - now left.
    - now right. }
  apply H. constructor.
Qed.

(** The reads with which a run begins return the inputs and the
    payload. *)
Ltac read_inputs Hread :=
  unfold runAction; cbv zeta;
  erewrite bindM_returned; [| apply getInput_returned; apply (proj1 Hread)];
  unfold try_catch;
  repeat (erewrite bindM_returned;
          [| first [ apply getInput_returned; apply (proj1 Hread)
                   | apply path_returned; apply (proj1 Hread)
                   | apply payload_returned; apply (proj2 Hread) ]]).

(** X17.  When the inputs and the payload can be read and the token
    does not pass its check, [runAction] does nothing but report the
    error of that check, ["Unauthorized characters in snyk token"]:
    it logs ["Failed Check !"] and then the error, with [setFailed]
    when [breakBuild] is ["true"] and on the console otherwise.  When
    the token passes and the arguments are not empty and do not pass
    theirs, it reports ["Unauthorized characters in snyk args"] in the
    same way.  In both cases it returns, the world is as it was, and
    the trace holds no command, no read or write of a file and no
    delta. *)
Theorem unchecked_inputs_stop w :
  readable env w ->
  can_fail_build env inputs w ->
  (checkSnykToken (in_snykToken inputs) <> Ok tt ->
   runAction env fields inputs payload w []
   = Returned tt w
       (failure_report inputs
          (mkThrown (JsError None "Unauthorized characters in snyk token")
             None)))
  /\
  (checkSnykToken (in_snykToken inputs) = Ok tt ->
   in_snykArguments inputs <> "" ->
   checkSnykArgs (in_snykArguments inputs) <> Ok tt ->
   runAction env fields inputs payload w []
   = Returned tt w
       (failure_report inputs
          (mkThrown (JsError None "Unauthorized characters in snyk args")
             None)))
  /\
  (checkSnykToken (in_snykToken inputs) <> Ok tt \/
   (in_snykArguments inputs <> "" /\
    checkSnykArgs (in_snykArguments inputs) <> Ok tt) ->
   Forall inert (trace_of (runAction env fields inputs payload w []))).
Proof.
  intros Hread Hfail.
  assert (Htoken :
            checkSnykToken (in_snykToken inputs) <> Ok tt ->
            runAction env fields inputs payload w []
            = Returned tt w
                (failure_report inputs
                   (mkThrown
                      (JsError None "Unauthorized characters in snyk token")
                      None))).
  { intros H.
    destruct (checkSnykToken_cases (in_snykToken inputs)) as [[_ Et] | [_ Et]];
      [congruence|].
    read_inputs Hread.
    erewrite bindM_threw; [| rewrite Et; reflexivity].
    exact (handler_reports env inputs _ w [] Hfail). }
  assert (Hargs :
            checkSnykToken (in_snykToken inputs) = Ok tt ->
            in_snykArguments inputs <> "" ->
            checkSnykArgs (in_snykArguments inputs) <> Ok tt ->
            runAction env fields inputs payload w []
            = Returned tt w
                (failure_report inputs
                   (mkThrown
                      (JsError None "Unauthorized characters in snyk args")
                      None))).
  { intros Et Hne H.
    destruct (checkSnykArgs_cases (in_snykArguments inputs))
      as [[_ Ea] | [_ Ea]]; [congruence|].
    apply String.eqb_neq in Hne.
    read_inputs Hread.
    erewrite bindM_returned; [| rewrite Et; reflexivity].
    erewrite bindM_threw; [| rewrite Hne, Ea; reflexivity].
    exact (handler_reports env inputs _ w [] Hfail). }
  split; [exact Htoken|]. split; [exact Hargs|].
  intros H.
  assert (Hinert : forall err, Forall inert (failure_report inputs err)).
  { intros err. unfold failure_report.
    destruct (in_breakBuild inputs =? "true"); repeat constructor. }
  destruct (checkSnykToken_cases (in_snykToken inputs)) as [[_ Et] | [_ Et]].
  - destruct H as [H | [Hne H]]; [congruence|].
    rewrite (Hargs Et Hne H). apply Hinert.
  - rewrite Htoken; [apply Hinert | rewrite Et; discriminate].
Qed.

(** What the run does when the conversion throws [e]. *)
Lemma conversion_throws w w' out e :
  readable env w ->
  can_fail_build env inputs w' ->
  checkSnykToken (in_snykToken inputs) = Ok tt ->
  in_snykArguments inputs = "" \/
  checkSnykArgs (in_snykArguments inputs) = Ok tt ->
  execSync env w ("npx snyk auth " ++ in_snykToken inputs) None
  = (w', inl out) ->
  processPnpmLockfile fields (readYamlFile env w')
    (working_directory inputs ++ "pnpm-lock.yaml") = Throw e ->
  runAction env fields inputs payload w [] =
  Returned tt w' (stopped_at_lockfile inputs e).
Proof.
  intros Hread Hfail Ht Ha Hauth Hconv. unfold stopped_at_lockfile.
  read_inputs Hread.
  erewrite bindM_returned; [| rewrite Ht; reflexivity].
  erewrite bindM_returned; [| exact (arguments_pass w [] Ha)].
  erewrite bindM_returned; [| unfold exec; rewrite Hauth; reflexivity].
  erewrite bindM_threw; [| unfold convert; rewrite Hconv; reflexivity].
  exact (handler_reports env inputs _ w' _ Hfail).
Qed.

(** X18.  Take a run in which the inputs and the payload can be read,
    the inputs pass their checks and the authentication succeeds.  When
    the lockfile does not exist, [runAction] stops after it has tried
    to read it: it reports ["Failed to load pnpm lock file"] with the
    path, after ["Failed Check !"], writes no package lock and runs no
    scan.  It stops in the same way, with the error of the read, when
    the read fails otherwise, and with the error of the conversion
    when the lockfile is read and its conversion throws. *)
Theorem failed_conversion_stops w w' out :
  readable env w ->
  can_fail_build env inputs w' ->
  checkSnykToken (in_snykToken inputs) = Ok tt ->
  in_snykArguments inputs = "" \/
  checkSnykArgs (in_snykArguments inputs) = Ok tt ->
  execSync env w ("npx snyk auth " ++ in_snykToken inputs) None
  = (w', inl out) ->
  (forall message,
      readYamlFile env w' (working_directory inputs ++ "pnpm-lock.yaml")
      = Throw (JsError (Some "ENOENT") message) ->
      runAction env fields inputs payload w [] =
      Returned tt w'
        (stopped_at_lockfile inputs
           (JsError None
              ("Failed to load pnpm lock file "
               ++ working_directory inputs ++ "pnpm-lock.yaml"))))
  /\
  (forall err,
      readYamlFile env w' (working_directory inputs ++ "pnpm-lock.yaml")
      = Throw err ->
      (forall message, err <> JsError (Some "ENOENT") message) ->
      runAction env fields inputs payload w [] =
      Returned tt w' (stopped_at_lockfile inputs err))
  /\
  (forall lockfile e,
      readYamlFile env w' (working_directory inputs ++ "pnpm-lock.yaml")
      = Ok lockfile ->
      processLockfile fields lockfile = Throw e ->
      runAction env fields inputs payload w [] =
      Returned tt w' (stopped_at_lockfile inputs e)).
Proof.
  intros Hread Hfail Ht Ha Hauth.
  split; [|split].
  - intros message Hr.
    apply (conversion_throws w w' out _ Hread Hfail Ht Ha Hauth).
    unfold processPnpmLockfile, readPnpmLockfile. now rewrite Hr.
  - intros err Hr Hne.
    apply (conversion_throws w w' out _ Hread Hfail Ht Ha Hauth).
    unfold processPnpmLockfile, readPnpmLockfile. rewrite Hr.
    assert (Hc : code_is_not err "ENOENT" = true).
    { destruct err as [[c|] message|p]; try reflexivity. simpl.
      apply negb_true_iff, String.eqb_neq. intros ->. now apply (Hne message). }
    now rewrite Hc.
  - intros lockfile e Hr He.
    apply (conversion_throws w w' out _ Hread Hfail Ht Ha Hauth).
    unfold processPnpmLockfile, readPnpmLockfile. now rewrite Hr.
Qed.

(** X19.  On an event that is neither a push nor a pull request,
    [runAction] has authenticated, converted the lockfile and written
    the package lock before it finds the event out: when the inputs and
    the payload can be read and these steps succeed, the package lock is
    on disk, and the action then only logs that the event is
    unexpected. *)
Theorem unexpected_event_converts w w1 w2 out packageLock :
  readable env w ->
  (pl_commits payload && pl_head_commit payload)%bool = false ->
  pl_pull_request payload = false ->
  checkSnykToken (in_snykToken inputs) = Ok tt ->
  in_snykArguments inputs = "" \/
  checkSnykArgs (in_snykArguments inputs) = Ok tt ->
  execSync env w ("npx snyk auth " ++ in_snykToken inputs) None
  = (w1, inl out) ->
  processPnpmLockfile fields (readYamlFile env w1)
    (working_directory inputs ++ "pnpm-lock.yaml") = Ok packageLock ->
  writeFileAtomic env w1 (working_directory inputs ++ "package-lock.json")
    (JSON_stringify env packageLock) = (w2, None) ->
  runAction env fields inputs payload w [] =
  Returned tt w2
    [Exec ("npx snyk auth " ++ in_snykToken inputs) None;
     ReadLockfile (working_directory inputs ++ "pnpm-lock.yaml");
     WriteFile (working_directory inputs ++ "package-lock.json")
       (JSON_stringify env packageLock);
     Log "Unexpected event type - works on PRs and Push events"].
Proof.
  intros Hread Hpush Hpr Ht Ha Hauth Hconv Hwrite.
  read_inputs Hread.
  erewrite bindM_returned; [| rewrite Ht; reflexivity].
  erewrite bindM_returned; [| exact (arguments_pass w [] Ha)].
  erewrite bindM_returned; [| unfold exec; rewrite Hauth; reflexivity].
  erewrite bindM_returned; [| unfold convert; rewrite Hconv; reflexivity].
  erewrite bindM_returned;
    [| unfold writeNpmPackageLock; cbv zeta; rewrite Hwrite; reflexivity].
  rewrite Hpush, Hpr. reflexivity.
Qed.

End RunAction.

End ActionFacts.

(* ================================================================== *)
(** * More worked cases *)

Module MoreCases.
Import Str Grammar JsObject Examples Action ActionExamples.

(** A key of the path form is parsed, and a key with one slash is
    refused with an error that quotes it. *)
Lemma path_keys_accepted_witness :
  startsWith "/foo/1.0.0" "github.com/" = false /\
  ((exists d, getPathPackageDesc "/foo/1.0.0" = Ok d)
   <-> path_form "/foo/1.0.0") /\
  startsWith "foo/1.0.0" "github.com/" = false /\
  getPathPackageDesc "foo/1.0.0"
  = throwError "Error parsing package name foo/1.0.0".
Proof.
  split; [reflexivity|]. split.
  - exact (proj1 (KeyFacts.path_keys_accepted "/foo/1.0.0" eq_refl)).
  - split; [reflexivity|].
    apply (proj2 (KeyFacts.path_keys_accepted "foo/1.0.0" eq_refl)).
    intros Hform.
    apply (proj1 (KeyFacts.path_keys_accepted "foo/1.0.0" eq_refl)) in Hform
      as [d Hd].
    discriminate Hd.
Defined.

(** Once [/b/2.0.0] has been resolved with [remove], it is no longer
    found, while [/b/1.0.0] still is. *)
Lemma getPackage_consumes_witness :
  exists pkg lockfile',
    getPackage unrequired b_2_0_0 true = Ok (pkg, lockfile') /\
    getPackage lockfile' b_2_0_0 false
    = throwError "Failed to lookup /b/2.0.0 in packages" /\
    exists pkg',
      getPackage lockfile' (mkDesc Version "/b/1.0.0" "b" "1.0.0" None) false
      = Ok (pkg', lockfile') /\
      dep_integrity pkg' = Some "sha-b1".
Proof.
  destruct (getPackage unrequired b_2_0_0 true) as [[pkg lockfile']|e] eqn:E;
    [| discriminate E].
  exists pkg, lockfile'. split; [reflexivity|].
  destruct (ConsumeFacts.getPackage_consumes unrequired b_2_0_0 pkg lockfile' E)
    as (_ & Hgone & Hkept).
  split; [exact (Hgone b_2_0_0 false eq_refl eq_refl)|].
  eexists. split.
  - rewrite (Hkept (mkDesc Version "/b/1.0.0" "b" "1.0.0" None));
      [reflexivity | discriminate].
  - reflexivity.
Defined.

(** The root [foo] that Phase 1 sets for [nested] is in the output. *)
Lemma declared_roots_kept_witness :
  exists val,
    get (npl_dependencies (converted DEPENDENCIES_FIELDS_spec nested)) "foo"
    = Some val /\
    dep_version val = "1.0.0" /\ dep_integrity val = Some "sha-foo".
Proof.
  destruct (PromotionFacts.declared_roots_kept DEPENDENCIES_FIELDS_spec nested
              (converted DEPENDENCIES_FIELDS_spec nested) _ _ "foo" _
              eq_refl eq_refl eq_refl)
    as (val & Hval & Hv & _ & _ & Hi & _).
  exists val. split; [exact Hval|]. split; [exact Hv | exact Hi].
Defined.

(** [/bar/2.0.0] is the first key that Phase 1 leaves of [nested], and
    the root map shows nothing under its name: it is promoted.  The
    root map shows a member of [Object.prototype] under the name of
    [/constructor/1.0.0], which Phase 1 leaves of [member_name]: it is
    staged, and the output has no root of that name. *)
Lemma first_remaining_key_promoted_witness :
  (exists val,
      get (npl_dependencies (converted DEPENDENCIES_FIELDS_spec nested)) "bar"
      = Some val /\
      dep_version val = "2.0.0" /\ dep_integrity val = Some "sha-bar") /\
  get (npl_dependencies (converted DEPENDENCIES_FIELDS_spec member_name))
    "constructor" = None /\
  exists deps1 lockfile1 deps2 subdeps,
    phase1 DEPENDENCIES_FIELDS_spec member_name = Ok (deps1, lockfile1) /\
    phase2 lockfile1 deps1 = Ok (deps2, subdeps) /\
    has subdeps "/constructor/1.0.0" = true.
Proof.
  split.
  - destruct (PromotionFacts.first_remaining_key_promoted
                DEPENDENCIES_FIELDS_spec nested
                (converted DEPENDENCIES_FIELDS_spec nested) _ _
                [] "/bar/2.0.0" (snapshot "sha-bar" None)
                [("/foo/1.1.0_x", snapshot "sha-foo11" None)]
                (mkDesc Version "/bar/2.0.0" "bar" "2.0.0" None)
                eq_refl eq_refl eq_refl eq_refl eq_refl)
      as (Hpromoted & _).
    destruct (Hpromoted eq_refl)
      as (pkg & val & Hp & Hval & Hv & _ & _ & Hi & _).
    + intros ? ? ? [].
    + exists val. split; [exact Hval|].
      vm_compute in Hp. inversion Hp; subst pkg. split; assumption.
  - destruct (PromotionFacts.first_remaining_key_promoted
                DEPENDENCIES_FIELDS_spec member_name
                (converted DEPENDENCIES_FIELDS_spec member_name) _ _
                [] "/constructor/1.0.0" (snapshot "sha-c" None) []
                (mkDesc Version "/constructor/1.0.0" "constructor" "1.0.0"
                   None)
                eq_refl eq_refl eq_refl eq_refl eq_refl)
      as (_ & Hstaged & Hmember & _).
    destruct (Hstaged (Hmember eq_refl))
      as (Hnone & deps2 & subdeps & H2 & Hs).
    split; [exact Hnone|].
    eexists. eexists. exists deps2, subdeps.
    split; [reflexivity|]. split; [exact H2 | exact Hs].
Defined.

(** In the output for [nested], the entry [foo] of the 'requires' of
    [baz] is backed by a package nested under [baz], and the entry [bar]
    of the 'requires' of [foo] by the root [bar]. *)
Lemma requires_are_backed_witness :
  (exists val' sub,
      get (npl_dependencies (converted DEPENDENCIES_FIELDS_spec nested)) "baz"
      = Some val' /\
      get (or_empty (dep_dependencies val')) "foo" = Some sub /\
      sub_version sub = "1.1.0") /\
  (exists root,
      get (npl_dependencies (converted DEPENDENCIES_FIELDS_spec nested)) "bar"
      = Some root /\
      dep_version root = "2.0.0").
Proof.
  destruct (ClosureFacts.requires_are_backed DEPENDENCIES_FIELDS_spec nested
              (converted DEPENDENCIES_FIELDS_spec nested) eq_refl)
    as (deps1 & lockfile1 & deps & subdeps & H1 & H2 & Hall).
  vm_compute in H1. inversion H1; subst deps1 lockfile1; clear H1.
  vm_compute in H2. inversion H2; subst deps subdeps; clear H2.
  split.
  - destruct (Hall "baz" _ [("foo", "1.1.0_x")] "foo" "1.1.0_x"
                eq_refl eq_refl)
      as (d & val' & Hd & Hval & Hcase).
    + distinct_keys.
    + now left.
    + vm_compute in Hd. inversion Hd; subst d; clear Hd.
      destruct Hcase as [(dep & Hdep & Hsub) | (Hnone & _)];
        [| discriminate Hnone].
      vm_compute in Hdep. inversion Hdep; subst dep; clear Hdep.
      exists val'. eexists. split; [exact Hval|].
      split; [apply Hsub; discriminate|].
      reflexivity.
  - destruct (Hall "foo" _ [("bar", "2.0.0")] "bar" "2.0.0"
                eq_refl eq_refl)
      as (d & val' & Hd & _ & Hcase).
    + distinct_keys.
    + now left.
    + vm_compute in Hd. inversion Hd; subst d; clear Hd.
      destruct Hcase as [(dep & Hdep & _) | (_ & _ & Hroot)];
        [discriminate Hdep|].
      destruct (Hroot eq_refl) as (root & Hroot' & Hv).
      exists root. split; [exact Hroot' | exact Hv].
Defined.

(** The roots of the output for [nested] are the three roots of Phase 1
    and the root that Phase 2 promotes, in this order; [baz] keeps the
    name of its 'requires'. *)
Lemma roots_and_requires_kept_witness :
  keys (npl_dependencies (converted DEPENDENCIES_FIELDS_spec nested))
  = ["@scope/pkg"; "foo"; "baz"; "bar"] /\
  exists val',
    get (npl_dependencies (converted DEPENDENCIES_FIELDS_spec nested)) "baz"
    = Some val' /\
    option_map keys (dep_requires val') = Some ["foo"].
Proof.
  destruct (ClosureFacts.roots_and_requires_kept DEPENDENCIES_FIELDS_spec
              nested (converted DEPENDENCIES_FIELDS_spec nested) eq_refl)
    as (deps1 & lockfile1 & deps & subdeps & H1 & H2 & Hkeys & Hall).
  vm_compute in H1. inversion H1; subst deps1 lockfile1; clear H1.
  vm_compute in H2. inversion H2; subst deps subdeps; clear H2.
  split; [exact Hkeys|].
  destruct (Hall "baz" _ eq_refl) as (val' & Hval & _ & Hreq).
  exists val'. split; [exact Hval | exact Hreq].
Defined.

(** The root [baz] of the output for [nested] and the package nested
    under it come from snapshots of [nested]. *)
Lemma output_provenance_witness :
  exists val,
    get (npl_dependencies (converted DEPENDENCIES_FIELDS_spec nested)) "baz"
    = Some val /\
    (exists pkg, resolved_from nested "baz" pkg /\ same_resolution val pkg) /\
    forall m sub,
      In (m, sub) (or_empty (dep_dependencies val)) ->
      exists name' pkg',
        resolved_from nested name' pkg' /\
        sub = getSubDependencyFromDependency pkg'.
Proof.
  eexists. split; [reflexivity|].
  apply (ClosureFacts.output_provenance DEPENDENCIES_FIELDS_spec nested
           (converted DEPENDENCIES_FIELDS_spec nested) "baz");
    [reflexivity|].
  right. right. left. reflexivity.
Defined.

(** A token with a blank and a semicolon stops the action before any
    command; so do arguments that chain a command. *)
Lemma unchecked_inputs_stop_witness :
  checkSnykToken "abc; rm -rf /" <> Ok tt /\
  runAction with_lockfile DEPENDENCIES_FIELDS_spec
    (inputs "true" "abc; rm -rf /") other_event [] []
  = Returned tt []
      [Log "Failed Check !";
       SetFailedError
         (mkThrown (JsError None "Unauthorized characters in snyk token")
            None)] /\
  runAction with_lockfile DEPENDENCIES_FIELDS_spec
    (mkInputs "false" "abc-123" "org" "." "false" "false" "--all; env" "false")
    other_event [] []
  = Returned tt []
      [Log "Failed Check !";
       LogError
         (mkThrown (JsError None "Unauthorized characters in snyk args")
            None)].
Proof.
  assert (H : checkSnykToken "abc; rm -rf /" <> Ok tt).
  { intros H. vm_compute in H. discriminate H. }
  split; [exact H|]. split.
  - exact (proj1 (ActionFacts.unchecked_inputs_stop with_lockfile
                    DEPENDENCIES_FIELDS_spec (inputs "true" "abc; rm -rf /")
                    other_event [] (conj (fun _ => eq_refl) eq_refl)
                    (fun _ => eq_refl)) H).
  - apply (proj1 (proj2 (ActionFacts.unchecked_inputs_stop with_lockfile
                           DEPENDENCIES_FIELDS_spec
                           (mkInputs "false" "abc-123" "org" "." "false"
                              "false" "--all; env" "false")
                           other_event [] (conj (fun _ => eq_refl) eq_refl)
                           (fun _ => eq_refl))));
      [reflexivity | discriminate |].
    intros Ha. vm_compute in Ha. discriminate Ha.
Defined.

(** Without the lockfile the action authenticates, fails to read it and
    reports it; nothing is written. *)
Lemma failed_conversion_stops_witness :
  readYamlFile without_lockfile [] "/pnpm-lock.yaml"
  = Throw (JsError (Some "ENOENT")
             "ENOENT: no such file or directory, open '/pnpm-lock.yaml'") /\
  runAction without_lockfile DEPENDENCIES_FIELDS_spec
    (inputs "false" "abc-123") other_event [] []
  = Returned tt []
      [Exec "npx snyk auth abc-123" None;
       ReadLockfile "/pnpm-lock.yaml";
       Log "Failed Check !";
       LogError
         (mkThrown
            (JsError None "Failed to load pnpm lock file /pnpm-lock.yaml")
            None)].
Proof.
  split; [reflexivity|].
  exact (proj1 (ActionFacts.failed_conversion_stops without_lockfile
                  DEPENDENCIES_FIELDS_spec (inputs "false" "abc-123")
                  other_event [] [] "ran npx snyk auth abc-123"
                  (conj (fun _ => eq_refl) eq_refl) (fun _ => eq_refl)
                  eq_refl (or_introl eq_refl) eq_refl)
           _ eq_refl).
Defined.

(** On an event that is neither a push nor a pull request the package
    lock of [nested] is written all the same. *)
Lemma unexpected_event_converts_witness :
  runAction with_lockfile DEPENDENCIES_FIELDS_spec
    (inputs "false" "abc-123") other_event [] []
  = Returned tt [("/package-lock.json", "@scope/pkg,foo,baz,bar")]
      [Exec "npx snyk auth abc-123" None;
       ReadLockfile "/pnpm-lock.yaml";
       WriteFile "/package-lock.json" "@scope/pkg,foo,baz,bar";
       Log "Unexpected event type - works on PRs and Push events"].
Proof.
  exact (ActionFacts.unexpected_event_converts with_lockfile
           DEPENDENCIES_FIELDS_spec (inputs "false" "abc-123") other_event
           [] [] [("/package-lock.json", "@scope/pkg,foo,baz,bar")]
           "ran npx snyk auth abc-123"
           (converted DEPENDENCIES_FIELDS_spec nested)
           (conj (fun _ => eq_refl) eq_refl)
           eq_refl eq_refl eq_refl (or_introl eq_refl) eq_refl eq_refl
           eq_refl).
Defined.

(** The key of [foo] at [1.1.0] with the extra [x], taken apart and put
    together. *)
Lemma path_key_round_trip_witness :
  (exists registry,
      none is_slash registry = true /\
      "/foo/1.1.0_x" = registry ++ "/" ++ "foo" ++ "/"
                       ++ join_version "1.1.0" (Some "x")) /\
  getPathPackageDesc ("" ++ "/" ++ "foo" ++ "/" ++ join_version "1.1.0" (Some "x"))
  = Ok (mkDesc Version "/foo/1.1.0_x" "foo" "1.1.0" (Some "x")).
Proof.
  split.
  - destruct (proj1 KeyFacts.path_key_round_trip "/foo/1.1.0_x"
                (mkDesc Version "/foo/1.1.0_x" "foo" "1.1.0" (Some "x"))
                eq_refl eq_refl)
      as (registry & Hr & _ & Hkey).
    exists registry. split; [exact Hr | exact Hkey].
  - apply (proj2 KeyFacts.path_key_round_trip "" "foo" "1.1.0" (Some "x"));
      try reflexivity; [discriminate|].
    apply plain_name; reflexivity.
Defined.

(** A name alone, a range and a link to a directory are refused. *)
Lemma short_keys_refused_witness :
  (exists message,
      getPathPackageDesc "foo" = throwError message /\
      includes message "foo") /\
  (exists message,
      getDependencyPackageDesc "foo" "^1.0.0" = throwError message /\
      includes message "^1.0.0") /\
  (exists message,
      getDependencyPackageDesc "foo" "link:../foo" = throwError message /\
      includes message "link:../foo").
Proof.
  split; [| split].
  - apply (proj1 KeyFacts.short_keys_refused "foo"). simpl. lia.
  - apply (proj2 KeyFacts.short_keys_refused "foo" "^1.0.0");
      [reflexivity | simpl; lia].
  - apply (proj2 KeyFacts.short_keys_refused "foo" "link:../foo");
      [reflexivity | simpl; lia].
Defined.

(** Phase 1 returns for [nested]: its three entries parse, to distinct
    keys that the lockfile has. *)
Lemma phase1_succeeds_witness :
  exists ds,
    Forall2 parses (bucket_entries DEPENDENCIES_FIELDS_spec nested) ds /\
    NoDup (map pd_fullName ds).
Proof.
  destruct (proj1 (proj1 (ConsumeFacts.phase1_succeeds
                            DEPENDENCIES_FIELDS_spec nested))
              (ex_intro _ _ eq_refl))
    as (ds & Hds & Hnd & _).
  exists ds. split; [exact Hds | exact Hnd].
Defined.

(** Phase 2 returns on what Phase 1 leaves of [nested], where the
    parser accepts both keys. *)
Lemma phase2_succeeds_witness :
  (exists d, getPathPackageDesc "/bar/2.0.0" = Ok d) /\
  (exists d, getPathPackageDesc "/foo/1.1.0_x" = Ok d).
Proof.
  pose proof (proj1 (PromotionFacts.phase2_succeeds
                       (mkPnpmPackageLock None None None
                          [("/bar/2.0.0", snapshot "sha-bar" None);
                           ("/foo/1.1.0_x", snapshot "sha-foo11" None)] [])
                       empty_root)
                (ex_intro _ _ eq_refl)) as H.
  split; apply H; simpl; tauto.
Defined.

(** The conversion of [nested] returns, and that of
    [dangling_requires] does not: its entry [zzz] is not settled. *)
Lemma conversion_succeeds_witness :
  (exists deps1 lockfile1 deps subdeps,
      phase1 DEPENDENCIES_FIELDS_spec nested = Ok (deps1, lockfile1) /\
      phase2 lockfile1 deps1 = Ok (deps, subdeps) /\
      requires_settled deps subdeps deps) /\
  ~ (exists deps1 lockfile1 deps subdeps,
        phase1 DEPENDENCIES_FIELDS_spec dangling_requires
        = Ok (deps1, lockfile1) /\
        phase2 lockfile1 deps1 = Ok (deps, subdeps) /\
        requires_settled deps subdeps deps).
Proof.
  split.
  - exact (proj1 (ClosureFacts.conversion_succeeds DEPENDENCIES_FIELDS_spec
                    nested) (ex_intro _ _ eq_refl)).
  - intros H.
    apply (proj2 (ClosureFacts.conversion_succeeds DEPENDENCIES_FIELDS_spec
                    dangling_requires)) in H as [out H].
    vm_compute in H. discriminate H.
Defined.

(** A token of hexadecimal digits and hyphens passes, one with a capital
    does not; a threshold passes, and holds nothing special for a
    shell, while a chained command does not pass. *)
Lemma inputs_checked_witness :
  checkSnykToken "0a1b2c3d-4e5f" = Ok tt /\
  checkSnykToken "0A1B2C3D"
  = throwError "Unauthorized characters in snyk token" /\
  checkSnykArgs "--severity-threshold=high" = Ok tt /\
  none shell_special "--severity-threshold=high" = true /\
  checkSnykArgs "--all-projects; env"
  = throwError "Unauthorized characters in snyk args".
Proof.
  destruct ActionFacts.inputs_checked as (Ht & Ht' & Ha & Ha' & Hs).
  split; [apply Ht; reflexivity|].
  split; [apply Ht'; intros H; vm_compute in H; discriminate H|].
  split; [apply Ha; reflexivity|].
  split; [apply Hs, Ha; reflexivity|].
  apply Ha'. intros H. vm_compute in H. discriminate H.
Defined.

(** When the default import of the toolkit is [undefined], the first
    read throws and the run is rejected with that error.  In a world
    where every call succeeds, a pull request is scanned without an
    error escaping, and in the non-blocking mode without failing the
    build. *)
Lemma errors_are_caught_witness :
  runAction without_toolkit DEPENDENCIES_FIELDS_spec
    (inputs "false" "abc-123") other_event [] []
  = Threw no_default [] [] /\
  match
    runAction with_lockfile DEPENDENCIES_FIELDS_spec
      (inputs "true" "abc-123") (mkPayload false false true) [] []
  with
  | Threw _ _ _ => False
  | _ => True
  end /\
  Forall harmless
    (trace_of
       (runAction with_lockfile DEPENDENCIES_FIELDS_spec
          (inputs "false" "abc-123") (mkPayload false false true) [] [])).
Proof.
  split; [|split].
  - exact (proj1 (proj2 (ActionFacts.errors_are_caught without_toolkit
                           DEPENDENCIES_FIELDS_spec (inputs "false" "abc-123")
                           other_event))
             [] no_default eq_refl).
  - apply (proj1 (proj2 (proj2 (ActionFacts.errors_are_caught with_lockfile
                                  DEPENDENCIES_FIELDS_spec
                                  (inputs "true" "abc-123")
                                  (mkPayload false false true))))
             [] eq_refl).
    right. intros w'. reflexivity.
  - apply (proj2 (proj2 (proj2 (ActionFacts.errors_are_caught with_lockfile
                                  DEPENDENCIES_FIELDS_spec
                                  (inputs "false" "abc-123")
                                  (mkPayload false false true))))).
    discriminate.
Defined.

(** A staged package that a root requires under the name [__proto__]
    is not nested under that name: the assignment replaces the
    prototype of the map of nested records, which stays empty. *)
Example nested_under_proto :
  exists out a,
    processLockfile DEPENDENCIES_FIELDS_spec proto_required = Ok out /\
    get (npl_dependencies out) "a" = Some a /\
    dep_requires a = Some [("__proto__", "/x/2.0.0")] /\
    dep_dependencies a = Some [].
Proof. do 2 eexists. repeat split; reflexivity. Qed.

(** When the consumed key is the name of a member of
    [Object.prototype], the next lookup finds the member. *)
Example consumed_member_key :
  exists pkg lockfile',
    getPackage member_key
      (mkDesc Version "constructor" "constructor" "1.0.0" None) true
    = Ok (pkg, lockfile') /\
    getPackage lockfile'
      (mkDesc Version "constructor" "constructor" "1.0.0" None) false
    = Throw (JsTypeError "integrity").
Proof. do 2 eexists. split; reflexivity. Qed.

End MoreCases.
